(** * download_vrs.py: a shallow embedding and its verified properties

    The development follows the layout of [download_vrs.py]:
    - [Json]: the parsed input document and [recursive_find_entries];
    - [Text]: the string helpers ([VRS_REGEX], [sanitize_filename],
      [str.isdigit], [int], [str.lower]);
    - [Sys]: the world the script runs in (file system, HTTP server, standard
      output) as an explicit state threaded by a state-and-exception monad;
    - [Download]: [head_request_length], [ranged_download], [download_one],
      [worker] and the sequential parts of [main].

    The strings of a document are sequences of 8-bit characters (the code
    points below U+0100), with the ASCII case mapping; [VRS_REGEX] is also
    given on all code points. *)

From Stdlib Require Import ZArith Lia Ascii String List.
From stdpp Require Import gmap strings list fin_maps.

Open Scope string_scope.
Open Scope Z_scope.
Open Scope list_scope.

(** ** The parsed JSON document *)

Module Json.

(** What [json.load] returns: [None], [bool], [int], [float], [str], [list]
    and [dict].  A [dict] keeps its insertion order, so it is an association
    list; of a [float] the script only ever uses the truth value, so that is
    all it carries. *)
#[local] Unset Elimination Schemes.
Inductive json : Type :=
| JNull
| JBool (b : bool)
| JInt (n : Z)
| JFloat (nonzero : bool)
| JStr (s : string)
| JList (items : list json)
| JDict (fields : list (string * json)).
#[local] Set Elimination Schemes.

(** [k in obj] for a dict. *)
Definition has_key (k : string) (fields : list (string * json)) : bool :=
  existsb (fun kv => String.eqb k (fst kv)) fields.

(** [obj.get(k)]: the value stored under [k], if any. *)
Fixpoint dict_get (k : string) (fields : list (string * json)) : option json :=
  match fields with
  | [] => None
  | (k', v) :: rest => if String.eqb k k' then Some v else dict_get k rest
  end.

(** Python truthiness of a JSON value ([if v:], [not v]). *)
Definition truthy (v : json) : bool :=
  match v with
  | JNull => false
  | JBool b => b
  | JInt n => negb (n =? 0)
  | JFloat nonzero => nonzero
  | JStr s => negb (String.eqb s "")
  | JList items => match items with [] => false | _ => true end
  | JDict fields => match fields with [] => false | _ => true end
  end.

(** [recursive_find_entries(obj)]: the generator is modelled by the list of
    the values it yields, in the order it yields them. *)
Fixpoint recursive_find_entries (obj : json) : list json :=
  match obj with
  | JDict fields =>
      (if has_key "filename" fields && has_key "download_url" fields
       then [obj] else [])
      ++ flat_map (fun kv : string * json => let (_, v) := kv in recursive_find_entries v) fields
  | JList items => flat_map recursive_find_entries items
  | _ => []
  end.

(** *** The specification side of the extractor *)

(** A node "looks like a file entry": a dict holding both marker keys. *)
Definition looks_like_entry (obj : json) : bool :=
  match obj with
  | JDict fields => has_key "filename" fields && has_key "download_url" fields
  | _ => false
  end.

(** Every node of the document, depth first, left to right, parents before
    their children. *)
Fixpoint nodes_preorder (obj : json) : list json :=
  obj ::
  match obj with
  | JDict fields => flat_map (fun kv : string * json => let (_, v) := kv in nodes_preorder v) fields
  | JList items => flat_map nodes_preorder items
  | _ => []
  end.

(** [child c p]: [c] is an element of the list [p] or a value of the dict [p]. *)
Inductive child : json -> json -> Prop :=
| child_item c items : In c items -> child c (JList items)
| child_value c k fields : In (k, c) fields -> child c (JDict fields).

(** [node_of n doc]: [n] sits at some depth inside [doc] ([doc] included). *)
Inductive node_of : json -> json -> Prop :=
| node_here doc : node_of doc doc
| node_below n c doc : child c doc -> node_of n c -> node_of n doc.

(** Induction over documents that also goes through lists and dicts. *)
Section JsonInd.
Variable P : json -> Prop.
Hypothesis Hnull : P JNull.
Hypothesis Hbool : forall b, P (JBool b).
Hypothesis Hint : forall n, P (JInt n).
Hypothesis Hfloat : forall l, P (JFloat l).
Hypothesis Hstr : forall s, P (JStr s).
Hypothesis Hlist : forall items, Forall P items -> P (JList items).
Hypothesis Hdict : forall fields, Forall (fun kv => P (snd kv)) fields -> P (JDict fields).

Fixpoint json_nested_ind (obj : json) : P obj :=
  match obj with
  | JNull => Hnull
  | JBool b => Hbool b
  | JInt n => Hint n
  | JFloat l => Hfloat l
  | JStr s => Hstr s
  | JList items =>
      Hlist items
        ((fix go (l : list json) : Forall P l :=
            match l with
            | [] => @List.Forall_nil _ P
            | x :: l' => @List.Forall_cons _ P x l' (json_nested_ind x) (go l')
            end) items)
  | JDict fields =>
      Hdict fields
        ((fix go (l : list (string * json)) : Forall (fun kv => P (snd kv)) l :=
            match l with
            | [] => @List.Forall_nil _ _
            | kv :: l' => @List.Forall_cons _ _ kv l' (json_nested_ind (snd kv)) (go l')
            end) fields)
  end.
End JsonInd.

End Json.

(** ** String helpers *)

Module Text.

Definition char_of_code (n : nat) : ascii := ascii_of_nat n.
Definition code (c : ascii) : nat := nat_of_ascii c.

(** ASCII case mapping of one character. *)
Definition lower_char (c : ascii) : ascii :=
  if (65 <=? code c)%nat && (code c <=? 90)%nat
  then char_of_code (code c + 32) else c.

(** [s.lower()], with the ASCII case mapping: the script lowers hexadecimal
    digests and the checksums it compares them with. *)
Fixpoint lower (s : string) : string :=
  match s with
  | EmptyString => EmptyString
  | String c s' => String (lower_char c) (lower s')
  end.

(** *** The regular expression [VRS_REGEX]

    [re.compile(r"\.vrs$", re.IGNORECASE)]: four literal characters, matched
    without regard to case, followed by the anchor [$].  Without
    [re.MULTILINE] the anchor [$] matches at the end of the string and also
    just before a newline that is the last character of the string. *)
Inductive pat_item : Type :=
| PLit (c : ascii)
| PEnd.

Definition newline : ascii := char_of_code 10.

(** Does the pattern match a prefix of [s] (the text that starts at the
    current position)? *)
Fixpoint match_here (ignorecase : bool) (pat : list pat_item) (s : string) : bool :=
  match pat with
  | [] => true
  | PEnd :: pat' =>
      match s with
      | EmptyString => match_here ignorecase pat' s
      | String c EmptyString => Ascii.eqb c newline && match_here ignorecase pat' s
      | _ => false
      end
  | PLit c :: pat' =>
      match s with
      | EmptyString => false
      | String d s' =>
          (if ignorecase then Ascii.eqb (lower_char c) (lower_char d) else Ascii.eqb c d)
          && match_here ignorecase pat' s'
      end
  end.

(** [pattern.search(s)]: try every start position, left to right; the result
    is the truth value of the match object. *)
Fixpoint re_search (ignorecase : bool) (pat : list pat_item) (s : string) : bool :=
  match_here ignorecase pat s ||
  match s with
  | EmptyString => false
  | String _ s' => re_search ignorecase pat s'
  end.

Definition VRS_PATTERN : list pat_item := [PLit "."; PLit "v"; PLit "r"; PLit "s"; PEnd]%char.

Definition VRS_REGEX_search (fname : string) : bool := re_search true VRS_PATTERN fname.

(** *** [VRS_REGEX] on every [str]

    A [str] of Python is a sequence of code points.  With [re.IGNORECASE] a
    literal of the pattern that is an ASCII character matches a code point
    when their lower cases agree, and the tables of [re] add three pairs for
    the ASCII letters: U+0130 and U+0131 (dotted capital and dotless i) match
    [i], U+212A (Kelvin sign) matches [k], and U+017F (long s) matches [s]. *)
Definition literal_matches_ignorecase (c : ascii) (p : N) : bool :=
  let l := N.of_nat (code (lower_char c)) in
  let folded := if ((65 <=? p) && (p <=? 90))%N then (p + 32)%N else p in
  (folded =? l)%N
  || ((l =? 105) && ((p =? 304) || (p =? 305)))%N
  || ((l =? 107) && (p =? 8490))%N
  || ((l =? 115) && (p =? 383))%N.

Fixpoint match_here_unicode (ignorecase : bool) (pat : list pat_item) (s : list N) : bool :=
  match pat with
  | [] => true
  | PEnd :: pat' =>
      match s with
      | [] => match_here_unicode ignorecase pat' s
      | [c] => (c =? 10)%N && match_here_unicode ignorecase pat' s
      | _ => false
      end
  | PLit c :: pat' =>
      match s with
      | [] => false
      | d :: s' =>
          (if ignorecase then literal_matches_ignorecase c d
           else (N.of_nat (code c) =? d)%N)
          && match_here_unicode ignorecase pat' s'
      end
  end.

Fixpoint re_search_unicode (ignorecase : bool) (pat : list pat_item) (s : list N) : bool :=
  match_here_unicode ignorecase pat s ||
  match s with
  | [] => false
  | _ :: s' => re_search_unicode ignorecase pat s'
  end.

Definition VRS_REGEX_search_unicode (fname : list N) : bool :=
  re_search_unicode true VRS_PATTERN fname.

(** The code points of a string of 8-bit characters. *)
Definition code_points (s : string) : list N :=
  map (fun c => N.of_nat (code c)) (list_ascii_of_string s).

(** The endings that the filter looks for: a dot, v or V, r or R, and s, S
    or the long s, and after them nothing or one newline. *)
Definition vrs_ending (l : list N) : Prop :=
  exists b c d,
    (l = [46; b; c; d] \/ l = [46; b; c; d; 10])%N
    /\ (b = 118 \/ b = 86)%N
    /\ (c = 114 \/ c = 82)%N
    /\ (d = 115 \/ d = 83 \/ d = 383)%N.

(** *** [sanitize_filename] *)

(** The character class of [sanitize_filename]: backslash, slash, colon,
    star, question mark, double quote, angle brackets and bar. *)
Definition forbidden_codes : list nat := [92; 47; 58; 42; 63; 34; 60; 62; 124]%nat.

Definition is_forbidden (c : ascii) : bool :=
  existsb (Nat.eqb (code c)) forbidden_codes.

(** [re.sub(class, '_', name)]. *)
Fixpoint sanitize_filename (name : string) : string :=
  match name with
  | EmptyString => EmptyString
  | String c s' => String (if is_forbidden c then "_"%char else c) (sanitize_filename s')
  end.

(** *** [str.isdigit] and [int] *)

Definition is_ascii_digit (c : ascii) : bool :=
  (48 <=? code c)%nat && (code c <=? 57)%nat.

(** The characters below 256 for which [str.isdigit] holds: the ten ASCII
    digits and the superscripts two, three and one (178, 179, 185). *)
Definition is_digit_char (c : ascii) : bool :=
  is_ascii_digit c || existsb (Nat.eqb (code c)) [178; 179; 185]%nat.

Fixpoint all_chars (p : ascii -> bool) (s : string) : bool :=
  match s with
  | EmptyString => true
  | String c s' => p c && all_chars p s'
  end.

(** [s.isdigit()]: at least one character and every character a digit. *)
Definition isdigit (s : string) : bool :=
  negb (String.eqb s "") && all_chars is_digit_char s.

(** "Numeric" header values: non-empty strings of ASCII decimal digits. *)
Definition is_decimal (s : string) : bool :=
  negb (String.eqb s "") && all_chars is_ascii_digit s.

Fixpoint digits_value (acc : Z) (s : string) : Z :=
  match s with
  | EmptyString => acc
  | String c s' => digits_value (10 * acc + Z.of_nat (code c - 48)) s'
  end.

(** [sys.get_int_max_str_digits()] of Python 3.11 and later. *)
Definition int_max_str_digits : nat := 4300.

(** [int(s)] for a string that passed [isdigit]: the decimal value, or
    [None] for the [ValueError] that a superscript digit raises and that a
    string of more than [int_max_str_digits] digits raises (leading zeros
    count). *)
Definition parse_int (s : string) : option Z :=
  if is_decimal s && (String.length s <=? int_max_str_digits)%nat
  then Some (digits_value 0 s) else None.

(** *** Suffix tests used to state the filter's contract *)

Fixpoint ends_with (suffix s : string) : bool :=
  String.eqb suffix s ||
  match s with
  | EmptyString => false
  | String _ s' => ends_with suffix s'
  end.

(** Case-insensitive suffix match. *)
Definition ends_with_ci (suffix s : string) : bool :=
  ends_with (lower suffix) (lower s).

(** [os.path.join(a, b)] of [posixpath], for two components. *)
Definition path_join (a b : string) : string :=
  match b with
  | String "/" _ => b
  | _ => if String.eqb a "" || ends_with "/" a then a +:+ b else a +:+ "/" +:+ b
  end.

End Text.

(** ** The world of the script: files, HTTP, output, the work queue *)

Module Sys.
Import Json Text.

Abbreviation bytes := (list Byte.byte).

Inductive http_method : Type := GET | HEAD.

(** [urllib.request.Request]: the only header ever set is [Range], kept as
    the offset [n] of [bytes=n-]. *)
Record request : Type := mkRequest {
  req_method : http_method;
  req_url : string;
  req_range : option Z;
  req_timeout : Z
}.

(** One call of [resp.read(CHUNK_SIZE)]: the bytes it returns, or the
    exception it raises (connection reset, timeout, incomplete read). *)
Inductive read_result : Type :=
| Chunk (data : bytes)
| ReadFails.

(** An open HTTP response: status code, the [Content-Length] header, and what
    the successive reads return; past the end of the list a read returns the
    empty byte string. *)
Record response : Type := mkResponse {
  resp_code : Z;
  resp_content_length : option string;
  resp_body : list read_result
}.

Inductive open_mode : Type := ModeWB | ModeAB.

(** The system calls that may fail. *)
Inductive io_op : Type :=
| OpMakedirs (path : string)
| OpOpenWrite (path : string) (mode : open_mode)
| OpWrite (path : string) (offset : Z) (data : bytes)
| OpReplace (src dst : string)
| OpOpenRead (path : string).

(** What the script cannot control: the server ([None]: [urlopen] raises,
    which covers unreachable hosts, timeouts and HTTP error statuses), the
    system calls that fail, and the digest function of [hashlib]. *)
Record env : Type := mkEnv {
  server : request -> option response;
  io_fails : io_op -> bool;
  sha1_hexdigest : bytes -> string
}.

Inductive exn : Type :=
| ValueError
| TypeError
| AttributeError
| URLError
| OSError
| OverflowError.

(** The lines the script prints; the progress line and the error line of
    [ranged_download] keep their data, not their layout. *)
Inductive log_line : Type :=
| LogSkipNoUrl (filename : string)
| LogAlreadyOk (filename : string)
| LogDownloading (filename outdir : string)
| LogFail (filename : string)
| LogSizeMismatch (filename : string) (got expect : Z)
| LogSha1Mismatch (filename got : string) (sha : json)
| LogSha1Verified (filename : string)
| LogProgress (dest_path : string) (total_downloaded : Z) (expected_size : option Z)
| LogDownloadError (url : json) (e : exn)
| LogThreadDied (e : exn)
| LogNoFiles
| LogFoundFirst (total_found n : nat)
| LogFoundAll (n : nat)
| LogDone.

(** The state: the regular files by path, every state the file system went
    through (oldest first), the HTTP requests sent, the lines written to the
    standard streams, and the [queue.Queue] with its count of unfinished
    tasks. *)
Record world : Type := mkWorld {
  files : gmap string bytes;
  snapshots : list (gmap string bytes);
  requests : list request;
  output : list log_line;
  queue : list (option json);
  unfinished_tasks : nat
}.

Definition initial_world (fs : gmap string bytes) : world :=
  mkWorld fs [] [] [] [] 0.

(** *** A state and exception monad *)

Inductive outcome (A : Type) : Type :=
| Ret (a : A)
| Raise (e : exn).
Arguments Ret {A} a.
Arguments Raise {A} e.

Definition M (A : Type) : Type := world -> outcome A * world.

Definition ret {A} (a : A) : M A := fun w => (Ret a, w).

Definition raise {A} (e : exn) : M A := fun w => (Raise e, w).

Definition bind {A B} (c : M A) (k : A -> M B) : M B :=
  fun w => match c w with
           | (Ret a, w') => k a w'
           | (Raise e, w') => (Raise e, w')
           end.

(** [try: body / except Exception as e: handler]. *)
Definition try_except {A} (body : M A) (handler : exn -> M A) : M A :=
  fun w => match body w with
           | (Ret a, w') => (Ret a, w')
           | (Raise e, w') => handler e w'
           end.

(** [try: body / finally: final]: [final] runs either way and an exception
    of [body] goes on after it. *)
Definition try_finally {A} (body : M A) (final : M unit) : M A :=
  fun w => match body w with
           | (r, w') => match final w' with
                        | (Ret _, w'') => (r, w'')
                        | (Raise e, w'') => (Raise e, w'')
                        end
           end.

Definition lift {A} (o : outcome A) : M A := fun w => (o, w).

Declare Scope py_scope.
Delimit Scope py_scope with py.
Notation "x <- c ;; k" := (bind c (fun x => k))
  (at level 100, c at next level, right associativity) : py_scope.
Notation "c ;; k" := (bind c (fun _ => k))
  (at level 100, right associativity) : py_scope.
Open Scope py_scope.

(** *** Standard streams *)

Definition log_output (l : log_line) (w : world) : world :=
  mkWorld (files w) (snapshots w) (requests w) (output w ++ [l])
          (queue w) (unfinished_tasks w).

Definition print (l : log_line) : M unit := fun w => (Ret tt, log_output l w).

(** *** File system *)

(** Every change of the file system is recorded in [snapshots]. *)
Definition with_files (fs : gmap string bytes) (w : world) : world :=
  mkWorld fs (snapshots w ++ [fs]) (requests w) (output w)
          (queue w) (unfinished_tasks w).

Definition set_files (fs : gmap string bytes) : M unit := fun w => (Ret tt, with_files fs w).

Definition get_files : M (gmap string bytes) := fun w => (Ret (files w), w).

Definition len (data : bytes) : Z := Z.of_nat (length data).

(** [os.path.exists(path)]. *)
Definition path_exists (path : string) : M bool :=
  fs <- get_files ;;
  ret (match fs !! path with Some _ => true | None => false end).

(** [os.path.getsize(path)]. *)
Definition getsize (path : string) : M Z :=
  fs <- get_files ;;
  match fs !! path with
  | Some data => ret (len data)
  | None => raise OSError
  end.

(** [os.makedirs(path, exist_ok=True)]: directories are not tracked, the call
    can only fail. *)
Definition makedirs (E : env) (path : string) : M unit :=
  if io_fails E (OpMakedirs path) then raise OSError else ret tt.

(** [open(path, 'wb')] truncates or creates; [open(path, 'ab')] creates the
    file when it is missing and leaves it alone otherwise. *)
Definition open_write (E : env) (path : string) (mode : open_mode) : M unit :=
  if io_fails E (OpOpenWrite path mode) then raise OSError
  else
    fs <- get_files ;;
    match mode, fs !! path with
    | ModeAB, Some _ => ret tt
    | _, _ => set_files (<[path := []]> fs)
    end.

(** [f.write(chunk)] on a file opened by [open_write]: the data goes to the
    end of the file. *)
Definition write (E : env) (path : string) (chunk : bytes) : M unit :=
  fs <- get_files ;;
  let old := default [] (fs !! path) in
  if io_fails E (OpWrite path (len old) chunk) then raise OSError
  else set_files (<[path := old ++ chunk]> fs).

(** [os.replace(src, dst)]. *)
Definition os_replace (E : env) (src dst : string) : M unit :=
  if io_fails E (OpReplace src dst) then raise OSError
  else
    fs <- get_files ;;
    match fs !! src with
    | Some data => set_files (<[dst := data]> (delete src fs))
    | None => raise OSError
    end.

(** [sha1_of_file(path)]: reads the whole file, chunk by chunk. *)
Definition sha1_of_file (E : env) (path : string) : M string :=
  if io_fails E (OpOpenRead path) then raise OSError
  else
    fs <- get_files ;;
    match fs !! path with
    | Some data => ret (sha1_hexdigest E data)
    | None => raise OSError
    end.

(** *** HTTP *)

(** [Request(url, headers=..., method=...)]: a URL that is not a string
    makes the constructor (or, for some lists and dicts, [urlopen]) raise. *)
Definition Request (url : json) (range : option Z) (timeout : Z) (m : http_method) : M request :=
  match url with
  | JStr u => ret (mkRequest m u range timeout)
  | _ => raise ValueError
  end.

(** [urlopen(req, timeout=timeout)]. *)
Definition log_request (req : request) (w : world) : world :=
  mkWorld (files w) (snapshots w) (requests w ++ [req]) (output w)
          (queue w) (unfinished_tasks w).

Definition urlopen (E : env) (req : request) : M response :=
  fun w =>
    match server E req with
    | Some resp => (Ret resp, log_request req w)
    | None => (Raise URLError, log_request req w)
    end.

(** *** The queue *)

Definition q_put (item : option json) : M unit :=
  fun w => (Ret tt, mkWorld (files w) (snapshots w) (requests w) (output w)
                            (queue w ++ [item]) (S (unfinished_tasks w))).

Definition q_set (items : list (option json)) : M unit :=
  fun w => (Ret tt, mkWorld (files w) (snapshots w) (requests w) (output w)
                            items (unfinished_tasks w)).

Definition q_items : M (list (option json)) := fun w => (Ret (queue w), w).

Definition q_task_done : M unit :=
  fun w => (Ret tt, mkWorld (files w) (snapshots w) (requests w) (output w)
                            (queue w) (Nat.pred (unfinished_tasks w))).

Definition q_unfinished : M nat := fun w => (Ret (unfinished_tasks w), w).

End Sys.

(** ** The downloader *)

Module Download.
Import Json Text Sys.

(** [head_request_length(url, timeout)]. *)
Definition head_request_length (E : env) (url : json) (timeout : Z) : M (option Z) :=
  try_except
    (req <- Request url None timeout HEAD ;;
     resp <- urlopen E req ;;
     match resp_content_length resp with
     | Some length =>
         if isdigit length
         then match parse_int length with
              | Some n => ret (Some n)
              | None => raise ValueError
              end
         else ret None
     | None => ret None
     end)
    (fun _ => ret None).

(** [float(n)] of an [int]: the nearest double, and [OverflowError] when that
    would be 2^1024 or more, which is from 2^1024 - 2^970 on. *)
Definition fits_float (n : Z) : bool := Z.abs n <? 2 ^ 1024 - 2 ^ 970.

(** Lines 126-131, the progress line: [human_bytes] converts the sizes it
    shows with [float].  [total_downloaded] counts bytes that are on the
    disk and is taken to fit; [expected_size] comes from the document or from
    a header, and the conversion raises when it does not fit. *)
Definition write_progress (dest_path : string) (total_downloaded : Z)
    (expected_size : option Z) : M unit :=
  match expected_size with
  | Some n =>
      if negb (n =? 0)
      then if fits_float n
           then print (LogProgress dest_path total_downloaded (Some n))
           else raise OverflowError
      else print (LogProgress dest_path total_downloaded None)
  | None => print (LogProgress dest_path total_downloaded None)
  end.

(** The body of [while True: chunk = resp.read(CHUNK_SIZE) ...] over what the
    reads return; the result is [total_downloaded]. *)
Fixpoint read_loop (E : env) (tmp_path dest_path : string) (expected_size : option Z)
    (body : list read_result) (total_downloaded : Z) : M Z :=
  match body with
  | [] => ret total_downloaded
  | ReadFails :: _ => raise URLError
  | Chunk [] :: _ => ret total_downloaded
  | Chunk chunk :: rest =>
      write E tmp_path chunk ;;
      let total_downloaded := total_downloaded + len chunk in
      write_progress dest_path total_downloaded expected_size ;;
      read_loop E tmp_path dest_path expected_size rest total_downloaded
  end.

Definition code_in_206_200 (code : Z) : bool := (code =? 206) || (code =? 200).

(** [ranged_download(url, dest_path, expected_size, timeout)]. *)
Definition ranged_download (E : env) (url : json) (dest_path : string)
    (expected_size : option Z) (timeout : Z) : M bool :=
  let tmp_path := dest_path +:+ ".part" in
  tmp_exists <- path_exists tmp_path ;;
  existing <- (if tmp_exists then getsize tmp_path else ret 0) ;;
  let headers := if 0 <? existing then Some existing else None in
  try_except
    (req <- Request url headers timeout GET ;;
     resp <- urlopen E req ;;
     let existing :=
       if (0 <? existing) && negb (code_in_206_200 (resp_code resp)) then 0 else existing in
     let mode := if 0 <? existing then ModeAB else ModeWB in
     let total_downloaded := existing in
     expected_size <-
       (match expected_size with
        | None =>
            match resp_content_length resp with
            | Some cl =>
                if negb (String.eqb cl "") && isdigit cl
                then match parse_int cl with
                     | Some n => ret (Some (existing + n))
                     | None => raise ValueError
                     end
                else ret None
            | None => ret None
            end
        | Some n => ret (Some n)
        end) ;;
     open_write E tmp_path mode ;;
     read_loop E tmp_path dest_path expected_size (resp_body resp) total_downloaded ;;
     os_replace E tmp_path dest_path ;;
     ret true)
    (fun e => print (LogDownloadError url e) ;; ret false).

(** [isinstance(v, int)]: a [bool] is an [int] in Python. *)
Definition isinstance_int (v : json) : bool :=
  match v with
  | JInt _ | JBool _ => true
  | _ => false
  end.

(** The value of an [int] in comparisons and sums ([True == 1]). *)
Definition int_value (v : json) : Z :=
  match v with
  | JInt n => n
  | JBool b => if b then 1 else 0
  | _ => 0
  end.

(** [v.lower()] of a field: only a [str] has the method. *)
Definition method_lower (v : json) : M string :=
  match v with
  | JStr s => ret (lower s)
  | _ => raise AttributeError
  end.

(** [sanitize_filename(name)] of a field: [re.sub] wants a [str]. *)
Definition sanitize_field (v : json) : M string :=
  match v with
  | JStr s => ret (sanitize_filename s)
  | _ => raise TypeError
  end.

(** Lines 149-155 of [download_one]: the expected size of the descriptor, or
    what a HEAD request tells. *)
Definition determine_expected_size (E : env) (fields : list (string * json))
    (url : json) (timeout : Z) : M (option Z) :=
  let expected_size := default JNull (dict_get "file_size_bytes" fields) in
  if isinstance_int expected_size then ret (Some (int_value expected_size))
  else head_request_length E url timeout.

(** Lines 160-171 of [download_one]: is the file at [dest_path] accepted as
    it is? *)
Definition already_satisfied (E : env) (fields : list (string * json))
    (dest_path : string) (expected_size : option Z) (verify : bool) : M bool :=
  dest_exists <- path_exists dest_path ;;
  if dest_exists && verify then
    size_ok <- (match expected_size with
                | Some n => size <- getsize dest_path ;; ret (size =? n)
                | None => ret true
                end) ;;
    sha_ok <- (if has_key "sha1sum" fields
                  && truthy (default JNull (dict_get "sha1sum" fields))
               then try_except
                      (got <- sha1_of_file E dest_path ;;
                       want <- method_lower (default JNull (dict_get "sha1sum" fields)) ;;
                       ret (String.eqb (lower got) want))
                      (fun _ => ret false)
               else ret true) ;;
    ret (size_ok && sha_ok)
  else ret false.

(** Lines 181-192 of [download_one]: the checks after a download. *)
Definition verify_download (E : env) (fields : list (string * json))
    (filename dest_path : string) (expected_size : option Z) : M unit :=
  (match expected_size with
   | Some n =>
       size <- getsize dest_path ;;
       if negb (size =? n)
       then got <- getsize dest_path ;; print (LogSizeMismatch filename got n)
       else ret tt
   | None => ret tt
   end) ;;
  let sha := default JNull (dict_get "sha1sum" fields) in
  if truthy sha then
    got <- sha1_of_file E dest_path ;;
    want <- method_lower sha ;;
    if negb (String.eqb (lower got) want)
    then print (LogSha1Mismatch filename got sha)
    else print (LogSha1Verified filename)
  else ret tt.

(** [download_one(entry, outdir, verify, timeout)]. *)
Definition download_one (E : env) (entry : json) (outdir : string)
    (verify : bool) (timeout : Z) : M unit :=
  match entry with
  | JDict fields =>
      filename <- sanitize_field (default (JStr "unknown.vrs") (dict_get "filename" fields)) ;;
      let url := default JNull (dict_get "download_url" fields) in
      if negb (truthy url) then print (LogSkipNoUrl filename)
      else
        expected_size <- determine_expected_size E fields url timeout ;;
        let dest_path := path_join outdir filename in
        makedirs E outdir ;;
        satisfied <- already_satisfied E fields dest_path expected_size verify ;;
        if satisfied then print (LogAlreadyOk filename)
        else
          print (LogDownloading filename outdir) ;;
          ok <- ranged_download E url dest_path expected_size timeout ;;
          if negb ok then print (LogFail filename)
          else if verify then verify_download E fields filename dest_path expected_size
          else ret tt
  | _ => raise AttributeError
  end.

(** *** The worker and the queue *)

(** How the loop of [worker] stops, when no exception ends the thread:
    it took the sentinel [None], or it waits in [q.get()] on an empty queue. *)
Inductive worker_state : Type :=
| WorkerReturned
| WorkerWaiting.

(** [worker(q, outdir, verify, timeout)] as the only consumer of the queue:
    [pending] is what the queue holds when the loop starts. *)
Fixpoint worker_loop (E : env) (pending : list (option json)) (outdir : string)
    (verify : bool) (timeout : Z) : M worker_state :=
  match pending with
  | [] => ret WorkerWaiting
  | item :: rest =>
      q_set rest ;;
      match item with
      | None => ret WorkerReturned
      | Some entry =>
          try_finally (download_one E entry outdir verify timeout) q_task_done ;;
          worker_loop E rest outdir verify timeout
      end
  end.

Definition worker (E : env) (outdir : string) (verify : bool) (timeout : Z) : M worker_state :=
  pending <- q_items ;;
  worker_loop E pending outdir verify timeout.

(** *** [main] *)

Record args : Type := mkArgs {
  outdir : string;
  workers : Z;
  skip_existing : bool;
  no_verify : bool;
  timeout : Z;
  max_files : Z
}.

(** [VRS_REGEX.search(entry.get("filename", ""))]: the filter of lines
    225-226; [re] wants a [str]. *)
Definition fname_matches (entry : json) : outcome bool :=
  match entry with
  | JDict fields =>
      match default (JStr "") (dict_get "filename" fields) with
      | JStr fname => Ret (VRS_REGEX_search fname)
      | _ => Raise TypeError
      end
  | _ => Raise AttributeError
  end.

(** Lines 223-227: the entries that pass the filter, in the order found. *)
Fixpoint filter_entries (found : list json) : outcome (list json) :=
  match found with
  | [] => Ret []
  | entry :: rest =>
      match fname_matches entry with
      | Raise e => Raise e
      | Ret keep =>
          match filter_entries rest with
          | Raise e => Raise e
          | Ret entries => Ret (if keep then entry :: entries else entries)
          end
      end
  end.

Definition candidate_entries (data : json) : outcome (list json) :=
  filter_entries (recursive_find_entries data).

(** Lines 233-239: [entries[:max_files]] when [max_files > 0]. *)
Definition limit_entries (max_files : Z) (entries : list json) : list json :=
  if 0 <? max_files then firstn (Z.to_nat max_files) entries else entries.

(** Line 241. *)
Definition verify_flag (a : args) : bool :=
  negb (no_verify a) && negb (skip_existing a).

Fixpoint put_all (entries : list json) : M unit :=
  match entries with
  | [] => ret tt
  | e :: rest => q_put (Some e) ;; put_all rest
  end.

(** A thread: an exception that leaves its target ends the thread and is
    reported, it does not reach the thread that started it. *)
Definition thread_run {A} (target : M A) : M (option A) :=
  try_except (a <- target ;; ret (Some a))
             (fun e => print (LogThreadDied e) ;; ret None).

Inductive main_state : Type :=
| MainReturned
| MainWaitingInJoin.

(** [main()] after the document is loaded, for one worker thread
    ([max(1, args.workers) = 1]): the thread serves the queue until it waits
    or dies; [q.join()] returns when no task is unfinished, and then the
    sentinel lets a live worker return. *)
Definition main_one_worker (E : env) (a : args) (data : json) : M main_state :=
  entries <- lift (candidate_entries data) ;;
  match entries with
  | [] => print LogNoFiles ;; ret MainReturned
  | _ =>
      let limited := limit_entries (max_files a) entries in
      (if 0 <? max_files a
       then print (LogFoundFirst (length entries) (length limited))
       else print (LogFoundAll (length entries))) ;;
      let verify := verify_flag a in
      put_all limited ;;
      t <- thread_run (worker E (outdir a) verify (timeout a)) ;;
      unfinished <- q_unfinished ;;
      match unfinished with
      | O =>
          q_put None ;;
          (match t with
           | Some _ => thread_run (worker E (outdir a) verify (timeout a)) ;; ret tt
           | None => ret tt
           end) ;;
          print LogDone ;;
          ret MainReturned
      | S _ => ret MainWaitingInJoin
      end
  end.

(** *** Notions used to state the properties *)

(** The bytes that a response delivers, when every read up to the first
    empty one succeeds.  A stream that the server ends early is not told
    from a complete one. *)
Fixpoint body_bytes (body : list read_result) : option bytes :=
  match body with
  | [] => Some []
  | ReadFails :: _ => None
  | Chunk [] :: _ => Some []
  | Chunk chunk :: rest =>
      match body_bytes rest with
      | Some data => Some (chunk ++ data)
      | None => None
      end
  end.

(** The staging path of a destination path. *)
Definition staging (dest_path : string) : string := dest_path +:+ ".part".

(** One change of the file system during a run: bytes go to a staging file,
    or a staging file that ends with all the bytes that a GET response
    delivered before its stream ended is renamed to its destination. *)
Inductive fs_step (E : env) (s s' : gmap string bytes) : Prop :=
| step_staging dest_path data :
    s' = <[staging dest_path := data]> s -> fs_step E s s'
| step_promote dest_path req resp base body :
    req_method req = GET ->
    server E req = Some resp ->
    body_bytes (resp_body resp) = Some body ->
    s !! staging dest_path = Some (base ++ body) ->
    s' = <[dest_path := base ++ body]> (delete (staging dest_path) s) ->
    fs_step E s s'.

(** Consecutive states are related by [step]. *)
Fixpoint chain (step : gmap string bytes -> gmap string bytes -> Prop)
    (s : gmap string bytes) (l : list (gmap string bytes)) : Prop :=
  match l with
  | [] => True
  | s' :: l' => step s s' /\ chain step s' l'
  end.

(** The size test of the pre-check, as the contract words it: an unknown
    size matches. *)
Definition size_matches (expected_size : option Z) (data : bytes) : bool :=
  match expected_size with
  | Some n => len data =? n
  | None => true
  end.

(** A checksum is given when the field is there and is not empty (or
    otherwise false in Python). *)
Definition checksum_given (fields : list (string * json)) : option json :=
  match dict_get "sha1sum" fields with
  | Some v => if truthy v then Some v else None
  | None => None
  end.

(** The checksum test: when a checksum is given, the digest of the file can
    be computed and equals it up to case. *)
Definition checksum_matches (E : env) (fields : list (string * json))
    (dest_path : string) (data : bytes) : bool :=
  match checksum_given fields with
  | Some (JStr sha) =>
      negb (io_fails E (OpOpenRead dest_path))
      && String.eqb (lower (sha1_hexdigest E data)) (lower sha)
  | Some _ => false
  | None => true
  end.


(** [c] takes every world to a world related to it by [R], whether it
    returns or raises. *)
Definition preserves (R : world -> world -> Prop) {A} (c : M A) : Prop :=
  forall w, R w (snd (c w)).

(** The requests sent and the lines printed only accumulate. *)
Definition logs_grow (w w' : world) : Prop :=
  (exists more, requests w' = requests w ++ more)
  /\ (exists more, output w' = output w ++ more).

(** What a HEAD request for [u] tells about the length. *)
Definition head_answer (E : env) (u : string) (timeout : Z) : option Z :=
  match server E (mkRequest HEAD u None timeout) with
  | Some resp =>
      match resp_content_length resp with
      | Some length => parse_int length
      | None => None
      end
  | None => None
  end.

(** During the run from [w] to [w'] the file system went through a chain of
    staging writes and promotions that ends in the files of [w']. *)
Definition traced (E : env) (w w' : world) : Prop :=
  exists new,
    snapshots w' = snapshots w ++ new
    /\ chain (fs_step E) (files w) new
    /\ files w' = List.last new (files w).

(** The staging file when the transfer starts to write: what was there, in
    append mode, and nothing otherwise. *)
Definition staging_base (mode : open_mode) (before : option bytes) : bytes :=
  match mode, before with
  | ModeAB, Some old => old
  | _, _ => []
  end.

(** The offset that [ranged_download] asks for: the size of a staging file
    that is not empty. *)
Definition resume_offset (before : option bytes) : option Z :=
  match before with
  | Some old => if 0 <? len old then Some (len old) else None
  | None => None
  end.

(** The bytes of the old staging file that [ranged_download] keeps in front
    of the body of a response with status [code]. *)
Definition kept_bytes (before : option bytes) (code : Z) : bytes :=
  match before with
  | Some old => if (0 <? len old) && code_in_206_200 code then old else []
  | None => []
  end.

(** A step of the file system seen from a path that is not a staging path:
    the path keeps its content, or it receives the content of its staging
    file, which ends with all the bytes that a GET response delivered before
    its stream ended. *)
Definition dest_step (E : env) (p : string) (s s' : gmap string bytes) : Prop :=
  s' !! p = s !! p
  \/ exists req resp base body,
       req_method req = GET
       /\ server E req = Some resp
       /\ body_bytes (resp_body resp) = Some body
       /\ s !! staging p = Some (base ++ body)
       /\ s' !! p = Some (base ++ body)
       /\ s' !! staging p = None.

(** *** Sizes: what the descriptor declares and what the server announces *)

(** A string of ASCII decimal digits, at least one. *)
Definition is_decimal_string (s : string) : bool :=
  match list_ascii_of_string s with
  | [] => false
  | cs => forallb (fun c => (48 <=? code c)%nat && (code c <=? 57)%nat) cs
  end.

(** The number that decimal digits denote, lowest digit first. *)
Fixpoint positional (digits : list Z) : Z :=
  match digits with
  | [] => 0
  | d :: ds => d + 10 * positional ds
  end.

(** The number that a string of decimal digits denotes. *)
Definition decimal_meaning (s : string) : Z :=
  positional (rev (map (fun c => Z.of_nat (code c) - 48) (list_ascii_of_string s))).

(** The length that a Content-Length header tells: the number it denotes,
    when it is a string of at most 4300 decimal digits. *)
Definition header_value (s : string) : option Z :=
  if is_decimal_string s && (String.length s <=? 4300)%nat
  then Some (decimal_meaning s) else None.

(** The length that the headers of a response declare. *)
Definition declared_length (resp : response) : option Z :=
  match resp_content_length resp with
  | Some s => header_value s
  | None => None
  end.

(** What the answer to a HEAD request for [u] announces. *)
Definition announced_length (E : env) (u : string) (timeout : Z) : option Z :=
  match server E (mkRequest HEAD u None timeout) with
  | Some resp => declared_length resp
  | None => None
  end.

(** The size that a descriptor declares: the value of "file_size_bytes" when
    it is a JSON integer, and also when it is a JSON boolean, which is an
    [int] in Python ([true] is 1, [false] is 0). *)
Definition declared_size (fields : list (string * json)) : option Z :=
  match dict_get "file_size_bytes" fields with
  | Some (JInt n) => Some n
  | Some (JBool b) => Some (if b then 1 else 0)
  | _ => None
  end.

(** The expected size that [download_one] works with: the declared one, and
    failing that the one that a HEAD request announces. *)
Definition known_size (E : env) (fields : list (string * json)) (url : json)
    (timeout : Z) : option Z :=
  match declared_size fields with
  | Some n => Some n
  | None =>
      match url with
      | JStr u => announced_length E u timeout
      | _ => None
      end
  end.

(** The requests that finding the expected size costs. *)
Definition size_probe (fields : list (string * json)) (url : json) (timeout : Z)
    : list request :=
  match declared_size fields, url with
  | None, JStr u => [mkRequest HEAD u None timeout]
  | _, _ => []
  end.

Definition log_requests (reqs : list request) (w : world) : world :=
  mkWorld (files w) (snapshots w) (requests w ++ reqs) (output w)
          (queue w) (unfinished_tasks w).

(** *** When a transfer goes through *)

(** The progress line can show this expected size. *)
Definition can_show (expected_size : option Z) : bool :=
  match expected_size with
  | Some n => (n =? 0) || fits_float n
  | None => true
  end.

(** The expected size that the progress line works with: the one given, or
    the kept bytes plus the Content-Length of the response; [None] when the
    header passes [isdigit] and [int] rejects it. *)
Definition shown_size (expected_size : option Z) (kept : bytes) (resp : response)
    : option (option Z) :=
  match expected_size with
  | Some n => Some (Some n)
  | None =>
      match resp_content_length resp with
      | Some cl =>
          if isdigit cl
          then match header_value cl with
               | Some n => Some (Some (len kept + n))
               | None => None
               end
          else Some None
      | None => Some None
      end
  end.

(** Every read up to the first empty one succeeds, every chunk can be
    written at the offset it goes to, and its progress line can be shown.
    Nothing is asked of the number of bytes. *)
Fixpoint stream_completes (E : env) (tmp_path : string) (offset : Z) (shown : option Z)
    (body : list read_result) : bool :=
  match body with
  | [] => true
  | ReadFails :: _ => false
  | Chunk [] :: _ => true
  | Chunk chunk :: rest =>
      negb (io_fails E (OpWrite tmp_path offset chunk))
      && can_show shown
      && stream_completes E tmp_path (offset + len chunk) shown rest
  end.

(** No step of [ranged_download] fails: the URL is a string, the request is
    answered, the header can be parsed, the staging file can be opened, the
    stream completes, and the rename succeeds. *)
Definition transfer_completes (E : env) (url : json) (dest_path : string)
    (expected_size : option Z) (timeout : Z) (before : option bytes) : bool :=
  match url with
  | JStr u =>
      match server E (mkRequest GET u (resume_offset before) timeout) with
      | Some resp =>
          let kept := kept_bytes before (resp_code resp) in
          match shown_size expected_size kept resp with
          | Some shown =>
              negb (io_fails E (OpOpenWrite (staging dest_path)
                                  (if 0 <? len kept then ModeAB else ModeWB)))
              && stream_completes E (staging dest_path) (len kept) shown (resp_body resp)
              && negb (io_fails E (OpReplace (staging dest_path) dest_path))
          | None => false
          end
      | None => false
      end
  | _ => false
  end.

End Download.

(** ** Inputs of the concrete runs *)

Module Examples.
Import Json Text Sys Download.

Definition data_of (s : string) : bytes := list_byte_of_string s.

(** A digest stand-in for the runs below: the length of the data stands for
    its digest. *)
Definition toy_digest (data : bytes) : string :=
  match length data with
  | 4%nat => "AB12"
  | _ => "ffff"
  end.

(** A server that ignores [Range] and always sends the whole file "ABCD"
    with status 200. *)
Definition full_body_server (req : request) : option response :=
  Some (mkResponse 200 (Some "4") [Chunk (data_of "AB"); Chunk (data_of "CD")]).

Definition plain_env : env := mkEnv full_body_server (fun _ => false) toy_digest.

Definition entry_a : json :=
  JDict [("filename", JStr "a.vrs"); ("download_url", JStr "http://x/a");
         ("file_size_bytes", JInt 4)].

Definition entry_b : json :=
  JDict [("filename", JStr "b.VRS"); ("download_url", JStr "http://x/b");
         ("file_size_bytes", JInt 4)].

(** A descriptor whose "sha1sum" is a number. *)
Definition entry_bad_sha : json :=
  JDict [("filename", JStr "c.vrs"); ("download_url", JStr "http://x/c");
         ("file_size_bytes", JInt 4); ("sha1sum", JInt 123)].

(** A descriptor with a checksum in lower case. *)
Definition fields_sum : list (string * json) :=
  [("filename", JStr "a.vrs"); ("download_url", JStr "http://x/a");
   ("file_size_bytes", JInt 4); ("sha1sum", JStr "ab12")].

(** A descriptor whose size is a string. *)
Definition fields_str_size : list (string * json) :=
  [("filename", JStr "a.vrs"); ("download_url", JStr "http://x/a");
   ("file_size_bytes", JStr "100")].

Definition entry_n (name : string) : json :=
  JDict [("filename", JStr name); ("download_url", JStr ("http://x/" +:+ name));
         ("file_size_bytes", JInt 4)].

Definition five_doc : json :=
  JDict [("sequences",
          JList [entry_n "1.vrs"; entry_n "notes.txt"; entry_n "2.VRS";
                 JDict [("main", entry_n "3.vrs"); ("extra", JList [entry_n "4.Vrs"])];
                 entry_n "5.vrs"])].

Definition five_entries : list json :=
  [entry_n "1.vrs"; entry_n "2.VRS"; entry_n "3.vrs"; entry_n "4.Vrs"; entry_n "5.vrs"].

Definition existing_world : world :=
  initial_world {[ "out/a.vrs" := data_of "abcd" ]}.

Definition default_args : args := mkArgs "out" 1 false false 30 (-1).

Definition skip_existing_args : args := mkArgs "out" 1 true false 30 (-1).

Definition first_two_args : args := mkArgs "out" 1 false false 30 2.

(** A dict that is an entry and holds an entry, next to a list of entries. *)
Definition nested_doc : json :=
  JDict [("filename", JStr "outer.vrs"); ("download_url", JStr "http://x/outer");
         ("parts", JList [entry_n "in1.vrs"; JInt 7; entry_n "in2.vrs"]);
         ("meta", JDict [("filename", JStr "no-url.vrs")])].

End Examples.

(** ** Further notions used to state properties *)

Module Notions.
Import Json Text Sys Download.

(** No system call fails. *)
Definition no_faults (E : env) : Prop := forall op, io_fails E op = false.

(** The bytes that the read loop receives before the stream ends or a read
    fails. *)
Fixpoint body_prefix (body : list read_result) : bytes :=
  match body with
  | Chunk (b :: chunk) :: rest => (b :: chunk) ++ body_prefix rest
  | _ => []
  end.

(** What the progress line of [ranged_download] needs: a Content-Length that
    [int] accepts, when the header is consulted, and an expected size that
    [float] can hold ([human_bytes] converts it). *)
Definition progress_ok (expected_size : option Z) (kept : bytes) (resp : response) : Prop :=
  match expected_size with
  | Some n => Z.abs n < 2 ^ 1023
  | None =>
      match resp_content_length resp with
      | Some cl =>
          isdigit cl = true ->
          exists n, parse_int cl = Some n /\ Z.abs (len kept + n) < 2 ^ 1023
      | None => True
      end
  end.

(** A name without any of the characters that [sanitize_filename] replaces. *)
Definition clean_name (s : string) : bool :=
  all_chars (fun c => negb (is_forbidden c)) s.

(** The filter of [main] as a predicate on found entries: the name is a
    string that [VRS_REGEX] accepts. *)
Definition name_accepted (entry : json) : bool :=
  match entry with
  | JDict fields =>
      match dict_get "filename" fields with
      | Some (JStr fname) => VRS_REGEX_search fname
      | _ => false
      end
  | _ => false
  end.

(** The name of an entry is a string. *)
Definition name_is_string (entry : json) : bool :=
  match entry with
  | JDict fields =>
      match dict_get "filename" fields with
      | Some (JStr _) => true
      | _ => false
      end
  | _ => false
  end.

(** The line with which [download_one] takes up a descriptor: it tells the
    name under which the descriptor is processed. *)
Definition started (l : log_line) : option string :=
  match l with
  | LogSkipNoUrl filename | LogAlreadyOk filename | LogDownloading filename _ =>
      Some filename
  | _ => None
  end.

(** The names of the descriptors that were taken up, in the order of the
    lines printed. *)
Definition processed (out : list log_line) : list string := omap started out.

(** The name under which [download_one] processes an entry. *)
Definition entry_name (entry : json) : string :=
  match entry with
  | JDict fields =>
      match default (JStr "unknown.vrs") (dict_get "filename" fields) with
      | JStr name => sanitize_filename name
      | _ => ""
      end
  | _ => ""
  end.

(** Lines are printed, none of which takes up a descriptor. *)
Definition quiet (w w' : world) : Prop :=
  exists more, output w' = output w ++ more /\ processed more = [].

(** The requests sent are the same. *)
Definition same_requests (w w' : world) : Prop := requests w' = requests w.

(** The queue and its count of unfinished tasks are the same. *)
Definition same_queue (w w' : world) : Prop :=
  queue w' = queue w /\ unfinished_tasks w' = unfinished_tasks w.

(** Files and their history are the same. *)
Definition same_disk (w w' : world) : Prop :=
  files w' = files w /\ snapshots w' = snapshots w.

End Notions.

(** ** Inputs of further concrete runs *)

Module MoreExamples.
Import Json Text Sys Download Examples.

(** A server that honours [Range]: without a range it sends "AB" and then
    the connection breaks; from offset 2 it sends "CD" with status 206. *)
Definition range_server (req : request) : option response :=
  match req_range req with
  | None => Some (mkResponse 200 (Some "4") [Chunk (data_of "AB"); ReadFails])
  | Some 2 => Some (mkResponse 206 (Some "2") [Chunk (data_of "CD")])
  | Some _ => None
  end.

Definition range_env : env := mkEnv range_server (fun _ => false) toy_digest.

(** A server that answers every request with status 203 and the whole file. *)
Definition other_status_server (req : request) : option response :=
  Some (mkResponse 203 None [Chunk (data_of "ABCD")]).

Definition other_status_env : env := mkEnv other_status_server (fun _ => false) toy_digest.

(** A server that is down. *)
Definition down_env : env := mkEnv (fun _ => None) (fun _ => false) toy_digest.

(** A world with two bytes in the staging file of out/a.vrs. *)
Definition partial_world : world :=
  initial_world {[ "out/a.vrs.part" := data_of "AB" ]}.

Definition empty_world : world := initial_world ∅.

(** The fields of a descriptor whose checksum is a number. *)
Definition fields_bad_sha : list (string * json) :=
  [("filename", JStr "c.vrs"); ("download_url", JStr "http://x/c");
   ("file_size_bytes", JInt 4); ("sha1sum", JInt 123)].

(** A descriptor that declares five bytes. *)
Definition fields_five : list (string * json) :=
  [("filename", JStr "a.vrs"); ("download_url", JStr "http://x/a");
   ("file_size_bytes", JInt 5)].

(** A descriptor whose checksum is not the digest of the file. *)
Definition fields_wrong_sum : list (string * json) :=
  [("filename", JStr "a.vrs"); ("download_url", JStr "http://x/a");
   ("file_size_bytes", JInt 4); ("sha1sum", JStr "0000")].

(** Queues as [main] fills them. *)
Definition queued_bad_world : world :=
  mkWorld ∅ [] [] [] [Some entry_bad_sha; Some entry_b] 2.

Definition queued_good_world : world :=
  mkWorld ∅ [] [] [] [Some entry_a; Some entry_b] 2.

(** An entry whose name is a number, and documents around it. *)
Definition bad_name_entry : json :=
  JDict [("filename", JInt 5); ("download_url", JStr "http://x/z")].

Definition bad_name_doc : json := JList [entry_a; bad_name_entry].

Definition txt_doc : json := JList [entry_n "notes.txt"; JInt 1].

(** A descriptor without size and without checksum. *)
Definition fields_no_size : list (string * json) :=
  [("filename", JStr "a.vrs"); ("download_url", JStr "http://x/a")].

(** A descriptor whose size is the JSON value [true]. *)
Definition fields_true_size : list (string * json) :=
  [("filename", JStr "a.vrs"); ("download_url", JStr "http://x/a");
   ("file_size_bytes", JBool true)].

(** A server that announces five bytes in its answer to HEAD and sends the
    four bytes "ABCD" in its answer to GET. *)
Definition head_five_server (req : request) : option response :=
  match req_method req with
  | HEAD => Some (mkResponse 200 (Some "5") [])
  | GET => Some (mkResponse 200 (Some "4") [Chunk (data_of "AB"); Chunk (data_of "CD")])
  end.

Definition head_five_env : env := mkEnv head_five_server (fun _ => false) toy_digest.

(** A server that declares four bytes, sends "AB", and ends the stream. *)
Definition short_response : response :=
  mkResponse 200 (Some "4") [Chunk (data_of "AB")].

Definition short_env : env := mkEnv (fun _ => Some short_response) (fun _ => false) toy_digest.

(** Three eligible entries, the first with a number as checksum. *)
Definition bad_first_doc : json := JList [entry_bad_sha; entry_b; entry_a].

Definition no_verify_args : args := mkArgs "out" 1 false true 30 (-1).

(** A Content-Length of 4301 digits. *)
Definition long_header : string := string_of_list_ascii (repeat "1"%char 4301).

Definition long_header_env : env :=
  mkEnv (fun _ => Some (mkResponse 200 (Some long_header) [])) (fun _ => false) toy_digest.

End MoreExamples.

Import Json Text Sys Download Examples Notions MoreExamples.

(** * Properties *)

(** ** The entry extractor *)

Section ExtractorFacts.

Lemma filter_flat_map {A B} (p : B -> bool) (f : A -> list B) (l : list A) :
  List.filter p (flat_map f l) = flat_map (fun x => List.filter p (f x)) l.
Proof.
  induction l as [|x l IH]; simpl; [reflexivity|].
  rewrite List.filter_app, IH. reflexivity.
Qed.

Lemma flat_map_pointwise {A B} (f g : A -> list B) (l : list A) :
  Forall (fun x => f x = g x) l -> flat_map f l = flat_map g l.
Proof.
  induction 1 as [|x l Hx _ IH]; simpl; [reflexivity|].
  rewrite Hx, IH. reflexivity.
Qed.

(** The generator yields the pre-order list of nodes, filtered. *)
Lemma find_entries_filter (doc : json) :
  recursive_find_entries doc = List.filter looks_like_entry (nodes_preorder doc).
Proof.
  induction doc as [| | | | |items IH|fields IH] using json_nested_ind;
    try reflexivity.
  - cbn [recursive_find_entries nodes_preorder List.filter looks_like_entry].
    rewrite filter_flat_map. apply flat_map_pointwise, IH.
  - cbn [recursive_find_entries nodes_preorder List.filter looks_like_entry].
    rewrite filter_flat_map.
    destruct (has_key "filename" fields && has_key "download_url" fields);
      simpl; [f_equal|];
      apply flat_map_pointwise;
      (eapply List.Forall_impl; [|exact IH]); intros [k v]; simpl; auto.
Qed.

Lemma preorder_self (doc : json) : In doc (nodes_preorder doc).
Proof. destruct doc; simpl; auto. Qed.

Lemma preorder_child (n c doc : json) :
  child c doc -> In n (nodes_preorder c) -> In n (nodes_preorder doc).
Proof.
  intros Hc Hn. destruct Hc as [c items Hin | c k fields Hin]; simpl; right;
    apply in_flat_map.
  - exists c. split; assumption.
  - exists (k, c). split; assumption.
Qed.

Lemma preorder_complete (n doc : json) :
  node_of n doc -> In n (nodes_preorder doc).
Proof.
  induction 1 as [doc | n c doc Hc _ IH].
  - apply preorder_self.
  - eapply preorder_child; eassumption.
Qed.

Lemma preorder_sound (doc : json) :
  forall x, In x (nodes_preorder doc) -> node_of x doc.
Proof.
  induction doc as [| | | | |items IH|fields IH] using json_nested_ind;
    intros x Hx; simpl in Hx;
    try (destruct Hx as [<- | []]; apply node_here).
  - destruct Hx as [<- | Hx]; [apply node_here|].
    apply in_flat_map in Hx as (c & Hc & Hx).
    rewrite List.Forall_forall in IH.
    eapply node_below; [apply child_item; exact Hc | apply IH; assumption].
  - destruct Hx as [<- | Hx]; [apply node_here|].
    apply in_flat_map in Hx as ([k c] & Hc & Hx).
    rewrite List.Forall_forall in IH.
    eapply node_below; [eapply child_value; exact Hc | apply (IH _ Hc); assumption].
Qed.

(** C2: for every document, [recursive_find_entries] yields exactly the dict
    nodes that hold both a "filename" and a "download_url" key: its result is
    the depth-first, left-to-right list of all nodes of the document,
    restricted to such dicts (so the order is that of the traversal and the
    result is a function of the input); a node is yielded if and only if it
    sits at some depth of the document and holds both keys, whatever else it
    holds; and a matching node below a yielded node is yielded as well. *)
Theorem recursive_find_entries_exact (doc : json) :
  recursive_find_entries doc = List.filter looks_like_entry (nodes_preorder doc)
  /\ (forall n, In n (recursive_find_entries doc)
                <-> node_of n doc /\ exists fields, n = JDict fields
                      /\ has_key "filename" fields = true
                      /\ has_key "download_url" fields = true)
  /\ (forall outer inner,
        In outer (recursive_find_entries doc) ->
        In inner (recursive_find_entries outer) ->
        In inner (recursive_find_entries doc)).
Proof.
  assert (Hiff : forall d n, In n (recursive_find_entries d)
                <-> node_of n d /\ exists fields, n = JDict fields
                      /\ has_key "filename" fields = true
                      /\ has_key "download_url" fields = true).
  { intros d n. rewrite find_entries_filter, List.filter_In. split.
    - intros [Hn He]. split; [apply preorder_sound; exact Hn|].
      destruct n; try discriminate He. simpl in He.
      apply andb_prop in He as [H1 H2]. eauto.
    - intros [Hn (fields & -> & H1 & H2)]. split; [apply preorder_complete; exact Hn|].
      simpl. rewrite H1, H2. reflexivity. }
  split; [apply find_entries_filter|]. split; [apply Hiff|].
  intros outer inner Ho Hi.
  apply Hiff in Ho as [Ho _]. apply Hiff in Hi as [Hi Hk].
  apply Hiff. split; [|exact Hk].
  clear Hk. induction Ho as [doc | n c doc Hc _ IH]; [exact Hi|].
  eapply node_below; [exact Hc | apply IH; exact Hi].
Qed.

Example nested_entries_found :
  recursive_find_entries nested_doc = [nested_doc; entry_n "in1.vrs"; entry_n "in2.vrs"].
Proof. reflexivity. Qed.

End ExtractorFacts.

(** ** The filename filter *)

Section FilterFacts.

Lemma lower_char_newline (c : ascii) :
  Ascii.eqb (lower_char c) newline = Ascii.eqb c newline.
Proof. destruct c as [[] [] [] [] [] [] [] []]; reflexivity. Qed.

Lemma lower_char_idem (c : ascii) : lower_char (lower_char c) = lower_char c.
Proof. destruct c as [[] [] [] [] [] [] [] []]; reflexivity. Qed.

(** A pattern of literals closed by [$] matches at a position exactly when
    the rest of the string is the literals, up to case, with at most one
    newline after them. *)
Lemma append_nil_l (s : string) : "" +:+ s = s.
Proof. reflexivity. Qed.

Lemma append_cons (c : ascii) (a b : string) : String c a +:+ b = String c (a +:+ b).
Proof. reflexivity. Qed.

Lemma match_here_literals (cs s : string) :
  match_here true (map PLit (list_ascii_of_string cs) ++ [PEnd]) s
  = String.eqb (lower cs) (lower s)
    || String.eqb (lower cs +:+ String newline "") (lower s).
Proof.
  revert s. induction cs as [|c cs IH]; intros s.
  - destruct s as [|d [|e s]]; cbn; rewrite ?append_nil_l; cbn; try reflexivity.
    + rewrite (Ascii.eqb_sym newline), lower_char_newline.
      destruct (Ascii.eqb d newline); reflexivity.
    + destruct (Ascii.eqb newline (lower_char d)); reflexivity.
  - destruct s as [|d s]; [reflexivity|].
    cbn [list_ascii_of_string map app match_here lower].
    rewrite IH, append_cons. cbn [String.eqb].
    destruct (Ascii.eqb (lower_char c) (lower_char d)); reflexivity.
Qed.

Lemma lower_append (a b : string) : lower (a +:+ b) = lower a +:+ lower b.
Proof.
  induction a as [|c a IH]; [reflexivity|].
  rewrite append_cons. cbn [lower]. rewrite IH, append_cons. reflexivity.
Qed.

(** What [VRS_REGEX.search] accepts: the names that end with ".vrs" up to
    case, and those that end with ".vrs" followed by one newline. *)
Lemma VRS_REGEX_search_spec (fname : string) :
  VRS_REGEX_search fname
  = ends_with_ci ".vrs" fname || ends_with_ci (".vrs" +:+ String newline "") fname.
Proof.
  unfold VRS_REGEX_search, ends_with_ci.
  change VRS_PATTERN with (map PLit (list_ascii_of_string ".vrs") ++ [PEnd]).
  change (lower ".vrs") with ".vrs".
  change (lower (".vrs" +:+ String newline "")) with (".vrs" +:+ String newline "").
  induction fname as [|c fname IH].
  - reflexivity.
  - cbn [re_search]. rewrite IH, match_here_literals.
    change (lower ".vrs") with ".vrs".
    cbn [lower ends_with].
    set (a := String.eqb ".vrs" (String (lower_char c) (lower fname))).
    set (b := String.eqb (".vrs" +:+ String newline "") (String (lower_char c) (lower fname))).
    destruct a, b, (ends_with ".vrs" (lower fname)),
      (ends_with (".vrs" +:+ String newline "") (lower fname)); reflexivity.
Qed.

(** Every name that ends with ".vrs" up to case passes the filter. *)
Lemma suffix_passes_filter (fname : string) :
  ends_with_ci ".vrs" fname = true -> VRS_REGEX_search fname = true.
Proof. intros H. rewrite VRS_REGEX_search_spec, H. reflexivity. Qed.

(** An entry without a "filename" key does not pass the filter. *)
Lemma no_filename_fails_filter (fields : list (string * json)) :
  dict_get "filename" fields = None -> fname_matches (JDict fields) = Ret false.
Proof. intros H. unfold fname_matches. rewrite H. reflexivity. Qed.

Example vrs_names_pass :
  VRS_REGEX_search "X.VRS" = true /\ VRS_REGEX_search "x.vrs" = true
  /\ VRS_REGEX_search "x.Vrs" = true /\ VRS_REGEX_search "x.vrs.txt" = false.
Proof. repeat split; reflexivity. Qed.

(** C8, at the input where the code leaves it: the name "a.vrs" followed by a
    newline does not end with ".vrs", with or without regard to case, and yet
    the filter of [main] keeps its entry, because the anchor [$] of
    [VRS_REGEX] also matches just before a final newline. *)
Theorem filter_keeps_name_with_final_newline :
  let fname := "a.vrs" +:+ String newline "" in
  let entry := JDict [("filename", JStr fname); ("download_url", JStr "http://x/a")] in
  ends_with_ci ".vrs" fname = false
  /\ fname_matches entry = Ret true
  /\ candidate_entries (JList [entry]) = Ret [entry].
Proof. repeat split; reflexivity. Qed.

End FilterFacts.

(** ** What every computation of the script preserves *)

Section Preserves.
Variable R : world -> world -> Prop.
Hypothesis R_refl : forall w, R w w.
Hypothesis R_trans : forall w1 w2 w3, R w1 w2 -> R w2 w3 -> R w1 w3.

Lemma preserves_ret {A} (a : A) : preserves R (ret a).
Proof. intros w. apply R_refl. Qed.

Lemma preserves_raise {A} (e : exn) : preserves R (@raise A e).
Proof. intros w. apply R_refl. Qed.

Lemma preserves_lift {A} (o : outcome A) : preserves R (lift o).
Proof. intros w. apply R_refl. Qed.

Lemma preserves_bind {A B} (c : M A) (k : A -> M B) :
  preserves R c -> (forall a, preserves R (k a)) -> preserves R (bind c k).
Proof.
  intros Hc Hk w. unfold bind. specialize (Hc w).
  destruct (c w) as [[a|e] w1]; simpl in *; [|exact Hc].
  eapply R_trans; [exact Hc | apply Hk].
Qed.

Lemma preserves_try_except {A} (body : M A) (handler : exn -> M A) :
  preserves R body -> (forall e, preserves R (handler e)) ->
  preserves R (try_except body handler).
Proof.
  intros Hb Hh w. unfold try_except. specialize (Hb w).
  destruct (body w) as [[a|e] w1]; simpl in *; [exact Hb|].
  eapply R_trans; [exact Hb | apply Hh].
Qed.

Lemma preserves_try_finally {A} (body : M A) (final : M unit) :
  preserves R body -> preserves R final -> preserves R (try_finally body final).
Proof.
  intros Hb Hf w. unfold try_finally. specialize (Hb w).
  destruct (body w) as [r w1]; simpl in *. specialize (Hf w1).
  destruct (final w1) as [[u|e] w2]; simpl in *;
    eapply R_trans; eassumption.
Qed.

(** A computation that only reads the world. *)
Lemma preserves_reader {A} (f : world -> outcome A) :
  preserves R (fun w => (f w, w)).
Proof. intros w. apply R_refl. Qed.
End Preserves.

(** Goes through the structure of a computation; what is left are its
    primitive steps. *)
Ltac preserves_structure refl trans :=
  repeat match goal with
    | |- preserves _ (ret _) => apply (preserves_ret _ refl)
    | |- preserves _ (raise _) => apply (preserves_raise _ refl)
    | |- preserves _ (lift _) => apply (preserves_lift _ refl)
    | |- preserves _ (bind _ _) => apply (preserves_bind _ trans); [|intros ?]
    | |- preserves _ (try_except _ _) => apply (preserves_try_except _ trans); [|intros ?]
    | |- preserves _ (try_finally _ _) => apply (preserves_try_finally _ trans)
    | |- preserves _ (if ?b then _ else _) => destruct b
    | |- preserves _ (match ?x with _ => _ end) => destruct x
    | |- preserves _ (let _ := _ in _) => cbv zeta
    end.

(** ** The requests sent and the lines printed only accumulate *)

Section LogsGrow.



Lemma logs_grow_refl w : logs_grow w w.
Proof. split; exists []; symmetry; apply app_nil_r. Qed.

Lemma logs_grow_trans w1 w2 w3 :
  logs_grow w1 w2 -> logs_grow w2 w3 -> logs_grow w1 w3.
Proof.
  intros [[m1 H1] [o1 G1]] [[m2 H2] [o2 G2]]. split.
  - exists (m1 ++ m2). rewrite H2, H1. symmetry. apply app_assoc.
  - exists (o1 ++ o2). rewrite G2, G1. symmetry. apply app_assoc.
Qed.

Lemma logs_grow_same w w' :
  requests w' = requests w -> output w' = output w -> logs_grow w w'.
Proof.
  intros Hr Ho. unfold logs_grow. rewrite Hr, Ho.
  split; exists []; symmetry; apply app_nil_r.
Qed.

Lemma grow_urlopen E req : preserves logs_grow (urlopen E req).
Proof.
  intros w. unfold urlopen.
  destruct (server E req); (split; [exists [req] | exists []; symmetry; apply app_nil_r]);
    reflexivity.
Qed.

Lemma grow_print l : preserves logs_grow (print l).
Proof.
  intros w. split; [exists []; symmetry; apply app_nil_r | exists [l]; reflexivity].
Qed.

Lemma grow_set_files fs : preserves logs_grow (set_files fs).
Proof. intros w. apply logs_grow_same; reflexivity. Qed.

Lemma grow_get_files : preserves logs_grow get_files.
Proof. intros w. apply logs_grow_refl. Qed.

Lemma grow_q_set items : preserves logs_grow (q_set items).
Proof. intros w. apply logs_grow_same; reflexivity. Qed.

Lemma grow_q_put item : preserves logs_grow (q_put item).
Proof. intros w. apply logs_grow_same; reflexivity. Qed.

Lemma grow_q_task_done : preserves logs_grow q_task_done.
Proof. intros w. apply logs_grow_same; reflexivity. Qed.

Lemma grow_q_items : preserves logs_grow q_items.
Proof. intros w. apply logs_grow_refl. Qed.

Lemma grow_q_unfinished : preserves logs_grow q_unfinished.
Proof. intros w. apply logs_grow_refl. Qed.

Create HintDb grow discriminated.
#[local] Hint Resolve grow_urlopen grow_print grow_set_files grow_get_files
  grow_q_set grow_q_put grow_q_task_done grow_q_items grow_q_unfinished : grow.

Ltac grow :=
  preserves_structure logs_grow_refl logs_grow_trans; auto with grow.

Lemma grow_head_request_length E url timeout :
  preserves logs_grow (head_request_length E url timeout).
Proof. unfold head_request_length, Request. grow. Qed.

Lemma grow_write E path chunk : preserves logs_grow (write E path chunk).
Proof. unfold write. grow. Qed.

Lemma grow_read_loop E tmp_path dest_path expected_size body :
  forall total, preserves logs_grow (read_loop E tmp_path dest_path expected_size body total).
Proof.
  induction body as [|[[|b chunk]|] rest IH]; intros total; cbn [read_loop].
  - grow.
  - grow.
  - apply (preserves_bind _ logs_grow_trans); [apply grow_write|intros _].
    apply (preserves_bind _ logs_grow_trans); [unfold write_progress; grow|intros _].
    apply IH.
  - grow.
Qed.

Lemma grow_ranged_download E url dest_path expected_size timeout :
  preserves logs_grow (ranged_download E url dest_path expected_size timeout).
Proof.
  unfold ranged_download, path_exists, getsize, Request, open_write, os_replace.
  grow; apply grow_read_loop.
Qed.

Lemma grow_sha1_of_file E path : preserves logs_grow (sha1_of_file E path).
Proof. unfold sha1_of_file. grow. Qed.

Lemma grow_already_satisfied E fields dest_path expected_size verify :
  preserves logs_grow (already_satisfied E fields dest_path expected_size verify).
Proof.
  unfold already_satisfied, path_exists, getsize, method_lower.
  grow; apply grow_sha1_of_file.
Qed.

Lemma grow_verify_download E fields filename dest_path expected_size :
  preserves logs_grow (verify_download E fields filename dest_path expected_size).
Proof.
  unfold verify_download, getsize, method_lower.
  grow; apply grow_sha1_of_file.
Qed.

#[local] Hint Resolve grow_head_request_length grow_ranged_download
  grow_already_satisfied grow_verify_download grow_sha1_of_file : grow.

End LogsGrow.

(** ** The expected size and the HEAD request *)

Section HeadFacts.

Lemma all_chars_impl (p q : ascii -> bool) (s : string) :
  (forall c, p c = true -> q c = true) -> all_chars p s = true -> all_chars q s = true.
Proof.
  intros Hpq. induction s as [|c s IH]; simpl; [reflexivity|].
  intros H. apply andb_prop in H as [Hc Hs].
  rewrite (Hpq c Hc), (IH Hs). reflexivity.
Qed.

Lemma is_decimal_isdigit (s : string) : is_decimal s = true -> isdigit s = true.
Proof.
  unfold is_decimal, isdigit. intros H. apply andb_prop in H as [Hne Hall].
  rewrite Hne. simpl. revert Hall. apply all_chars_impl.
  intros c Hc. unfold is_digit_char. rewrite Hc. reflexivity.
Qed.



Lemma head_request_length_str (E : env) (u : string) (timeout : Z) (w : world) :
  head_request_length E (JStr u) timeout w
  = (Ret (head_answer E u timeout), log_request (mkRequest HEAD u None timeout) w).
Proof.
  unfold head_request_length, head_answer, try_except, bind, Request, ret, urlopen.
  destruct (server E _) as [resp|]; [|reflexivity].
  destruct (resp_content_length resp) as [s|]; [|reflexivity].
  destruct (isdigit s) eqn:Hd.
  - destruct (parse_int s); reflexivity.
  - unfold parse_int. destruct (is_decimal s) eqn:Hdec; [|reflexivity].
    apply is_decimal_isdigit in Hdec. congruence.
Qed.

(** [int] and the number that the digits denote. *)
Lemma all_chars_forallb (p : ascii -> bool) (s : string) :
  all_chars p s = forallb p (list_ascii_of_string s).
Proof. induction s as [|c s IH]; [reflexivity|]. cbn. rewrite IH. reflexivity. Qed.

Lemma is_decimal_is_decimal_string (s : string) : is_decimal s = is_decimal_string s.
Proof.
  unfold is_decimal, is_decimal_string. rewrite all_chars_forallb.
  destruct s as [|c s]; reflexivity.
Qed.

Lemma length_chars (s : string) : length (list_ascii_of_string s) = String.length s.
Proof. induction s as [|c s IH]; [reflexivity|]. cbn. rewrite IH. reflexivity. Qed.

Lemma positional_app (l1 l2 : list Z) :
  positional (l1 ++ l2) = positional l1 + 10 ^ Z.of_nat (length l1) * positional l2.
Proof.
  induction l1 as [|d l1 IH]; [cbn; lia|].
  cbn [app positional length]. rewrite IH, Nat2Z.inj_succ, Z.pow_succ_r by lia. lia.
Qed.

Lemma digits_value_meaning (s : string) (acc : Z) :
  all_chars is_ascii_digit s = true ->
  digits_value acc s = acc * 10 ^ Z.of_nat (String.length s) + decimal_meaning s.
Proof.
  revert acc. induction s as [|c s IH]; intros acc Hall.
  - cbn. lia.
  - cbn [all_chars] in Hall. apply andb_prop in Hall as [Hc Hs].
    cbn [digits_value String.length]. rewrite (IH _ Hs).
    unfold decimal_meaning. cbn [list_ascii_of_string map rev].
    rewrite positional_app, length_rev, length_map, length_chars.
    cbn [positional]. rewrite Nat2Z.inj_succ, Z.pow_succ_r by lia.
    unfold is_ascii_digit in Hc. apply andb_prop in Hc as [Hlo _].
    apply Nat.leb_le in Hlo. rewrite Nat2Z.inj_sub by exact Hlo. lia.
Qed.

Lemma parse_int_header_value (s : string) : parse_int s = header_value s.
Proof.
  unfold parse_int, header_value. rewrite <- is_decimal_is_decimal_string.
  destruct (is_decimal s) eqn:Hdec; [|reflexivity].
  destruct (_ <=? _)%nat; [|reflexivity]. cbn [andb].
  unfold is_decimal in Hdec. apply andb_prop in Hdec as [_ Hall].
  rewrite (digits_value_meaning s 0 Hall). f_equal; lia.
Qed.

Lemma head_answer_announced (E : env) (u : string) (timeout : Z) :
  head_answer E u timeout = announced_length E u timeout.
Proof.
  unfold head_answer, announced_length, declared_length.
  destruct (server E _) as [resp|]; [|reflexivity].
  destruct (resp_content_length resp); [apply parse_int_header_value|reflexivity].
Qed.

Lemma head_request_length_other (E : env) (url : json) (timeout : Z) (w : world) :
  (forall u, url <> JStr u) -> head_request_length E url timeout w = (Ret None, w).
Proof. intros H. destruct url; try reflexivity. destruct (H s). reflexivity. Qed.

Lemma string_eqb_empty (u : string) : u <> "" -> String.eqb u "" = false.
Proof. intros H. apply String.eqb_neq. exact H. Qed.

Lemma determine_expected_size_eval (E : env) (fields : list (string * json))
    (url : json) (timeout : Z) (w : world) :
  determine_expected_size E fields url timeout w
  = (Ret (known_size E fields url timeout), log_requests (size_probe fields url timeout) w).
Proof.
  assert (Hw : log_requests [] w = w).
  { unfold log_requests. rewrite app_nil_r. destruct w; reflexivity. }
  unfold determine_expected_size, known_size, size_probe, declared_size.
  destruct (dict_get "file_size_bytes" fields) as [[| | | | | |]|]; cbn [default isinstance_int];
    unfold id; cbn [isinstance_int int_value];
    try (rewrite Hw; reflexivity);
    (destruct url as [| | | |u| |];
     [rewrite Hw; reflexivity ..
     | rewrite head_request_length_str, head_answer_announced; reflexivity
     | rewrite Hw; reflexivity | rewrite Hw; reflexivity]).
Qed.



End HeadFacts.

(** ** The cap on the number of files *)

Section SelectionFacts.

(** [put_all] appends the entries to the queue, in order. *)
Lemma put_all_queue (entries : list json) (w : world) :
  fst (put_all entries w) = Ret tt
  /\ queue (snd (put_all entries w)) = queue w ++ map Some entries
  /\ unfinished_tasks (snd (put_all entries w)) = (unfinished_tasks w + length entries)%nat
  /\ files (snd (put_all entries w)) = files w.
Proof.
  revert w. induction entries as [|e entries IH]; intros w.
  - simpl. rewrite app_nil_r. repeat split. lia.
  - cbn [put_all]. unfold bind, q_put. cbn beta iota.
    destruct (IH (mkWorld (files w) (snapshots w) (requests w) (output w)
                          (queue w ++ [Some e]) (S (unfinished_tasks w))))
      as (H1 & H2 & H3 & H4).
    repeat split; [exact H1 | | | exact H4].
    + rewrite H2. simpl. rewrite <- app_assoc. reflexivity.
    + rewrite H3. simpl. lia.
Qed.

(** C9, at the input where the code leaves it: three eligible entries, the
    first with a number as "sha1sum", and [--max-files 2].  The first two
    entries are put on the queue and the third is not; the worker downloads
    the first, dies in the check of its checksum, and the second entry is
    never processed: no request goes out for it, it stays in the queue, and
    [main] waits in [q.join()]. *)
Theorem max_files_run_stops_at_dead_worker :
  let r := main_one_worker plain_env first_two_args bad_first_doc empty_world in
  candidate_entries bad_first_doc = Ret [entry_bad_sha; entry_b; entry_a]
  /\ limit_entries (max_files first_two_args) [entry_bad_sha; entry_b; entry_a]
     = [entry_bad_sha; entry_b]
  /\ fst r = Ret MainWaitingInJoin
  /\ processed (output (snd r)) = ["c.vrs"]
  /\ requests (snd r) = [mkRequest GET "http://x/c" None 30]
  /\ queue (snd r) = [Some entry_b]
  /\ unfinished_tasks (snd r) = 1%nat
  /\ files (snd r) !! "out/c.vrs" = Some (data_of "ABCD")
  /\ files (snd r) !! "out/b.VRS" = None
  /\ output (snd r) = [LogFoundFirst 3 2; LogDownloading "c.vrs" "out";
                       LogProgress "out/c.vrs" 2 (Some 4);
                       LogProgress "out/c.vrs" 4 (Some 4);
                       LogThreadDied AttributeError].
Proof. cbv zeta. repeat split; reflexivity. Qed.

(** Five eligible entries and [--max-files 2]: requests go out for the
    first two only, and only their files appear. *)
Example max_files_two_of_five :
  let r := main_one_worker plain_env first_two_args five_doc (initial_world ∅) in
  fst r = Ret MainReturned
  /\ requests (snd r) = [mkRequest GET "http://x/1.vrs" None 30;
                         mkRequest GET "http://x/2.VRS" None 30]
  /\ map fst (map_to_list (files (snd r))) ≡ₚ ["out/1.vrs"; "out/2.VRS"].
Proof.
  cbv zeta. repeat split; reflexivity.
Qed.

End SelectionFacts.

(** ** The file system changes by staging writes and promotions only *)

Section TraceFacts.

Lemma staging_neq (dest_path : string) : staging dest_path <> dest_path.
Proof.
  unfold staging. induction dest_path as [|c s IH].
  - discriminate.
  - rewrite append_cons. intros H. injection H as H. exact (IH H).
Qed.

Lemma last_cons {A} (x d : A) (l : list A) : List.last (x :: l) d = List.last l x.
Proof.
  revert x d. induction l as [|y l IH]; intros x d; [reflexivity|].
  change (List.last (x :: y :: l) d) with (List.last (y :: l) d).
  rewrite (IH y d), (IH y x). reflexivity.
Qed.

Lemma last_app {A} (l1 l2 : list A) (d : A) :
  List.last (l1 ++ l2) d = List.last l2 (List.last l1 d).
Proof.
  revert d. induction l1 as [|x l1 IH]; intros d; [reflexivity|].
  rewrite <- app_comm_cons, !last_cons. apply IH.
Qed.

Lemma chain_app step s l1 l2 :
  chain step s (l1 ++ l2) <-> chain step s l1 /\ chain step (List.last l1 s) l2.
Proof.
  revert s. induction l1 as [|x l1 IH]; intros s.
  - simpl. tauto.
  - rewrite <- app_comm_cons, last_cons. cbn [chain]. rewrite IH. tauto.
Qed.

Lemma chain_impl (step step' : gmap string bytes -> gmap string bytes -> Prop) s l :
  (forall a b, step a b -> step' a b) -> chain step s l -> chain step' s l.
Proof.
  intros Himpl. revert s. induction l as [|x l IH]; intros s; [trivial|].
  intros [H1 H2]. split; [apply Himpl, H1 | apply IH, H2].
Qed.



Lemma traced_refl E w : traced E w w.
Proof. exists []. rewrite app_nil_r. repeat split. Qed.

Lemma traced_trans E w1 w2 w3 : traced E w1 w2 -> traced E w2 w3 -> traced E w1 w3.
Proof.
  intros (n1 & Hs1 & Hc1 & Hf1) (n2 & Hs2 & Hc2 & Hf2).
  exists (n1 ++ n2). repeat split.
  - rewrite Hs2, Hs1. symmetry. apply app_assoc.
  - apply chain_app. split; [exact Hc1|]. rewrite <- Hf1. exact Hc2.
  - rewrite last_app, <- Hf1. exact Hf2.
Qed.

(** A step that leaves files and snapshots alone. *)
Lemma traced_same_disk E w w' :
  files w' = files w -> snapshots w' = snapshots w -> traced E w w'.
Proof. intros Hf Hs. exists []. rewrite app_nil_r. repeat split; assumption. Qed.

(** How the primitive steps evaluate. *)
Lemma bind_eval {A B} (c : M A) (k : A -> M B) (w : world) :
  bind c k w = match c w with
               | (Ret a, w') => k a w'
               | (Raise e, w') => (Raise e, w')
               end.
Proof. reflexivity. Qed.

Lemma try_except_eval {A} (body : M A) (handler : exn -> M A) (w : world) :
  try_except body handler w = match body w with
                              | (Ret a, w') => (Ret a, w')
                              | (Raise e, w') => handler e w'
                              end.
Proof. reflexivity. Qed.

Lemma path_exists_eval (path : string) (w : world) :
  path_exists path w
  = (Ret (match files w !! path with Some _ => true | None => false end), w).
Proof. reflexivity. Qed.

Lemma getsize_eval (path : string) (w : world) :
  getsize path w = match files w !! path with
                   | Some data => (Ret (len data), w)
                   | None => (Raise OSError, w)
                   end.
Proof. unfold getsize, bind, get_files. destruct (files w !! path); reflexivity. Qed.

Lemma write_eval (E : env) (path : string) (chunk : bytes) (w : world) :
  write E path chunk w
  = let old := default [] (files w !! path) in
    if io_fails E (OpWrite path (len old) chunk) then (Raise OSError, w)
    else (Ret tt, with_files (<[path := old ++ chunk]> (files w)) w).
Proof. unfold write, bind, get_files. cbv zeta. destruct (io_fails E _); reflexivity. Qed.

Lemma open_write_eval (E : env) (path : string) (mode : open_mode) (w : world) :
  open_write E path mode w
  = if io_fails E (OpOpenWrite path mode) then (Raise OSError, w)
    else match mode, files w !! path with
         | ModeAB, Some _ => (Ret tt, w)
         | _, _ => (Ret tt, with_files (<[path := []]> (files w)) w)
         end.
Proof.
  unfold open_write, bind, get_files. destruct (io_fails E _); [reflexivity|].
  destruct mode, (files w !! path); reflexivity.
Qed.

Lemma os_replace_eval (E : env) (src dst : string) (w : world) :
  os_replace E src dst w
  = if io_fails E (OpReplace src dst) then (Raise OSError, w)
    else match files w !! src with
         | Some data => (Ret tt, with_files (<[dst := data]> (delete src (files w))) w)
         | None => (Raise OSError, w)
         end.
Proof.
  unfold os_replace, bind, get_files. destruct (io_fails E _); [reflexivity|].
  destruct (files w !! src); reflexivity.
Qed.

Lemma sha1_of_file_eval (E : env) (path : string) (w : world) :
  sha1_of_file E path w
  = if io_fails E (OpOpenRead path) then (Raise OSError, w)
    else match files w !! path with
         | Some data => (Ret (sha1_hexdigest E data), w)
         | None => (Raise OSError, w)
         end.
Proof.
  unfold sha1_of_file, bind, get_files. destruct (io_fails E _); [reflexivity|].
  destruct (files w !! path); reflexivity.
Qed.

Lemma write_progress_eval dest_path total expected_size w :
  write_progress dest_path total expected_size w
  = if can_show expected_size
    then (Ret tt,
          log_output
            (LogProgress dest_path total
               (match expected_size with
                | Some n => if n =? 0 then None else Some n
                | None => None
                end)) w)
    else (Raise OverflowError, w).
Proof.
  unfold write_progress, can_show. destruct expected_size as [n|]; [|reflexivity].
  destruct (n =? 0); [reflexivity|]. cbn [negb orb]. destruct (fits_float n); reflexivity.
Qed.

Lemma read_loop_chunk_eval E tmp_path dest_path expected_size b chunk rest total w old :
  files w !! tmp_path = Some old ->
  read_loop E tmp_path dest_path expected_size (Chunk (b :: chunk) :: rest) total w
  = if io_fails E (OpWrite tmp_path (len old) (b :: chunk)) then (Raise OSError, w)
    else if can_show expected_size
         then read_loop E tmp_path dest_path expected_size rest (total + len (b :: chunk))
                (log_output
                   (LogProgress dest_path (total + len (b :: chunk))
                      (match expected_size with
                       | Some n => if n =? 0 then None else Some n
                       | None => None
                       end))
                   (with_files (<[tmp_path := old ++ b :: chunk]> (files w)) w))
         else (Raise OverflowError,
               with_files (<[tmp_path := old ++ b :: chunk]> (files w)) w).
Proof.
  intros Hold. cbn [read_loop]. rewrite bind_eval, write_eval, Hold. cbn [default].
  unfold id. cbv zeta.
  destruct (io_fails E _); [reflexivity|].
  rewrite bind_eval, write_progress_eval.
  destruct (can_show expected_size); reflexivity.
Qed.

(** What the read loop does to the staging file: it appends what it reads,
    and when it returns it has appended the whole body. *)
Lemma read_loop_spec E dest_path expected_size body :
  forall total w old,
    files w !! staging dest_path = Some old ->
    exists new written,
      let r := read_loop E (staging dest_path) dest_path expected_size body total w in
      snapshots (snd r) = snapshots w ++ new
      /\ chain (fun s s' => exists data, s' = <[staging dest_path := data]> s) (files w) new
      /\ files (snd r) = List.last new (files w)
      /\ files (snd r) = <[staging dest_path := old ++ written]> (files w)
      /\ requests (snd r) = requests w
      /\ (forall t, fst r = Ret t -> body_bytes body = Some written).
Proof.
  induction body as [|[chunk|] rest IH]; intros total w old Hold.
  - exists [], []. cbn. rewrite !app_nil_r, insert_id by exact Hold. repeat split.
  - destruct chunk as [|b chunk].
    + exists [], []. cbn. rewrite !app_nil_r, insert_id by exact Hold. repeat split.
    + rewrite (read_loop_chunk_eval _ _ _ _ _ _ _ _ _ _ Hold).
      destruct (io_fails E _).
      { exists [], []. cbn. rewrite !app_nil_r, insert_id by exact Hold.
        repeat split. intros t Ht. discriminate Ht. }
      destruct (can_show expected_size).
      2:{ exists [<[staging dest_path := old ++ b :: chunk]> (files w)], (b :: chunk).
          cbn. repeat split.
          - eexists. reflexivity.
          - intros t Ht. discriminate Ht. }
      * match goal with
        | |- context [read_loop _ _ _ _ _ ?t ?w1] =>
            destruct (IH t w1 (old ++ b :: chunk))
              as (new & written & H1 & H2 & H3 & H4 & H5 & H6);
            [cbn; apply lookup_insert_eq|];
            set (r := read_loop E (staging dest_path) dest_path expected_size rest t w1) in *
        end.
        cbn in H1, H2, H3, H4, H5.
        exists (<[staging dest_path := old ++ b :: chunk]> (files w) :: new),
               (b :: chunk ++ written).
        cbv zeta. rewrite H1, H4, H5. repeat split.
        -- rewrite <- app_assoc. reflexivity.
        -- exists (old ++ b :: chunk). reflexivity.
        -- exact H2.
        -- rewrite last_cons, <- H3, H4. reflexivity.
        -- rewrite insert_insert_eq, <- app_assoc. reflexivity.
        -- intros t Ht. cbn [body_bytes]. rewrite (H6 t Ht). reflexivity.
  - exists [], []. cbn. rewrite !app_nil_r, insert_id by exact Hold.
    repeat split. intros t Ht. discriminate Ht.
Qed.

Lemma traced_staging_write E w dest_path data :
  traced E w (with_files (<[staging dest_path := data]> (files w)) w).
Proof.
  exists [<[staging dest_path := data]> (files w)]. repeat split.
  eapply step_staging. reflexivity.
Qed.



(** Lines 118-137 of [ranged_download], for an open response [resp]: open
    the staging file, copy the body, rename. *)
Lemma store_and_promote_spec E dest_path mode expected_size total req resp w :
  req_method req = GET ->
  server E req = Some resp ->
  let r := (open_write E (staging dest_path) mode ;;
            read_loop E (staging dest_path) dest_path expected_size (resp_body resp) total ;;
            os_replace E (staging dest_path) dest_path ;;
            ret true) w in
  traced E w (snd r)
  /\ requests (snd r) = requests w
  /\ (forall p, p <> dest_path -> p <> staging dest_path ->
        files (snd r) !! p = files w !! p)
  /\ match fst r with
     | Ret ok =>
         ok = true
         /\ exists body,
              body_bytes (resp_body resp) = Some body
              /\ files (snd r) !! dest_path
                 = Some (staging_base mode (files w !! staging dest_path) ++ body)
              /\ files (snd r) !! staging dest_path = None
              /\ exists older,
                   snapshots (snd r) = snapshots w ++ older ++ [files (snd r)]
                   /\ List.last older (files w) !! staging dest_path
                      = Some (staging_base mode (files w !! staging dest_path) ++ body)
                   /\ files (snd r)
                      = <[dest_path := staging_base mode (files w !! staging dest_path) ++ body]>
                          (delete (staging dest_path) (List.last older (files w)))
     | Raise _ =>
         files (snd r) !! dest_path = files w !! dest_path
         /\ (is_Some (files w !! staging dest_path) ->
             is_Some (files (snd r) !! staging dest_path))
     end.
Proof.
  intros Hget Hresp.
  pose proof (staging_neq dest_path) as Hneq.
  set (tmp := staging dest_path) in *.
  set (base := staging_base mode (files w !! tmp)).
  rewrite bind_eval, open_write_eval.
  destruct (io_fails E (OpOpenWrite tmp mode)).
  { cbn. repeat split; auto using traced_refl. }
  assert (Hopen : exists w2,
    match mode, files w !! tmp with
    | ModeAB, Some _ => (Ret tt, w)
    | _, _ => (Ret tt, with_files (<[tmp := []]> (files w)) w)
    end = (Ret tt, w2)
    /\ traced E w w2 /\ requests w2 = requests w
    /\ files w2 = <[tmp := base]> (files w)).
  { unfold base. destruct mode, (files w !! tmp) as [old|] eqn:Hold; cbn;
      eexists; (split; [reflexivity|]); repeat split;
      try apply traced_staging_write; try apply traced_refl.
    symmetry. apply insert_id. exact Hold. }
  destruct Hopen as (w2 & -> & Htr2 & Hreq2 & Hf2).
  assert (Hbase2 : files w2 !! tmp = Some base) by (rewrite Hf2; apply lookup_insert_eq).
  rewrite bind_eval.
  destruct (read_loop_spec E dest_path expected_size (resp_body resp) total w2 base Hbase2)
    as (new & written & Hs3 & Hc3 & Hl3 & Hf3 & Hreq3 & Hbody).
  fold tmp in Hs3, Hc3, Hl3, Hf3, Hreq3, Hbody. cbv zeta in Hs3, Hc3, Hl3, Hf3, Hreq3, Hbody.
  destruct (read_loop E tmp dest_path expected_size (resp_body resp) total w2)
    as [[t|e] w3]; cbn [fst snd] in *.
  2:{ assert (Htr3 : traced E w w3).
      { eapply traced_trans; [exact Htr2|]. exists new. repeat split; try assumption.
        eapply chain_impl; [|exact Hc3]. intros a b [data ->].
        eapply step_staging. reflexivity. }
      repeat split; try assumption.
      - congruence.
      - intros p Hp1 Hp2. rewrite Hf3, lookup_insert_ne, Hf2, lookup_insert_ne by congruence.
        reflexivity.
      - rewrite Hf3, lookup_insert_ne, Hf2, lookup_insert_ne by congruence. reflexivity.
      - intros _. rewrite Hf3, lookup_insert_eq. eauto. }
  assert (Htr3 : traced E w w3).
  { eapply traced_trans; [exact Htr2|]. exists new. repeat split; try assumption.
    eapply chain_impl; [|exact Hc3]. intros a b [data ->].
    eapply step_staging. reflexivity. }
  assert (Htmp3 : files w3 !! tmp = Some (base ++ written))
    by (rewrite Hf3; apply lookup_insert_eq).
  rewrite bind_eval, os_replace_eval.
  destruct (io_fails E (OpReplace tmp dest_path)).
  { cbn [fst snd]. repeat split; try assumption.
    - congruence.
    - intros p Hp1 Hp2. rewrite Hf3, lookup_insert_ne, Hf2, lookup_insert_ne by congruence.
      reflexivity.
    - rewrite Hf3, lookup_insert_ne, Hf2, lookup_insert_ne by congruence. reflexivity.
    - intros _. rewrite Htmp3. eauto. }
  rewrite Htmp3. cbn [fst snd bind ret with_files files requests].
  specialize (Hbody t eq_refl).
  repeat split.
  - eapply traced_trans; [exact Htr3|].
    exists [<[dest_path := base ++ written]> (delete tmp (files w3))]. repeat split.
    eapply (step_promote E _ _ dest_path req resp base written);
      [exact Hget | exact Hresp | exact Hbody | exact Htmp3 | reflexivity].
  - congruence.
  - intros p Hp1 Hp2.
    rewrite lookup_insert_ne, lookup_delete_ne, Hf3, lookup_insert_ne, Hf2,
      lookup_insert_ne by congruence.
    reflexivity.
  - exists written. split; [exact Hbody|]. split; [apply lookup_insert_eq|].
    split; [rewrite lookup_insert_ne by congruence; apply lookup_delete_eq|].
    destruct Htr3 as (new3 & Hsn3 & _ & Hlast3). exists new3.
    rewrite <- Hlast3. cbn [with_files snapshots]. rewrite Hsn3, <- app_assoc.
    repeat split. exact Htmp3.
Qed.



(** [ranged_download] always returns a boolean.  When it returns [True] the
    destination holds the kept bytes followed by the whole body of the
    response and the staging file is gone; when it returns [False] the
    destination is as before and a staging file that was there is still
    there.  No other file changes. *)
Lemma ranged_download_spec E url dest_path expected_size timeout w :
  let r := ranged_download E url dest_path expected_size timeout w in
  let before := files w !! staging dest_path in
  exists ok,
    fst r = Ret ok
    /\ traced E w (snd r)
    /\ (forall p, p <> dest_path -> p <> staging dest_path ->
          files (snd r) !! p = files w !! p)
    /\ if ok
       then exists u resp body,
              url = JStr u
              /\ server E (mkRequest GET u (resume_offset before) timeout) = Some resp
              /\ body_bytes (resp_body resp) = Some body
              /\ files (snd r) !! dest_path
                 = Some (kept_bytes before (resp_code resp) ++ body)
              /\ files (snd r) !! staging dest_path = None
              /\ exists older,
                   snapshots (snd r) = snapshots w ++ older ++ [files (snd r)]
                   /\ List.last older (files w) !! staging dest_path
                      = Some (kept_bytes before (resp_code resp) ++ body)
                   /\ files (snd r)
                      = <[dest_path := kept_bytes before (resp_code resp) ++ body]>
                          (delete (staging dest_path) (List.last older (files w)))
       else files (snd r) !! dest_path = files w !! dest_path
            /\ (is_Some before -> is_Some (files (snd r) !! staging dest_path)).
Proof.
  cbv zeta. unfold ranged_download. fold (staging dest_path).
  set (tmp := staging dest_path).
  rewrite bind_eval, path_exists_eval. cbn beta iota.
  rewrite bind_eval.
  set (existing := match files w !! tmp with Some old => len old | None => 0 end).
  assert (Hex : (if match files w !! tmp with Some _ => true | None => false end
                 then getsize tmp else ret 0) w = (Ret existing, w)).
  { unfold existing. destruct (files w !! tmp) eqn:Htmp; [|reflexivity].
    rewrite getsize_eval, Htmp. reflexivity. }
  rewrite Hex. cbn beta iota.
  assert (Hoff : (if 0 <? existing then Some existing else None)
                 = resume_offset (files w !! tmp)).
  { unfold existing, resume_offset. destruct (files w !! tmp); reflexivity. }
  rewrite Hoff. rewrite try_except_eval.
  assert (Hfail : forall e w1, traced E w w1 ->
            (forall p, p <> dest_path -> p <> tmp -> files w1 !! p = files w !! p) ->
            files w1 !! dest_path = files w !! dest_path ->
            (is_Some (files w !! tmp) -> is_Some (files w1 !! tmp)) ->
            let r := (print (LogDownloadError url e) ;; ret false) w1 in
            exists ok, fst r = Ret ok /\ traced E w (snd r)
              /\ (forall p, p <> dest_path -> p <> tmp -> files (snd r) !! p = files w !! p)
              /\ if ok then False
                 else files (snd r) !! dest_path = files w !! dest_path
                      /\ (is_Some (files w !! tmp) -> is_Some (files (snd r) !! tmp))).
  { intros e w1 Htr Hframe Hdest Htmp. exists false. cbn.
    split; [reflexivity|]. split; [|auto].
    destruct Htr as (new & H1 & H2 & H3). exists new. cbn. auto. }
  assert (Hweaken : forall r : outcome bool * world,
    (exists ok, fst r = Ret ok /\ traced E w (snd r)
       /\ (forall p, p <> dest_path -> p <> tmp -> files (snd r) !! p = files w !! p)
       /\ if ok then False
          else files (snd r) !! dest_path = files w !! dest_path
               /\ (is_Some (files w !! tmp) -> is_Some (files (snd r) !! tmp))) ->
    exists ok, fst r = Ret ok /\ traced E w (snd r)
       /\ (forall p, p <> dest_path -> p <> tmp -> files (snd r) !! p = files w !! p)
       /\ if ok
          then exists u resp body,
                 url = JStr u
                 /\ server E (mkRequest GET u (resume_offset (files w !! tmp)) timeout) = Some resp
                 /\ body_bytes (resp_body resp) = Some body
                 /\ files (snd r) !! dest_path
                    = Some (kept_bytes (files w !! tmp) (resp_code resp) ++ body)
                 /\ files (snd r) !! tmp = None
                 /\ exists older,
                      snapshots (snd r) = snapshots w ++ older ++ [files (snd r)]
                      /\ List.last older (files w) !! tmp
                         = Some (kept_bytes (files w !! tmp) (resp_code resp) ++ body)
                      /\ files (snd r)
                         = <[dest_path := kept_bytes (files w !! tmp) (resp_code resp) ++ body]>
                             (delete tmp (List.last older (files w)))
          else files (snd r) !! dest_path = files w !! dest_path
               /\ (is_Some (files w !! tmp) -> is_Some (files (snd r) !! tmp))).
  { intros r (ok & H1 & H2 & H3 & H4). exists ok. destruct ok; [destruct H4|]. auto. }
  destruct url as [| | | |u| |];
    try (rewrite bind_eval; cbn [Request raise]; apply Hweaken, Hfail;
         auto using traced_refl).
  rewrite bind_eval. cbn [Request ret]. rewrite bind_eval. unfold urlopen.
  set (req := mkRequest GET u (resume_offset (files w !! tmp)) timeout).
  destruct (server E req) as [resp|] eqn:Hsrv.
  2:{ apply Hweaken, Hfail; auto. apply traced_same_disk; reflexivity. }
  set (w1 := log_request req w).
  set (existing' := if (0 <? existing) && negb (code_in_206_200 (resp_code resp))
                    then 0 else existing).
  cbv zeta. fold existing'. rewrite bind_eval.
  match goal with
  | |- context [match ?c w1 with _ => _ end] =>
      assert (Hsize : (exists x, c w1 = (Ret x, w1)) \/ c w1 = (Raise ValueError, w1))
  end.
  { destruct expected_size as [n|]; [left; eexists; reflexivity|].
    destruct (resp_content_length resp) as [cl|]; [|left; eexists; reflexivity].
    destruct (negb (String.eqb cl "") && isdigit cl); [|left; eexists; reflexivity].
    destruct (parse_int cl); [left; eexists; reflexivity | right; reflexivity]. }
  destruct Hsize as [[x ->] | ->].
  2:{ apply Hweaken, Hfail; auto. apply traced_same_disk; reflexivity. }
  pose proof (store_and_promote_spec E dest_path
                (if 0 <? existing' then ModeAB else ModeWB) x existing' req resp w1
                eq_refl Hsrv) as Hstore.
  fold tmp in Hstore. cbv zeta in Hstore.
  match type of Hstore with
  | context [snd (?c w1)] => destruct (c w1) as [[ok|e] w2]
  end; cbn [fst snd] in Hstore; destruct Hstore as (Htr & Hreq & Hframe & Hres).
  - destruct Hres as (-> & body & Hbody & Hdest & Htmp & older & Hsn & Hprev & Hfin).
    assert (Hkept : staging_base (if 0 <? existing' then ModeAB else ModeWB)
                      (files w1 !! tmp)
                    = kept_bytes (files w !! tmp) (resp_code resp)).
    { unfold kept_bytes, staging_base, existing', existing. cbn [w1 log_request files].
      destruct (files w !! tmp) as [old|]; [|destruct (0 <? _); reflexivity].
      destruct (0 <? len old) eqn:Hpos; cbn [andb].
      * destruct (code_in_206_200 (resp_code resp)); cbn [negb]; [rewrite Hpos|]; reflexivity.
      * rewrite Hpos. reflexivity. }
    rewrite Hkept in Hdest, Hprev, Hfin.
    exists true. cbn [fst snd]. repeat split.
    + eapply traced_trans; [|exact Htr]. apply traced_same_disk; reflexivity.
    + exact Hframe.
    + exists u, resp, body. repeat split; try assumption.
      exists older. repeat split; assumption.
  - apply Hweaken, Hfail.
    + eapply traced_trans; [|exact Htr]. apply traced_same_disk; reflexivity.
    + exact Hframe.
    + apply Hres.
    + apply Hres.
Qed.

(** With status 200 and a staging file that is not empty, the bytes of the
    staging file stay in front of the body. *)
Lemma status_200_keeps_partial_bytes (old : bytes) :
  old <> [] -> kept_bytes (Some old) 200 = old.
Proof.
  intros Hold. unfold kept_bytes.
  assert (H : (0 <? len old) = true).
  { apply Z.ltb_lt. unfold len. destruct old; [congruence|]. cbn [length]. lia. }
  rewrite H. reflexivity.
Qed.

Lemma fits_float_bound (n : Z) : Z.abs n < 2 ^ 1023 -> fits_float n = true.
Proof.
  intros H. unfold fits_float. apply Z.ltb_lt.
  assert (Hle : 2 ^ 1023 <= 2 ^ 1024 - 2 ^ 970) by (vm_compute; discriminate).
  eapply Z.lt_le_trans; eassumption.
Qed.

Lemma can_show_bound (n : Z) : Z.abs n < 2 ^ 1023 -> can_show (Some n) = true.
Proof. intros H. cbn [can_show]. rewrite (fits_float_bound n H). apply orb_true_r. Qed.

(** The offset that [ranged_download] goes on with is the number of the
    bytes it keeps. *)
Lemma existing_is_len_kept (before : option bytes) (code : Z) :
  (if (0 <? match before with Some old => len old | None => 0 end)
      && negb (code_in_206_200 code)
   then 0 else match before with Some old => len old | None => 0 end)
  = len (kept_bytes before code).
Proof.
  unfold kept_bytes. destruct before as [old|]; [|reflexivity].
  destruct (0 <? len old) eqn:Hpos; cbn [andb].
  - destruct (code_in_206_200 code); reflexivity.
  - apply Z.ltb_ge in Hpos. unfold len in *. cbn. lia.
Qed.

(** *** Every computation of the script is traced *)

Lemma tr_same {A} E (c : M A) :
  (forall w, files (snd (c w)) = files w /\ snapshots (snd (c w)) = snapshots w) ->
  preserves (traced E) c.
Proof. intros H w. destruct (H w). apply traced_same_disk; assumption. Qed.

Lemma tr_get_files E : preserves (traced E) get_files.
Proof. apply tr_same. intros w. split; reflexivity. Qed.

Lemma tr_print E l : preserves (traced E) (print l).
Proof. apply tr_same. intros w. split; reflexivity. Qed.

Lemma tr_urlopen E req : preserves (traced E) (urlopen E req).
Proof. apply tr_same. intros w. unfold urlopen. destruct (server E req); split; reflexivity. Qed.

Lemma tr_q_set E items : preserves (traced E) (q_set items).
Proof. apply tr_same. intros w. split; reflexivity. Qed.

Lemma tr_q_put E item : preserves (traced E) (q_put item).
Proof. apply tr_same. intros w. split; reflexivity. Qed.

Lemma tr_q_task_done E : preserves (traced E) q_task_done.
Proof. apply tr_same. intros w. split; reflexivity. Qed.

Lemma tr_q_items E : preserves (traced E) q_items.
Proof. apply tr_same. intros w. split; reflexivity. Qed.

Lemma tr_q_unfinished E : preserves (traced E) q_unfinished.
Proof. apply tr_same. intros w. split; reflexivity. Qed.

Lemma tr_ranged_download E url dest_path expected_size timeout :
  preserves (traced E) (ranged_download E url dest_path expected_size timeout).
Proof.
  intros w.
  destruct (ranged_download_spec E url dest_path expected_size timeout w)
    as (ok & _ & Htr & _).
  exact Htr.
Qed.

Create HintDb traced discriminated.
#[local] Hint Resolve tr_get_files tr_print tr_urlopen tr_q_set tr_q_put
  tr_q_task_done tr_q_items tr_q_unfinished tr_ranged_download : traced.

Ltac traced_tac E :=
  preserves_structure (traced_refl E) (traced_trans E); auto with traced.

Lemma tr_head_request_length E url timeout :
  preserves (traced E) (head_request_length E url timeout).
Proof. unfold head_request_length, Request. traced_tac E. Qed.

Lemma tr_sha1_of_file E path : preserves (traced E) (sha1_of_file E path).
Proof. unfold sha1_of_file. traced_tac E. Qed.

Lemma tr_already_satisfied E fields dest_path expected_size verify :
  preserves (traced E) (already_satisfied E fields dest_path expected_size verify).
Proof.
  unfold already_satisfied, path_exists, getsize, method_lower.
  traced_tac E; apply tr_sha1_of_file.
Qed.

Lemma tr_verify_download E fields filename dest_path expected_size :
  preserves (traced E) (verify_download E fields filename dest_path expected_size).
Proof.
  unfold verify_download, getsize, method_lower.
  traced_tac E; apply tr_sha1_of_file.
Qed.

Lemma tr_download_one E entry outdir verify timeout :
  preserves (traced E) (download_one E entry outdir verify timeout).
Proof.
  unfold download_one, sanitize_field, determine_expected_size, makedirs.
  traced_tac E;
    auto using tr_head_request_length, tr_already_satisfied, tr_verify_download.
Qed.

Lemma tr_worker_loop E outdir verify timeout pending :
  preserves (traced E) (worker_loop E pending outdir verify timeout).
Proof.
  induction pending as [|[entry|] rest IH]; cbn [worker_loop].
  - traced_tac E.
  - apply (preserves_bind _ (traced_trans E)); [apply tr_q_set|intros _].
    apply (preserves_bind _ (traced_trans E)); [|intros _; exact IH].
    apply (preserves_try_finally _ (traced_trans E));
      [apply tr_download_one | apply tr_q_task_done].
  - traced_tac E.
Qed.

Lemma tr_worker E outdir verify timeout :
  preserves (traced E) (worker E outdir verify timeout).
Proof.
  unfold worker. apply (preserves_bind _ (traced_trans E)); [apply tr_q_items|].
  intros pending. apply tr_worker_loop.
Qed.

Lemma tr_put_all E entries : preserves (traced E) (put_all entries).
Proof.
  induction entries as [|e rest IH]; cbn [put_all]; [traced_tac E|].
  apply (preserves_bind _ (traced_trans E)); [apply tr_q_put|intros _; exact IH].
Qed.

Lemma tr_main_one_worker E a data :
  preserves (traced E) (main_one_worker E a data).
Proof.
  unfold main_one_worker, thread_run.
  traced_tac E; auto using tr_put_all, tr_worker.
Qed.



Lemma fs_step_dest E p s s' :
  (forall d, p <> staging d) -> fs_step E s s' -> dest_step E p s s'.
Proof.
  intros Hp [d data -> | d req resp base body Hget Hsrv Hbody Hstage ->].
  - left. apply lookup_insert_ne. auto.
  - destruct (decide (p = d)) as [->|Hne].
    + right. exists req, resp, base, body. repeat split; try assumption.
      * apply lookup_insert_eq.
      * rewrite lookup_insert_ne by (apply not_eq_sym, staging_neq).
        apply lookup_delete_eq.
    + left. rewrite lookup_insert_ne, lookup_delete_ne by auto. reflexivity.
Qed.

(** From a traced run to what a destination path sees. *)
Lemma traced_dest E w w' :
  traced E w w' ->
  exists new,
    snapshots w' = snapshots w ++ new
    /\ files w' = List.last new (files w)
    /\ chain (fs_step E) (files w) new
    /\ (forall p, (forall d, p <> staging d) -> chain (dest_step E p) (files w) new).
Proof.
  intros (new & Hs & Hc & Hl). exists new. repeat split; try assumption.
  intros p Hp. eapply chain_impl; [|exact Hc].
  intros s s'. apply fs_step_dest. exact Hp.
Qed.

Lemma len_app (a b : bytes) : len (a ++ b) = len a + len b.
Proof. unfold len. rewrite length_app. lia. Qed.

Lemma len_nil_inv (data : bytes) : (0 <? len data) = false -> data = [].
Proof.
  intros H. apply Z.ltb_ge in H. destruct data; [reflexivity|].
  unfold len in H. cbn [length] in H. lia.
Qed.

(** The read loop returns exactly when the stream completes. *)
Lemma read_loop_result E dest_path shown body :
  forall total w old,
    files w !! staging dest_path = Some old ->
    match fst (read_loop E (staging dest_path) dest_path shown body total w) with
    | Ret _ => true
    | Raise _ => false
    end = stream_completes E (staging dest_path) (len old) shown body.
Proof.
  induction body as [|[[|b chunk]|] rest IH]; intros total w old Hold; try reflexivity.
  rewrite (read_loop_chunk_eval _ _ _ _ _ _ _ _ _ _ Hold). cbn [stream_completes].
  destruct (io_fails E _); [reflexivity|].
  destruct (can_show shown); [|reflexivity]. cbn [negb andb].
  rewrite <- len_app. apply IH. cbn. apply lookup_insert_eq.
Qed.

Lemma kept_bytes_pos (before : option bytes) (code : Z) :
  (0 <? len (kept_bytes before code)) = true -> before = Some (kept_bytes before code).
Proof.
  unfold kept_bytes. destruct before as [old|]; [|discriminate].
  destruct ((0 <? len old) && code_in_206_200 code); [reflexivity|discriminate].
Qed.

Lemma isdigit_not_empty (cl : string) : negb (String.eqb cl "") && isdigit cl = isdigit cl.
Proof. unfold isdigit. destruct (String.eqb cl ""); reflexivity. Qed.

(** [ranged_download] returns [True] exactly when the transfer completes. *)
Lemma ranged_download_result E url dest_path expected_size timeout w :
  fst (ranged_download E url dest_path expected_size timeout w)
  = Ret (transfer_completes E url dest_path expected_size timeout
           (files w !! staging dest_path)).
Proof.
  unfold ranged_download, transfer_completes. fold (staging dest_path).
  set (tmp := staging dest_path).
  rewrite bind_eval, path_exists_eval. cbn beta iota.
  rewrite bind_eval.
  set (existing := match files w !! tmp with Some old => len old | None => 0 end).
  assert (Hex : (if match files w !! tmp with Some _ => true | None => false end
                 then getsize tmp else ret 0) w = (Ret existing, w)).
  { unfold existing. destruct (files w !! tmp) eqn:Htmp; [|reflexivity].
    rewrite getsize_eval, Htmp. reflexivity. }
  rewrite Hex. cbn beta iota.
  assert (Hoff : (if 0 <? existing then Some existing else None)
                 = resume_offset (files w !! tmp)).
  { unfold existing, resume_offset. destruct (files w !! tmp); reflexivity. }
  rewrite Hoff. rewrite try_except_eval.
  destruct url as [| | | |u| |]; try reflexivity.
  rewrite bind_eval. cbn [Request ret]. rewrite bind_eval. unfold urlopen.
  set (req := mkRequest GET u (resume_offset (files w !! tmp)) timeout).
  destruct (server E req) as [resp|] eqn:Hsrv; [|reflexivity].
  set (w1 := log_request req w).
  set (kept := kept_bytes (files w !! tmp) (resp_code resp)).
  cbv zeta.
  assert (Hlen : (if (0 <? existing) && negb (code_in_206_200 (resp_code resp))
                  then 0 else existing) = len kept)
    by apply existing_is_len_kept.
  rewrite Hlen. rewrite bind_eval.
  match goal with
  | |- context [match ?c w1 with _ => _ end] =>
      assert (Hsize : c w1 = match shown_size expected_size kept resp with
                             | Some x => (Ret x, w1)
                             | None => (Raise ValueError, w1)
                             end)
  end.
  { unfold shown_size. destruct expected_size as [n|]; [reflexivity|].
    destruct (resp_content_length resp) as [cl|]; [|reflexivity].
    rewrite isdigit_not_empty, parse_int_header_value.
    destruct (isdigit cl); [|reflexivity].
    destruct (header_value cl); reflexivity. }
  rewrite Hsize. destruct (shown_size expected_size kept resp) as [shown|]; [|reflexivity].
  rewrite bind_eval, open_write_eval.
  destruct (io_fails E (OpOpenWrite tmp _)); [reflexivity|]. cbn [negb andb].
  assert (Hopen : exists w2,
    match (if 0 <? len kept then ModeAB else ModeWB), files w1 !! tmp with
    | ModeAB, Some _ => (Ret tt, w1)
    | _, _ => (Ret tt, with_files (<[tmp := []]> (files w1)) w1)
    end = (Ret tt, w2) /\ files w2 !! tmp = Some kept).
  { destruct (0 <? len kept) eqn:Hpos.
    - pose proof (kept_bytes_pos _ _ Hpos) as Hold. fold kept in Hold.
      change (files w1 !! tmp) with (files w !! tmp). rewrite Hold.
      exists w1. split; [reflexivity|]. exact Hold.
    - rewrite (len_nil_inv kept Hpos).
      eexists. split; [reflexivity|]. cbn. apply lookup_insert_eq. }
  destruct Hopen as (w2 & -> & Hk2).
  rewrite bind_eval.
  pose proof (read_loop_result E dest_path shown (resp_body resp) (len kept) w2 kept Hk2)
    as Hres.
  destruct (read_loop_spec E dest_path shown (resp_body resp) (len kept) w2 kept Hk2)
    as (new & written & _ & _ & _ & Hf3 & _ & _).
  fold tmp in Hres, Hf3. cbv zeta in Hf3.
  destruct (read_loop E tmp dest_path shown (resp_body resp) (len kept) w2) as [[t|e] w3];
    cbn [fst snd] in *; rewrite <- Hres; [|reflexivity].
  rewrite bind_eval, os_replace_eval.
  destruct (io_fails E (OpReplace tmp dest_path)); [reflexivity|].
  rewrite Hf3, lookup_insert_eq. reflexivity.
Qed.

(** What the read loop leaves in the staging file, however it ends: the bytes
    that were there and, after them, the first of the bytes received. *)
Lemma read_loop_written E dest_path shown body :
  forall total w old,
    files w !! staging dest_path = Some old ->
    exists written rest,
      body_prefix body = written ++ rest
      /\ files (snd (read_loop E (staging dest_path) dest_path shown body total w))
         = <[staging dest_path := old ++ written]> (files w).
Proof.
  induction body as [|[[|b chunk]|] rest IH]; intros total w old Hold;
    try (exists [], []; cbn; rewrite app_nil_r, insert_id by exact Hold; split; reflexivity).
  rewrite (read_loop_chunk_eval _ _ _ _ _ _ _ _ _ _ Hold). cbn [body_prefix].
  destruct (io_fails E _).
  { exists [], ((b :: chunk) ++ body_prefix rest). cbn [snd app].
    rewrite app_nil_r, insert_id by exact Hold. split; reflexivity. }
  destruct (can_show shown).
  2:{ exists (b :: chunk), (body_prefix rest). split; reflexivity. }
  match goal with
  | |- context [read_loop _ _ _ _ _ ?t ?w1] =>
      destruct (IH t w1 (old ++ b :: chunk)) as (written & rest' & Hpre & Hf);
      [cbn; apply lookup_insert_eq|]
  end.
  exists ((b :: chunk) ++ written), rest'. split.
  - rewrite Hpre. apply app_assoc.
  - rewrite Hf. cbn [log_output with_files files].
    rewrite insert_insert_eq, <- app_assoc. reflexivity.
Qed.

(** After a transfer that got as far as opening the staging file and then
    failed, the staging file holds the kept bytes followed by the first of
    the bytes received. *)
Lemma ranged_download_keeps_received E u dest_path expected_size timeout w resp shown :
  let before := files w !! staging dest_path in
  let kept := kept_bytes before (resp_code resp) in
  server E (mkRequest GET u (resume_offset before) timeout) = Some resp ->
  shown_size expected_size kept resp = Some shown ->
  io_fails E (OpOpenWrite (staging dest_path) (if 0 <? len kept then ModeAB else ModeWB))
  = false ->
  let r := ranged_download E (JStr u) dest_path expected_size timeout w in
  fst r = Ret false ->
  exists written rest,
    body_prefix (resp_body resp) = written ++ rest
    /\ files (snd r) !! staging dest_path = Some (kept ++ written).
Proof.
  intros before kept Hsrv Hshown Hopenok. cbv zeta.
  unfold ranged_download. fold (staging dest_path).
  set (tmp := staging dest_path) in *.
  rewrite bind_eval, path_exists_eval. cbn beta iota.
  rewrite bind_eval.
  set (existing := match files w !! tmp with Some old => len old | None => 0 end).
  assert (Hex : (if match files w !! tmp with Some _ => true | None => false end
                 then getsize tmp else ret 0) w = (Ret existing, w)).
  { unfold existing. destruct (files w !! tmp) eqn:Htmp; [|reflexivity].
    rewrite getsize_eval, Htmp. reflexivity. }
  rewrite Hex. cbn beta iota.
  assert (Hoff : (if 0 <? existing then Some existing else None)
                 = resume_offset (files w !! tmp)).
  { unfold existing, resume_offset. destruct (files w !! tmp); reflexivity. }
  rewrite Hoff. rewrite try_except_eval.
  rewrite bind_eval. cbn [Request ret]. rewrite bind_eval. unfold urlopen.
  fold before. rewrite Hsrv.
  set (w1 := log_request (mkRequest GET u (resume_offset before) timeout) w).
  cbv zeta.
  assert (Hlen : (if (0 <? existing) && negb (code_in_206_200 (resp_code resp))
                  then 0 else existing) = len kept)
    by apply existing_is_len_kept.
  rewrite Hlen. rewrite bind_eval.
  match goal with
  | |- context [match ?c w1 with _ => _ end] =>
      assert (Hsize : c w1 = (Ret shown, w1))
  end.
  { revert Hshown. unfold shown_size. destruct expected_size as [n|].
    { intros [= <-]. reflexivity. }
    destruct (resp_content_length resp) as [cl|]; [|intros [= <-]; reflexivity].
    rewrite isdigit_not_empty, parse_int_header_value.
    destruct (isdigit cl); [|intros [= <-]; reflexivity].
    destruct (header_value cl); [intros [= <-]; reflexivity | discriminate]. }
  rewrite Hsize. rewrite bind_eval, open_write_eval, Hopenok.
  assert (Hopen : exists w2,
    match (if 0 <? len kept then ModeAB else ModeWB), files w1 !! tmp with
    | ModeAB, Some _ => (Ret tt, w1)
    | _, _ => (Ret tt, with_files (<[tmp := []]> (files w1)) w1)
    end = (Ret tt, w2) /\ files w2 !! tmp = Some kept).
  { destruct (0 <? len kept) eqn:Hpos.
    - pose proof (kept_bytes_pos _ _ Hpos) as Hold. fold before in Hold. fold kept in Hold.
      change (files w1 !! tmp) with before. rewrite Hold.
      exists w1. split; [reflexivity|]. exact Hold.
    - rewrite (len_nil_inv kept Hpos).
      eexists. split; [reflexivity|]. cbn. apply lookup_insert_eq. }
  destruct Hopen as (w2 & -> & Hk2).
  rewrite bind_eval.
  destruct (read_loop_written E dest_path shown (resp_body resp) (len kept) w2 kept Hk2)
    as (written & rest & Hpre & Hf3).
  fold tmp in Hf3.
  destruct (read_loop E tmp dest_path shown (resp_body resp) (len kept) w2) as [[t|e] w3];
    cbn [fst snd] in *.
  2:{ intros _. exists written, rest. split; [exact Hpre|].
      change (files w3 !! tmp = Some (kept ++ written)).
      rewrite Hf3. apply lookup_insert_eq. }
  rewrite bind_eval, os_replace_eval.
  destruct (io_fails E (OpReplace tmp dest_path)).
  { intros _. exists written, rest. split; [exact Hpre|].
    change (files w3 !! tmp = Some (kept ++ written)).
    rewrite Hf3. apply lookup_insert_eq. }
  rewrite Hf3, lookup_insert_eq. cbn. discriminate.
Qed.





End TraceFacts.

(** ** Concrete runs *)

Section ConcreteRuns.

(** C1, at the input where the code leaves it: the staging file holds "AB",
    so the request asks for the bytes from offset 2 on; the server answers
    200 with the whole file "ABCD"; [ranged_download] keeps "AB", appends the
    body, and promotes "ABABCD" as the destination file. *)
Theorem full_body_appended_to_partial_bytes :
  let w := initial_world {[ "out/a.vrs.part" := data_of "AB" ]} in
  let r := ranged_download plain_env (JStr "http://x/a") "out/a.vrs" None 30 w in
  fst r = Ret true
  /\ requests (snd r) = [mkRequest GET "http://x/a" (Some 2) 30]
  /\ files (snd r) !! "out/a.vrs" = Some (data_of "ABABCD")
  /\ files (snd r) !! "out/a.vrs" <> Some (data_of "ABCD")
  /\ files (snd r) !! "out/a.vrs.part" = None.
Proof. cbv zeta. repeat split; try reflexivity. vm_compute. discriminate. Qed.

(** C3, at the input where the code leaves it: with [--skip-existing] the
    flag [verify] is off, and a descriptor whose file is already at the
    destination is downloaded again: a GET request is sent and the file is
    replaced by the body of the response; without the flag the same file
    passes the checks and nothing is requested. *)
Theorem skip_existing_downloads_again :
  let w := initial_world {[ "out/a.vrs" := data_of "abcd" ]} in
  let r := main_one_worker plain_env skip_existing_args (JList [entry_a]) w in
  let r' := main_one_worker plain_env default_args (JList [entry_a]) w in
  verify_flag skip_existing_args = false
  /\ fst r = Ret MainReturned
  /\ requests (snd r) = [mkRequest GET "http://x/a" None 30]
  /\ files (snd r) !! "out/a.vrs" = Some (data_of "ABCD")
  /\ output (snd r) = [LogFoundAll 1; LogDownloading "a.vrs" "out";
                       LogProgress "out/a.vrs" 2 (Some 4);
                       LogProgress "out/a.vrs" 4 (Some 4); LogDone]
  /\ requests (snd r') = []
  /\ files (snd r') !! "out/a.vrs" = Some (data_of "abcd")
  /\ output (snd r') = [LogFoundAll 1; LogAlreadyOk "a.vrs"; LogDone].
Proof. cbv zeta. repeat split; reflexivity. Qed.

(** C4, at the input where the code leaves it: one worker, two descriptors,
    the first with a number as "sha1sum".  After the download of the first,
    [sha.lower()] raises [AttributeError], nothing catches it, and the worker
    thread ends; the second descriptor stays in the queue, is never
    processed, and [main] waits in [q.join()] for ever. *)
Theorem worker_dies_on_malformed_checksum :
  let w := initial_world ∅ in
  let q := [Some entry_bad_sha; Some entry_b] in
  let rw := worker_loop plain_env q "out" true 30
              (mkWorld ∅ [] [] [] q 2) in
  let r := main_one_worker plain_env default_args (JList [entry_bad_sha; entry_b]) w in
  fst (download_one plain_env entry_bad_sha "out" true 30 w) = Raise AttributeError
  /\ fst rw = Raise AttributeError
  /\ queue (snd rw) = [Some entry_b]
  /\ unfinished_tasks (snd rw) = 1%nat
  /\ fst r = Ret MainWaitingInJoin
  /\ queue (snd r) = [Some entry_b]
  /\ files (snd r) !! "out/b.VRS" = None
  /\ output (snd r) = [LogFoundAll 2; LogDownloading "c.vrs" "out";
                       LogProgress "out/c.vrs" 2 (Some 4);
                       LogProgress "out/c.vrs" 4 (Some 4);
                       LogThreadDied AttributeError].
Proof. cbv zeta. repeat split; reflexivity. Qed.

End ConcreteRuns.

(** ** The pre-check of an existing file *)

Section PrecheckFacts.

Lemma has_key_dict_get (k : string) (fields : list (string * json)) :
  has_key k fields = match dict_get k fields with Some _ => true | None => false end.
Proof.
  induction fields as [|[k' v] rest IH]; [reflexivity|].
  cbn [has_key existsb dict_get fst]. fold (has_key k rest).
  destruct (String.eqb k k'); [reflexivity|exact IH].
Qed.

(** With verification on and a file at the destination, the pre-check
    answers whether size and checksum match; it changes nothing. *)
Lemma already_satisfied_eval E fields dest_path expected_size w content :
  files w !! dest_path = Some content ->
  already_satisfied E fields dest_path expected_size true w
  = (Ret (size_matches expected_size content
          && checksum_matches E fields dest_path content), w).
Proof.
  intros Hdest. unfold already_satisfied.
  rewrite bind_eval, path_exists_eval, Hdest. cbn [andb]. rewrite bind_eval.
  assert (Hsize : match expected_size with
                  | Some n => size <- getsize dest_path ;; ret (size =? n)
                  | None => ret true
                  end w = (Ret (size_matches expected_size content), w)).
  { destruct expected_size as [n|]; [|reflexivity].
    rewrite bind_eval, getsize_eval, Hdest. reflexivity. }
  rewrite Hsize. rewrite bind_eval.
  rewrite has_key_dict_get. unfold checksum_matches, checksum_given.
  destruct (dict_get "sha1sum" fields) as [v|]; cbn [default andb]; unfold id;
    [|reflexivity].
  destruct (truthy v); [|reflexivity].
  rewrite try_except_eval, bind_eval, sha1_of_file_eval, Hdest.
  destruct (io_fails E (OpOpenRead dest_path)); [destruct v; reflexivity|].
  destruct v; reflexivity.
Qed.

(** [--skip-existing] switches verification off. *)
Lemma skip_existing_disables_verify (a : args) :
  skip_existing a = true -> verify_flag a = false.
Proof. intros H. unfold verify_flag. rewrite H. apply andb_false_r. Qed.

(** Without verification the pre-check never accepts a file. *)
Lemma already_satisfied_no_verify E fields dest_path expected_size w :
  already_satisfied E fields dest_path expected_size false w = (Ret false, w).
Proof.
  unfold already_satisfied. rewrite bind_eval, path_exists_eval.
  destruct (files w !! dest_path); reflexivity.
Qed.

(** The expected size is always determined, by HEAD requests at most. *)
Lemma determine_expected_size_total E fields url timeout w :
  exists expected_size w1 heads,
    determine_expected_size E fields url timeout w = (Ret expected_size, w1)
    /\ requests w1 = requests w ++ heads
    /\ Forall (fun req => req_method req = HEAD) heads
    /\ files w1 = files w /\ snapshots w1 = snapshots w /\ output w1 = output w.
Proof.
  unfold determine_expected_size.
  destruct (isinstance_int _).
  - eexists _, w, []. rewrite app_nil_r. repeat split. constructor.
  - destruct url as [| | | |u| |];
      try (exists None, w, []; rewrite app_nil_r; repeat split; constructor).
    rewrite head_request_length_str. eexists _, _, [_].
    repeat split. repeat constructor.
Qed.



End PrecheckFacts.

Section Witnesses.



End Witnesses.

(** * Further properties *)

(** ** File names and destination paths *)

Section NameFacts.

Lemma underscore_allowed : is_forbidden "_"%char = false.
Proof. reflexivity. Qed.

(** Stated again below as a theorem; this is the form other proofs use. *)
Lemma sanitize_filename_clean_aux (name : string) :
  clean_name (sanitize_filename name) = true
  /\ String.length (sanitize_filename name) = String.length name
  /\ (forall c, In c (list_ascii_of_string (sanitize_filename name)) ->
        is_forbidden c = false).
Proof.
  induction name as [|c s (IH1 & IH2 & IH3)].
  - repeat split. intros c [].
  - cbn [sanitize_filename]. unfold clean_name in *.
    cbn [all_chars String.length list_ascii_of_string].
    assert (Hc : is_forbidden (if is_forbidden c then "_"%char else c) = false).
    { destruct (is_forbidden c) eqn:Hf; [reflexivity | exact Hf]. }
    rewrite Hc, IH1, IH2. repeat split.
    intros d [<- | Hd]; [exact Hc | apply IH3, Hd].
Qed.

(** The result of [sanitize_filename] holds none of the nine replaced
    characters (so no path separator) and is as long as the name. *)
Theorem sanitize_filename_clean (name : string) :
  clean_name (sanitize_filename name) = true
  /\ String.length (sanitize_filename name) = String.length name
  /\ (forall c, In c (list_ascii_of_string (sanitize_filename name)) ->
        is_forbidden c = false).
Proof. exact (sanitize_filename_clean_aux name). Qed.

(** [sanitize_filename] leaves a clean name as it is, and doing it twice is
    doing it once. *)
Theorem sanitize_filename_idempotent (name : string) :
  (clean_name name = true -> sanitize_filename name = name)
  /\ sanitize_filename (sanitize_filename name) = sanitize_filename name.
Proof.
  assert (Hfix : forall s, clean_name s = true -> sanitize_filename s = s).
  { induction s as [|c s IH]; [reflexivity|].
    unfold clean_name. cbn [all_chars sanitize_filename]. intros H.
    apply andb_prop in H as [Hc Hs].
    apply negb_true_iff in Hc. rewrite Hc, (IH Hs). reflexivity. }
  split; [apply Hfix|]. apply Hfix. apply sanitize_filename_clean_aux.
Qed.

Lemma path_join_relative (a : string) (c : ascii) (b : string) :
  is_forbidden c = false ->
  path_join a (String c b)
  = if String.eqb a "" || ends_with "/" a then a +:+ String c b
    else a +:+ "/" +:+ String c b.
Proof.
  intros Hc. destruct c as [[] [] [] [] [] [] [] []];
    first [discriminate Hc | reflexivity].
Qed.

(** The destination of a descriptor is the output directory, a separator
    when the directory needs one, and the sanitized name: whatever the name
    in the document, it cannot make the path absolute or add a directory. *)
Theorem dest_path_inside_outdir (outdir name : string) :
  path_join outdir (sanitize_filename name)
  = (if String.eqb outdir "" || ends_with "/" outdir
     then outdir +:+ sanitize_filename name
     else outdir +:+ "/" +:+ sanitize_filename name)
  /\ clean_name (sanitize_filename name) = true.
Proof.
  split; [|apply sanitize_filename_clean_aux].
  destruct name as [|c s]; [reflexivity|].
  cbn [sanitize_filename]. apply path_join_relative.
  destruct (is_forbidden c) eqn:Hf; [reflexivity | exact Hf].
Qed.

End NameFacts.

(** ** Transfers when no system call fails *)

Section TransferFacts.

(** Without faults the read loop stores every chunk it receives: the staging
    file grows by what was read before the end of the stream or the failing
    read, and the loop returns exactly when the stream ends. *)
Lemma read_loop_no_faults E dest_path expected_size body :
  no_faults E ->
  can_show expected_size = true ->
  forall total w old,
    files w !! staging dest_path = Some old ->
    let r := read_loop E (staging dest_path) dest_path expected_size body total w in
    files (snd r) = <[staging dest_path := old ++ body_prefix body]> (files w)
    /\ requests (snd r) = requests w
    /\ match body_bytes body with
       | Some data => fst r = Ret (total + len data) /\ data = body_prefix body
       | None => exists e, fst r = Raise e
       end.
Proof.
  intros Hnf Hshow. induction body as [|[chunk|] rest IH]; intros total w old Hold.
  - cbn. rewrite app_nil_r, insert_id by exact Hold. repeat split.
    f_equal. unfold len. cbn. lia.
  - destruct chunk as [|b chunk].
    + cbn. rewrite app_nil_r, insert_id by exact Hold. repeat split.
      f_equal. unfold len. cbn. lia.
    + rewrite (read_loop_chunk_eval _ _ _ _ _ _ _ _ _ _ Hold), Hnf, Hshow.
      match goal with
      | |- context [read_loop _ _ _ _ _ ?t ?w1] =>
          destruct (IH t w1 (old ++ b :: chunk)) as (H1 & H2 & H3);
          [cbn; apply lookup_insert_eq|];
          set (r := read_loop E (staging dest_path) dest_path expected_size rest t w1) in *
      end.
      cbn in H1, H2. cbv zeta. rewrite H1, H2.
      cbn [body_prefix body_bytes].
      split; [rewrite insert_insert_eq, <- app_assoc; reflexivity|].
      split; [reflexivity|].
      destruct (body_bytes rest) as [data|].
      * destruct H3 as [H3 ->]. split; [|reflexivity].
        rewrite H3. f_equal. unfold len. rewrite !length_app. cbn [length]. lia.
      * exact H3.
  - cbn. rewrite app_nil_r, insert_id by exact Hold. repeat split. eauto.
Qed.

Lemma copy_and_rename_no_faults E dest_path expected_size body total w kept :
  no_faults E ->
  can_show expected_size = true ->
  files w !! staging dest_path = Some kept ->
  let r := (read_loop E (staging dest_path) dest_path expected_size body total ;;
            os_replace E (staging dest_path) dest_path ;;
            ret true) w in
  requests (snd r) = requests w
  /\ match body_bytes body with
     | Some data =>
         fst r = Ret true
         /\ files (snd r) = <[dest_path := kept ++ data]> (delete (staging dest_path) (files w))
     | None =>
         (exists e, fst r = Raise e)
         /\ files (snd r) = <[staging dest_path := kept ++ body_prefix body]> (files w)
     end.
Proof.
  intros Hnf Hshow Hkept. cbv zeta. rewrite bind_eval.
  destruct (read_loop_no_faults E dest_path expected_size body Hnf Hshow total w kept Hkept)
    as (Hf & Hreq & Hres).
  destruct (read_loop E (staging dest_path) dest_path expected_size body total w)
    as [[t|e] w3]; cbn [fst snd] in *.
  - destruct (body_bytes body) as [data|]; [|destruct Hres as [e He]; discriminate He].
    destruct Hres as [_ ->].
    rewrite bind_eval, os_replace_eval, Hnf, Hf, lookup_insert_eq.
    cbn. split; [exact Hreq|]. split; [reflexivity|].
    rewrite delete_insert_eq. reflexivity.
  - destruct (body_bytes body) as [data|]; [destruct Hres as [Hres _]; discriminate Hres|].
    split; [exact Hreq|]. split; [eauto | exact Hf].
Qed.

(** [ranged_download] when no system call fails and the server answers: one
    GET request goes out; when the body can be read to its end the
    destination holds the kept bytes and the body and the staging file is
    gone; when a read fails the staging file holds the kept bytes and what
    was read, and nothing else changes. *)
Lemma ranged_download_no_faults E u dest_path expected_size timeout w resp :
  no_faults E ->
  let before := files w !! staging dest_path in
  let req := mkRequest GET u (resume_offset before) timeout in
  let kept := kept_bytes before (resp_code resp) in
  server E req = Some resp ->
  progress_ok expected_size kept resp ->
  let r := ranged_download E (JStr u) dest_path expected_size timeout w in
  requests (snd r) = requests w ++ [req]
  /\ match body_bytes (resp_body resp) with
     | Some body =>
         fst r = Ret true
         /\ files (snd r) = <[dest_path := kept ++ body]> (delete (staging dest_path) (files w))
     | None =>
         fst r = Ret false
         /\ files (snd r)
            = <[staging dest_path := kept ++ body_prefix (resp_body resp)]> (files w)
     end.
Proof.
  intros Hnf before req kept Hsrv Hprog. cbv zeta.
  unfold ranged_download. fold (staging dest_path).
  set (tmp := staging dest_path) in *.
  rewrite bind_eval, path_exists_eval. cbn beta iota.
  rewrite bind_eval.
  set (existing := match files w !! tmp with Some old => len old | None => 0 end).
  assert (Hex : (if match files w !! tmp with Some _ => true | None => false end
                 then getsize tmp else ret 0) w = (Ret existing, w)).
  { unfold existing. destruct (files w !! tmp) eqn:Htmp; [|reflexivity].
    rewrite getsize_eval, Htmp. reflexivity. }
  rewrite Hex. cbn beta iota.
  assert (Hoff : (if 0 <? existing then Some existing else None)
                 = resume_offset (files w !! tmp)).
  { unfold existing, resume_offset. destruct (files w !! tmp); reflexivity. }
  rewrite Hoff. rewrite try_except_eval, bind_eval. cbn [Request ret].
  rewrite bind_eval. unfold urlopen. fold before. fold req. rewrite Hsrv.
  set (w1 := log_request req w).
  set (existing' := if (0 <? existing) && negb (code_in_206_200 (resp_code resp))
                    then 0 else existing).
  cbv zeta. fold existing'. rewrite bind_eval.
  assert (Hlen : existing' = len kept).
  { unfold existing', existing, kept, before. apply existing_is_len_kept. }
  match goal with
  | |- context [match ?c w1 with _ => _ end] =>
      assert (Hsize : exists x, c w1 = (Ret x, w1) /\ can_show x = true)
  end.
  { unfold progress_ok in Hprog.
    destruct expected_size as [n|].
    { eexists. split; [reflexivity|]. apply can_show_bound, Hprog. }
    destruct (resp_content_length resp) as [cl|]; [|eexists; split; reflexivity].
    destruct (negb (String.eqb cl "") && isdigit cl) eqn:Hcond; [|eexists; split; reflexivity].
    apply andb_prop in Hcond as [_ Hd]. destruct (Hprog Hd) as (n & -> & Hbound).
    eexists. split; [reflexivity|]. apply can_show_bound. rewrite Hlen. exact Hbound. }
  destruct Hsize as (x & -> & Hshow).
  assert (Hopen : exists w2,
    open_write E tmp (if 0 <? existing' then ModeAB else ModeWB) w1 = (Ret tt, w2)
    /\ files w2 !! tmp = Some kept
    /\ delete tmp (files w2) = delete tmp (files w)
    /\ (forall data, <[tmp := data]> (files w2) = <[tmp := data]> (files w))
    /\ requests w2 = requests w1).
  { rewrite open_write_eval, Hnf. unfold kept, kept_bytes, existing', existing, before.
    cbn [w1 log_request files].
    destruct (files w !! tmp) as [old|] eqn:Hold.
    - destruct (0 <? len old) eqn:Hpos; cbn [andb].
      + destruct (code_in_206_200 (resp_code resp)); cbn [negb].
        * rewrite Hpos. exists w1. repeat split. exact Hold.
        * change (0 <? 0) with false. cbv iota. eexists. split; [reflexivity|].
          cbn [with_files files requests]. repeat split.
          -- apply lookup_insert_eq.
          -- apply delete_insert_eq.
          -- intros data. apply insert_insert_eq.
      + rewrite Hpos. eexists. split; [reflexivity|].
        cbn [with_files files requests]. repeat split.
        * apply lookup_insert_eq.
        * apply delete_insert_eq.
        * intros data. apply insert_insert_eq.
    - change (0 <? 0) with false. cbn [andb]. change (0 <? 0) with false. cbv iota.
      eexists. split; [reflexivity|].
      cbn [with_files files requests]. repeat split.
      + apply lookup_insert_eq.
      + apply delete_insert_eq.
      + intros data. apply insert_insert_eq. }
  destruct Hopen as (w2 & Hopen & Hk2 & Hdel2 & Hins2 & Hreq2).
  rewrite bind_eval, Hopen.
  pose proof (copy_and_rename_no_faults E dest_path x (resp_body resp) existing' w2 kept
                Hnf Hshow Hk2) as Htail.
  fold tmp in Htail. cbv zeta in Htail.
  match type of Htail with
  | context [snd (?c w2)] => destruct (c w2) as [[ok|e] w3]
  end; cbn [fst snd] in Htail; destruct Htail as [Hreq3 Hres];
    destruct (body_bytes (resp_body resp)) as [body|]; cbn [fst snd].
  - destruct Hres as [[= ->] Hf]. rewrite Hreq3, Hreq2, Hf, Hdel2. repeat split.
  - destruct Hres as [[e He] _]. discriminate He.
  - destruct Hres as [He _]. discriminate He.
  - destruct Hres as [_ Hf]. cbn. rewrite Hreq3, Hreq2, Hf, Hins2. repeat split.
Qed.

Lemma len_pos (data : bytes) : data <> [] -> (0 <? len data) = true.
Proof.
  intros H. apply Z.ltb_lt. unfold len. destruct data; [congruence|]. cbn [length]. lia.
Qed.

Lemma delete_staging_dest (dest_path : string) (fs : gmap string bytes) (data : bytes) :
  <[dest_path := data]> (delete (staging dest_path) fs) !! staging dest_path = None.
Proof.
  rewrite lookup_insert_ne by (apply not_eq_sym, staging_neq). apply lookup_delete_eq.
Qed.

(** Stated again below as a theorem; this is the form other proofs use. *)
Lemma ranged_download_resumes_on_206_aux (E : env) (u dest_path : string)
    (expected_size : option Z) (timeout : Z) (w : world) (old rest : bytes)
    (resp : response) :
  no_faults E ->
  files w !! staging dest_path = Some old ->
  old <> [] ->
  server E (mkRequest GET u (Some (len old)) timeout) = Some resp ->
  resp_code resp = 206 ->
  body_bytes (resp_body resp) = Some rest ->
  progress_ok expected_size old resp ->
  let r := ranged_download E (JStr u) dest_path expected_size timeout w in
  fst r = Ret true
  /\ requests (snd r) = requests w ++ [mkRequest GET u (Some (len old)) timeout]
  /\ files (snd r) = <[dest_path := old ++ rest]> (delete (staging dest_path) (files w))
  /\ files (snd r) !! dest_path = Some (old ++ rest)
  /\ files (snd r) !! staging dest_path = None.
Proof.
  intros Hnf Hold Hne Hsrv Hcode Hbody Hprog. cbv zeta.
  assert (Hoff : resume_offset (files w !! staging dest_path) = Some (len old)).
  { rewrite Hold. unfold resume_offset. rewrite (len_pos old Hne). reflexivity. }
  assert (Hkept : kept_bytes (files w !! staging dest_path) (resp_code resp) = old).
  { rewrite Hold, Hcode. unfold kept_bytes. rewrite (len_pos old Hne). reflexivity. }
  pose proof (ranged_download_no_faults E u dest_path expected_size timeout w resp Hnf) as H.
  cbv zeta in H. rewrite Hoff, Hkept, Hbody in H.
  destruct (H Hsrv Hprog) as (Hreq & Hret & Hf).
  rewrite Hf. repeat split; try assumption.
  - apply lookup_insert_eq.
  - apply delete_staging_dest.
Qed.

(** Resume: the staging file holds [old], the server answers the ranged
    request with 206 and the rest of the file, no system call fails and the
    progress line can be shown ([progress_ok]).  Then one GET with
    [Range: bytes=len(old)-] is sent, [True] is returned, the destination is
    [old] followed by the rest, the staging file is gone and no other file
    changes. *)
Theorem ranged_download_resumes_on_206 (E : env) (u dest_path : string)
    (expected_size : option Z) (timeout : Z) (w : world) (old rest : bytes)
    (resp : response) :
  no_faults E ->
  files w !! staging dest_path = Some old ->
  old <> [] ->
  server E (mkRequest GET u (Some (len old)) timeout) = Some resp ->
  resp_code resp = 206 ->
  body_bytes (resp_body resp) = Some rest ->
  progress_ok expected_size old resp ->
  let r := ranged_download E (JStr u) dest_path expected_size timeout w in
  fst r = Ret true
  /\ requests (snd r) = requests w ++ [mkRequest GET u (Some (len old)) timeout]
  /\ files (snd r) = <[dest_path := old ++ rest]> (delete (staging dest_path) (files w))
  /\ files (snd r) !! dest_path = Some (old ++ rest)
  /\ files (snd r) !! staging dest_path = None.
Proof. exact (ranged_download_resumes_on_206_aux E u dest_path expected_size timeout w old rest resp). Qed.

(** Status 200 after a ranged request: the bytes of the staging file are not
    dropped.  When no system call fails, the request asks for the bytes from
    [len old] on, the server answers 200 with a body that can be read to the
    end of its stream, and the progress line can be shown ([progress_ok]),
    [True] is returned and the destination becomes [old] followed by that
    body, whatever the body is. *)
Theorem ranged_download_appends_on_200 (E : env) (u dest_path : string)
    (expected_size : option Z) (timeout : Z) (w : world) (old body : bytes)
    (resp : response) :
  no_faults E ->
  files w !! staging dest_path = Some old ->
  old <> [] ->
  server E (mkRequest GET u (Some (len old)) timeout) = Some resp ->
  resp_code resp = 200 ->
  body_bytes (resp_body resp) = Some body ->
  progress_ok expected_size old resp ->
  let r := ranged_download E (JStr u) dest_path expected_size timeout w in
  fst r = Ret true
  /\ files (snd r) !! dest_path = Some (old ++ body)
  /\ files (snd r) !! staging dest_path = None.
Proof.
  intros Hnf Hold Hne Hsrv Hcode Hbody Hprog. cbv zeta.
  assert (Hoff : resume_offset (files w !! staging dest_path) = Some (len old)).
  { rewrite Hold. unfold resume_offset. rewrite (len_pos old Hne). reflexivity. }
  assert (Hkept : kept_bytes (files w !! staging dest_path) (resp_code resp) = old).
  { rewrite Hold, Hcode. apply status_200_keeps_partial_bytes. exact Hne. }
  pose proof (ranged_download_no_faults E u dest_path expected_size timeout w resp Hnf) as H.
  cbv zeta in H. rewrite Hoff, Hkept, Hbody in H.
  destruct (H Hsrv Hprog) as (Hreq & Hret & Hf).
  rewrite Hf. repeat split; try assumption.
  - apply lookup_insert_eq.
  - apply delete_staging_dest.
Qed.

(** Restart: the staging file holds bytes, and the server answers the ranged
    request with a status other than 206 and 200.  When no system call
    fails, the body can be read to the end of its stream and the progress
    line can be shown ([progress_ok]), [True] is returned and the old bytes
    are dropped: the destination is the body alone. *)
Theorem ranged_download_restarts_on_other_status (E : env) (u dest_path : string)
    (expected_size : option Z) (timeout : Z) (w : world) (old body : bytes)
    (resp : response) :
  no_faults E ->
  files w !! staging dest_path = Some old ->
  server E (mkRequest GET u (resume_offset (Some old)) timeout) = Some resp ->
  resp_code resp <> 206 ->
  resp_code resp <> 200 ->
  body_bytes (resp_body resp) = Some body ->
  progress_ok expected_size [] resp ->
  let r := ranged_download E (JStr u) dest_path expected_size timeout w in
  fst r = Ret true
  /\ files (snd r) = <[dest_path := body]> (delete (staging dest_path) (files w))
  /\ files (snd r) !! dest_path = Some body
  /\ files (snd r) !! staging dest_path = None.
Proof.
  intros Hnf Hold Hsrv H206 H200 Hbody Hprog. cbv zeta.
  assert (Hkept : kept_bytes (files w !! staging dest_path) (resp_code resp) = []).
  { rewrite Hold. unfold kept_bytes, code_in_206_200.
    apply Z.eqb_neq in H206, H200. rewrite H206, H200, andb_false_r. reflexivity. }
  pose proof (ranged_download_no_faults E u dest_path expected_size timeout w resp Hnf) as H.
  cbv zeta in H. rewrite Hold, Hbody in H. rewrite Hold in Hkept. rewrite Hkept in H.
  destruct (H Hsrv Hprog) as (Hreq & Hret & Hf).
  rewrite Hf. repeat split; try assumption.
  - apply lookup_insert_eq.
  - apply delete_staging_dest.
Qed.

(** Stated again below as a theorem; this is the form other proofs use. *)
Lemma ranged_download_fresh_aux (E : env) (u dest_path : string)
    (expected_size : option Z) (timeout : Z) (w : world) (body : bytes)
    (resp : response) :
  no_faults E ->
  files w !! staging dest_path = None \/ files w !! staging dest_path = Some [] ->
  server E (mkRequest GET u None timeout) = Some resp ->
  body_bytes (resp_body resp) = Some body ->
  progress_ok expected_size [] resp ->
  let r := ranged_download E (JStr u) dest_path expected_size timeout w in
  fst r = Ret true
  /\ requests (snd r) = requests w ++ [mkRequest GET u None timeout]
  /\ files (snd r) = <[dest_path := body]> (delete (staging dest_path) (files w))
  /\ files (snd r) !! dest_path = Some body
  /\ files (snd r) !! staging dest_path = None.
Proof.
  intros Hnf Hbefore Hsrv Hbody Hprog. cbv zeta.
  pose proof (ranged_download_no_faults E u dest_path expected_size timeout w resp Hnf) as H.
  cbv zeta in H.
  assert (Hoff : resume_offset (files w !! staging dest_path) = None)
    by (destruct Hbefore as [-> | ->]; reflexivity).
  assert (Hkept : kept_bytes (files w !! staging dest_path) (resp_code resp) = [])
    by (destruct Hbefore as [-> | ->]; reflexivity).
  rewrite Hoff, Hkept, Hbody in H.
  destruct (H Hsrv Hprog) as (Hreq & Hret & Hf).
  rewrite Hf. repeat split; try assumption.
  - apply lookup_insert_eq.
  - apply delete_staging_dest.
Qed.

(** Fresh download: without a staging file, or with an empty one, the
    request carries no [Range]; when no system call fails, the server
    answers, the body can be read to the end of its stream and the progress
    line can be shown ([progress_ok]), [True] is returned and the
    destination is the body, whatever the status of the response. *)
Theorem ranged_download_fresh (E : env) (u dest_path : string)
    (expected_size : option Z) (timeout : Z) (w : world) (body : bytes)
    (resp : response) :
  no_faults E ->
  files w !! staging dest_path = None \/ files w !! staging dest_path = Some [] ->
  server E (mkRequest GET u None timeout) = Some resp ->
  body_bytes (resp_body resp) = Some body ->
  progress_ok expected_size [] resp ->
  let r := ranged_download E (JStr u) dest_path expected_size timeout w in
  fst r = Ret true
  /\ requests (snd r) = requests w ++ [mkRequest GET u None timeout]
  /\ files (snd r) = <[dest_path := body]> (delete (staging dest_path) (files w))
  /\ files (snd r) !! dest_path = Some body
  /\ files (snd r) !! staging dest_path = None.
Proof. exact (ranged_download_fresh_aux E u dest_path expected_size timeout w body resp). Qed.

(** Progress is kept: when no system call fails, the server answers, the
    progress line can be shown ([progress_ok]) and a read of the body fails,
    [ranged_download] returns [False], the staging file holds the kept bytes
    followed by everything read before the failure, and the destination and
    all other files are as before. *)
Theorem ranged_download_keeps_progress (E : env) (u dest_path : string)
    (expected_size : option Z) (timeout : Z) (w : world) (resp : response) :
  no_faults E ->
  let before := files w !! staging dest_path in
  let kept := kept_bytes before (resp_code resp) in
  server E (mkRequest GET u (resume_offset before) timeout) = Some resp ->
  body_bytes (resp_body resp) = None ->
  progress_ok expected_size kept resp ->
  let r := ranged_download E (JStr u) dest_path expected_size timeout w in
  fst r = Ret false
  /\ files (snd r) !! staging dest_path = Some (kept ++ body_prefix (resp_body resp))
  /\ (forall p, p <> staging dest_path -> files (snd r) !! p = files w !! p).
Proof.
  intros Hnf before kept Hsrv Hbody Hprog. cbv zeta.
  pose proof (ranged_download_no_faults E u dest_path expected_size timeout w resp Hnf) as H.
  cbv zeta in H. rewrite Hbody in H.
  destruct (H Hsrv Hprog) as (Hreq & Hret & Hf).
  rewrite Hf. repeat split; try assumption.
  - apply lookup_insert_eq.
  - intros p Hp. apply lookup_insert_ne. auto.
Qed.

(** Two runs, when no system call fails and the progress lines can be shown
    ([progress_ok]): the first transfer, without a staging file, breaks after
    the bytes [a]; the second one is answered with 206 and the bytes [b] from
    offset [len a].  The first run returns [False], the second [True], and
    the destination is [a] followed by [b], as a transfer in one piece would
    leave it. *)
Theorem interrupted_then_resumed (E : env) (u dest_path : string)
    (expected_size : option Z) (timeout : Z) (w : world) (a b : bytes)
    (resp1 resp2 : response) :
  no_faults E ->
  files w !! staging dest_path = None ->
  server E (mkRequest GET u None timeout) = Some resp1 ->
  body_bytes (resp_body resp1) = None ->
  body_prefix (resp_body resp1) = a ->
  a <> [] ->
  server E (mkRequest GET u (Some (len a)) timeout) = Some resp2 ->
  resp_code resp2 = 206 ->
  body_bytes (resp_body resp2) = Some b ->
  progress_ok expected_size [] resp1 ->
  progress_ok expected_size a resp2 ->
  let r1 := ranged_download E (JStr u) dest_path expected_size timeout w in
  let r2 := ranged_download E (JStr u) dest_path expected_size timeout (snd r1) in
  fst r1 = Ret false
  /\ fst r2 = Ret true
  /\ files (snd r2) !! dest_path = Some (a ++ b)
  /\ files (snd r2) !! staging dest_path = None
  /\ requests (snd r2)
     = requests w ++ [mkRequest GET u None timeout; mkRequest GET u (Some (len a)) timeout].
Proof.
  intros Hnf Hnone Hsrv1 Hbody1 Hpre Hne Hsrv2 Hcode Hbody2 Hprog1 Hprog2. cbv zeta.
  pose proof (ranged_download_no_faults E u dest_path expected_size timeout w resp1 Hnf) as H1.
  cbv zeta in H1. rewrite Hnone, Hbody1 in H1. cbn [resume_offset kept_bytes] in H1.
  destruct (H1 Hsrv1 Hprog1) as (Hreq1 & Hret1 & Hf1).
  rewrite Hpre in Hf1. cbn [app] in Hf1.
  set (w1 := snd (ranged_download E (JStr u) dest_path expected_size timeout w)) in *.
  assert (Hold : files w1 !! staging dest_path = Some a)
    by (rewrite Hf1; apply lookup_insert_eq).
  destruct (ranged_download_resumes_on_206_aux E u dest_path expected_size timeout w1 a b resp2
              Hnf Hold Hne Hsrv2 Hcode Hbody2 Hprog2)
    as (Hret2 & Hreq2 & _ & Hdest & Htmp).
  repeat split; try assumption.
  rewrite Hreq2, Hreq1, <- app_assoc. reflexivity.
Qed.

(** A request that cannot be made or is not answered changes nothing on
    disk: [ranged_download] prints the error and returns [False], and files
    and their history are as before, the staging file included. *)
Theorem failed_request_touches_nothing (E : env) (url : json) (dest_path : string)
    (expected_size : option Z) (timeout : Z) (w : world) :
  (forall u, url = JStr u ->
     server E (mkRequest GET u (resume_offset (files w !! staging dest_path)) timeout) = None) ->
  let r := ranged_download E url dest_path expected_size timeout w in
  fst r = Ret false
  /\ files (snd r) = files w
  /\ snapshots (snd r) = snapshots w
  /\ exists e, output (snd r) = output w ++ [LogDownloadError url e].
Proof.
  intros Hdown. cbv zeta. unfold ranged_download. fold (staging dest_path).
  set (tmp := staging dest_path) in *.
  rewrite bind_eval, path_exists_eval. cbn beta iota. rewrite bind_eval.
  set (existing := match files w !! tmp with Some old => len old | None => 0 end).
  assert (Hex : (if match files w !! tmp with Some _ => true | None => false end
                 then getsize tmp else ret 0) w = (Ret existing, w)).
  { unfold existing. destruct (files w !! tmp) eqn:Htmp; [|reflexivity].
    rewrite getsize_eval, Htmp. reflexivity. }
  rewrite Hex. cbn beta iota.
  assert (Hoff : (if 0 <? existing then Some existing else None)
                 = resume_offset (files w !! tmp)).
  { unfold existing, resume_offset. destruct (files w !! tmp); reflexivity. }
  rewrite Hoff, try_except_eval, bind_eval.
  destruct url as [| | | |u| |].
  5:{ cbn [Request ret]. rewrite bind_eval. unfold urlopen. rewrite (Hdown u eq_refl).
      cbn. repeat split; eauto. }
  all: cbn; repeat split; eauto.
Qed.

End TransferFacts.

Section TransferWitnesses.

Lemma no_faults_range_env : no_faults range_env.
Proof. intros op. reflexivity. Defined.

Lemma no_faults_plain_env : no_faults plain_env.
Proof. intros op. reflexivity. Defined.

Lemma no_faults_other_status_env : no_faults other_status_env.
Proof. intros op. reflexivity. Defined.

Lemma ranged_download_resumes_on_206_witness :
  files partial_world !! staging "out/a.vrs" = Some (data_of "AB")
  /\ files (snd (ranged_download range_env (JStr "http://x/a") "out/a.vrs" (Some 4) 30
                   partial_world)) !! "out/a.vrs"
     = Some (data_of "ABCD").
Proof.
  split; [reflexivity|].
  refine (proj1 (proj2 (proj2 (proj2
    (ranged_download_resumes_on_206 range_env "http://x/a" "out/a.vrs" (Some 4) 30
       partial_world (data_of "AB") (data_of "CD")
       (mkResponse 206 (Some "2") [Chunk (data_of "CD")])
       no_faults_range_env eq_refl _ eq_refl eq_refl eq_refl _))))).
  - discriminate.
  - reflexivity.
Defined.

Lemma ranged_download_restarts_on_other_status_witness :
  files partial_world !! staging "out/a.vrs" = Some (data_of "AB")
  /\ files (snd (ranged_download other_status_env (JStr "http://x/a") "out/a.vrs" None 30
                   partial_world)) !! "out/a.vrs"
     = Some (data_of "ABCD").
Proof.
  split; [reflexivity|].
  refine (proj1 (proj2 (proj2
    (ranged_download_restarts_on_other_status other_status_env "http://x/a" "out/a.vrs"
       None 30 partial_world (data_of "AB") (data_of "ABCD")
       (mkResponse 203 None [Chunk (data_of "ABCD")])
       no_faults_other_status_env eq_refl eq_refl _ _ eq_refl I)))).
  - discriminate.
  - discriminate.
Defined.

Lemma ranged_download_fresh_witness :
  files empty_world !! staging "out/a.vrs" = None
  /\ files (snd (ranged_download plain_env (JStr "http://x/a") "out/a.vrs" (Some 4) 30
                   empty_world)) !! "out/a.vrs"
     = Some (data_of "ABCD").
Proof.
  split; [reflexivity|].
  refine (proj1 (proj2 (proj2 (proj2
    (ranged_download_fresh plain_env "http://x/a" "out/a.vrs" (Some 4) 30 empty_world
       (data_of "ABCD")
       (mkResponse 200 (Some "4") [Chunk (data_of "AB"); Chunk (data_of "CD")])
       no_faults_plain_env (or_introl eq_refl) eq_refl eq_refl _))))).
  reflexivity.
Defined.

Lemma ranged_download_keeps_progress_witness :
  body_bytes [Chunk (data_of "AB"); ReadFails] = None
  /\ files (snd (ranged_download range_env (JStr "http://x/a") "out/a.vrs" (Some 4) 30
                   empty_world)) !! staging "out/a.vrs"
     = Some (data_of "AB").
Proof.
  split; [reflexivity|].
  refine (proj1 (proj2
    (ranged_download_keeps_progress range_env "http://x/a" "out/a.vrs" (Some 4) 30
       empty_world (mkResponse 200 (Some "4") [Chunk (data_of "AB"); ReadFails])
       no_faults_range_env eq_refl eq_refl _))).
  reflexivity.
Defined.

Lemma interrupted_then_resumed_witness :
  body_prefix [Chunk (data_of "AB"); ReadFails] = data_of "AB"
  /\ files (snd (ranged_download range_env (JStr "http://x/a") "out/a.vrs" (Some 4) 30
                   (snd (ranged_download range_env (JStr "http://x/a") "out/a.vrs"
                           (Some 4) 30 empty_world)))) !! "out/a.vrs"
     = Some (data_of "ABCD").
Proof.
  split; [reflexivity|].
  refine (proj1 (proj2 (proj2
    (interrupted_then_resumed range_env "http://x/a" "out/a.vrs" (Some 4) 30 empty_world
       (data_of "AB") (data_of "CD")
       (mkResponse 200 (Some "4") [Chunk (data_of "AB"); ReadFails])
       (mkResponse 206 (Some "2") [Chunk (data_of "CD")])
       no_faults_range_env eq_refl eq_refl eq_refl eq_refl _ eq_refl eq_refl eq_refl _ _)))).
  - discriminate.
  - reflexivity.
  - reflexivity.
Defined.

Lemma failed_request_touches_nothing_witness :
  server down_env (mkRequest GET "http://x/a" (Some 2) 30) = None
  /\ files (snd (ranged_download down_env (JStr "http://x/a") "out/a.vrs" None 30
                   partial_world))
     = files partial_world.
Proof.
  split; [reflexivity|].
  refine (proj1 (proj2
    (failed_request_touches_nothing down_env (JStr "http://x/a") "out/a.vrs" None 30
       partial_world _))).
  intros u _. reflexivity.
Defined.

End TransferWitnesses.

(** ** What leaves the requests, the queue and the disk alone *)

(** Steps that are the same for every relation that looks at one part of
    the world. *)
Ltac frame_leaf :=
  let w := fresh "w" in
  match goal with
  | |- preserves _ get_files => intros w; repeat split
  | |- preserves _ (set_files _) => intros w; repeat split
  | |- preserves _ (print _) => intros w; repeat split
  | |- preserves _ (urlopen _ _) =>
      intros w; unfold urlopen; destruct (server _ _); repeat split
  | |- preserves _ (q_set _) => intros w; repeat split
  | |- preserves _ (q_put _) => intros w; repeat split
  | |- preserves _ q_task_done => intros w; repeat split
  | |- preserves _ q_items => intros w; repeat split
  | |- preserves _ q_unfinished => intros w; repeat split
  end.

Ltac frame refl trans := preserves_structure refl trans; try frame_leaf.

Section FrameFacts.

Lemma same_requests_refl w : same_requests w w.
Proof. reflexivity. Qed.

Lemma same_requests_trans w1 w2 w3 :
  same_requests w1 w2 -> same_requests w2 w3 -> same_requests w1 w3.
Proof. unfold same_requests. congruence. Qed.

Lemma same_queue_refl w : same_queue w w.
Proof. split; reflexivity. Qed.

Lemma same_queue_trans w1 w2 w3 :
  same_queue w1 w2 -> same_queue w2 w3 -> same_queue w1 w3.
Proof. unfold same_queue. intros [] []. split; congruence. Qed.

Lemma same_disk_refl w : same_disk w w.
Proof. split; reflexivity. Qed.

Lemma same_disk_trans w1 w2 w3 :
  same_disk w1 w2 -> same_disk w2 w3 -> same_disk w1 w3.
Proof. unfold same_disk. intros [] []. split; congruence. Qed.

(** *** Requests *)

Lemma req_read_loop E tmp_path dest_path expected_size body :
  forall total,
    preserves same_requests (read_loop E tmp_path dest_path expected_size body total).
Proof.
  induction body as [|[[|b chunk]|] rest IH]; intros total; cbn [read_loop].
  - frame same_requests_refl same_requests_trans.
  - frame same_requests_refl same_requests_trans.
  - apply (preserves_bind _ same_requests_trans);
      [unfold write; frame same_requests_refl same_requests_trans|intros _].
    apply (preserves_bind _ same_requests_trans);
      [unfold write_progress; frame same_requests_refl same_requests_trans|intros _].
    apply IH.
  - frame same_requests_refl same_requests_trans.
Qed.

Lemma req_sha1_of_file E path : preserves same_requests (sha1_of_file E path).
Proof. unfold sha1_of_file. frame same_requests_refl same_requests_trans. Qed.

Lemma req_already_satisfied E fields dest_path expected_size verify :
  preserves same_requests (already_satisfied E fields dest_path expected_size verify).
Proof.
  unfold already_satisfied, path_exists, getsize, method_lower.
  frame same_requests_refl same_requests_trans; apply req_sha1_of_file.
Qed.

Lemma req_verify_download E fields filename dest_path expected_size :
  preserves same_requests (verify_download E fields filename dest_path expected_size).
Proof.
  unfold verify_download, getsize, method_lower.
  frame same_requests_refl same_requests_trans; apply req_sha1_of_file.
Qed.

Lemma try_except_bind_eval {A B} (c : M A) (k : A -> M B) (h : exn -> M B) (w : world) :
  try_except (bind c k) h w
  = match c w with
    | (Ret a, w1) => try_except (k a) h w1
    | (Raise e, w1) => h e w1
    end.
Proof. unfold try_except, bind. destruct (c w) as [[a|e] w1]; reflexivity. Qed.

(** [ranged_download] sends one GET request to a URL that is a string, with
    the size of a staging file that is not empty as the offset, and no
    request otherwise -- whether the transfer succeeds or not. *)
Lemma ranged_download_requests E url dest_path expected_size timeout w :
  requests (snd (ranged_download E url dest_path expected_size timeout w))
  = requests w
    ++ match url with
       | JStr u => [mkRequest GET u (resume_offset (files w !! staging dest_path)) timeout]
       | _ => []
       end.
Proof.
  unfold ranged_download. fold (staging dest_path).
  set (tmp := staging dest_path) in *.
  rewrite bind_eval, path_exists_eval. cbn beta iota. rewrite bind_eval.
  set (existing := match files w !! tmp with Some old => len old | None => 0 end).
  assert (Hex : (if match files w !! tmp with Some _ => true | None => false end
                 then getsize tmp else ret 0) w = (Ret existing, w)).
  { unfold existing. destruct (files w !! tmp) eqn:Htmp; [|reflexivity].
    rewrite getsize_eval, Htmp. reflexivity. }
  rewrite Hex. cbn beta iota.
  assert (Hoff : (if 0 <? existing then Some existing else None)
                 = resume_offset (files w !! tmp)).
  { unfold existing, resume_offset. destruct (files w !! tmp); reflexivity. }
  rewrite Hoff, try_except_bind_eval.
  destruct url as [| | | |u| |].
  5:{ cbn [Request ret]. rewrite try_except_bind_eval. unfold urlopen.
      set (req := mkRequest GET u (resume_offset (files w !! tmp)) timeout).
      destruct (server E req) as [resp|]; [|reflexivity].
      match goal with
      | |- requests (snd (?c (log_request req w))) = _ =>
          assert (Hsame : preserves same_requests c)
      end.
      { unfold open_write, os_replace.
        frame same_requests_refl same_requests_trans; apply req_read_loop. }
      rewrite (Hsame (log_request req w)). reflexivity. }
  all: cbn; symmetry; apply app_nil_r.
Qed.

(** *** The queue *)

Lemma queue_read_loop E tmp_path dest_path expected_size body :
  forall total,
    preserves same_queue (read_loop E tmp_path dest_path expected_size body total).
Proof.
  induction body as [|[[|b chunk]|] rest IH]; intros total; cbn [read_loop].
  - frame same_queue_refl same_queue_trans.
  - frame same_queue_refl same_queue_trans.
  - apply (preserves_bind _ same_queue_trans);
      [unfold write; frame same_queue_refl same_queue_trans|intros _].
    apply (preserves_bind _ same_queue_trans);
      [unfold write_progress; frame same_queue_refl same_queue_trans|intros _].
    apply IH.
  - frame same_queue_refl same_queue_trans.
Qed.

Lemma queue_download_one E entry outdir verify timeout :
  preserves same_queue (download_one E entry outdir verify timeout).
Proof.
  unfold download_one, sanitize_field, determine_expected_size, head_request_length,
    makedirs, already_satisfied, verify_download, ranged_download, Request, path_exists,
    getsize, open_write, os_replace, sha1_of_file, method_lower.
  frame same_queue_refl same_queue_trans; apply queue_read_loop.
Qed.

End FrameFacts.

(** ** One descriptor *)

Section DescriptorFacts.

(** [download_one] past its first lines, for a descriptor with a string name
    and a truthy URL, when the output directory can be created. *)
Lemma download_one_unfold E fields url name outdir verify timeout w expected_size w1 :
  dict_get "download_url" fields = Some url ->
  truthy url = true ->
  default (JStr "unknown.vrs") (dict_get "filename" fields) = JStr name ->
  io_fails E (OpMakedirs outdir) = false ->
  determine_expected_size E fields url timeout w = (Ret expected_size, w1) ->
  let filename := sanitize_filename name in
  let dest_path := path_join outdir filename in
  download_one E (JDict fields) outdir verify timeout w
  = (satisfied <- already_satisfied E fields dest_path expected_size verify ;;
     if satisfied then print (LogAlreadyOk filename)
     else
       print (LogDownloading filename outdir) ;;
       ok <- ranged_download E url dest_path expected_size timeout ;;
       if negb ok then print (LogFail filename)
       else if verify then verify_download E fields filename dest_path expected_size
       else ret tt) w1.
Proof.
  intros Hurl Htruthy Hname Hmk Hdet filename dest_path.
  unfold download_one. rewrite Hname, Hurl. cbn [sanitize_field default].
  rewrite bind_eval. cbn [ret]. unfold id. rewrite Htruthy. cbn [negb].
  rewrite bind_eval, Hdet, bind_eval. unfold makedirs. rewrite Hmk. reflexivity.
Qed.

(** The pre-check never raises and changes nothing. *)
Lemma already_satisfied_returns E fields dest_path expected_size verify w :
  exists b, already_satisfied E fields dest_path expected_size verify w = (Ret b, w).
Proof.
  destruct verify.
  - destruct (files w !! dest_path) as [content|] eqn:Hdest.
    + eexists. apply already_satisfied_eval. exact Hdest.
    + exists false. unfold already_satisfied.
      rewrite bind_eval, path_exists_eval, Hdest. reflexivity.
  - exists false. apply already_satisfied_no_verify.
Qed.

Lemma checksum_field_truthy (fields : list (string * json)) :
  truthy (default JNull (dict_get "sha1sum" fields))
  = match checksum_given fields with Some _ => true | None => false end
  /\ (forall v, checksum_given fields = Some v ->
        default JNull (dict_get "sha1sum" fields) = v).
Proof.
  unfold checksum_given. destruct (dict_get "sha1sum" fields) as [v|]; cbn [default];
    unfold id.
  - destruct (truthy v) eqn:Hv; split; try reflexivity; congruence.
  - split; [reflexivity|]. discriminate.
Qed.

(** The checks after a download, for a file that is there: with no checksum
    given, or a string checksum and a readable file, they return; they never
    change a file or send a request, and a size that differs is reported
    first. *)
Lemma verify_download_returns E fields filename dest_path expected_size w content :
  files w !! dest_path = Some content ->
  checksum_given fields = None
  \/ (exists sha, checksum_given fields = Some (JStr sha)
                  /\ io_fails E (OpOpenRead dest_path) = false) ->
  exists lines,
    verify_download E fields filename dest_path expected_size w
    = (Ret tt, mkWorld (files w) (snapshots w) (requests w) (output w ++ lines)
                       (queue w) (unfinished_tasks w))
    /\ (forall n, expected_size = Some n -> len content <> n ->
          exists more, lines = LogSizeMismatch filename (len content) n :: more)
    /\ (checksum_given fields = None ->
          lines = match expected_size with
                  | Some n => if len content =? n then []
                              else [LogSizeMismatch filename (len content) n]
                  | None => []
                  end).
Proof.
  intros Hdest Hsum. unfold verify_download. rewrite bind_eval.
  set (size_lines := match expected_size with
                     | Some n => if len content =? n then []
                                 else [LogSizeMismatch filename (len content) n]
                     | None => []
                     end).
  set (w1 := mkWorld (files w) (snapshots w) (requests w) (output w ++ size_lines)
                     (queue w) (unfinished_tasks w)).
  assert (Hsize : match expected_size with
                  | Some n =>
                      size <- getsize dest_path ;;
                      if negb (size =? n)
                      then got <- getsize dest_path ;; print (LogSizeMismatch filename got n)
                      else ret tt
                  | None => ret tt
                  end w = (Ret tt, w1)).
  { unfold w1, size_lines. destruct expected_size as [n|].
    - rewrite bind_eval, getsize_eval, Hdest.
      destruct (len content =? n); cbn [negb].
      + rewrite app_nil_r. destruct w; reflexivity.
      + rewrite bind_eval, getsize_eval, Hdest. reflexivity.
    - rewrite app_nil_r. destruct w; reflexivity. }
  rewrite Hsize. cbv zeta.
  destruct (checksum_field_truthy fields) as [Htr Hval]. rewrite Htr.
  destruct Hsum as [Hnone | (sha & Hsha & Hread)].
  - rewrite Hnone. exists size_lines. split; [reflexivity|]. split; [|reflexivity].
    intros n -> Hne. unfold size_lines. apply Z.eqb_neq in Hne. rewrite Hne. eauto.
  - rewrite Hsha, (Hval _ Hsha).
    rewrite bind_eval, sha1_of_file_eval, Hread.
    assert (Hd1 : files w1 !! dest_path = Some content) by exact Hdest.
    rewrite Hd1. cbn [method_lower]. rewrite bind_eval. cbn [ret].
    destruct (negb (String.eqb (lower (sha1_hexdigest E content)) (lower sha)));
      match goal with
      | |- context [print ?l w1] => exists (size_lines ++ [l])
      end;
      (split; [unfold print, log_output, w1; cbn; rewrite app_assoc; reflexivity|]);
      (split; [|intros Hnone; congruence]);
      intros n -> Hne; unfold size_lines; apply Z.eqb_neq in Hne; rewrite Hne;
      cbn [app]; eauto.
Qed.

(** Stated again below as a theorem; this is the form other proofs use. *)
Lemma download_one_returns_aux (E : env) (fields : list (string * json))
    (name outdir : string) (verify : bool) (timeout : Z) (w : world) :
  default (JStr "unknown.vrs") (dict_get "filename" fields) = JStr name ->
  io_fails E (OpMakedirs outdir) = false ->
  verify = false
  \/ checksum_given fields = None
  \/ (exists sha, checksum_given fields = Some (JStr sha)
                  /\ io_fails E (OpOpenRead (path_join outdir (sanitize_filename name)))
                     = false) ->
  fst (download_one E (JDict fields) outdir verify timeout w) = Ret tt.
Proof.
  intros Hname Hmk Hsafe.
  set (url := default JNull (dict_get "download_url" fields)).
  destruct (truthy url) eqn:Htruthy.
  2:{ unfold download_one. rewrite Hname. cbn [sanitize_field].
      rewrite bind_eval. cbn [ret]. fold url. rewrite Htruthy. reflexivity. }
  assert (Hurl : dict_get "download_url" fields = Some url).
  { unfold url in *. destruct (dict_get "download_url" fields); [reflexivity|].
    discriminate Htruthy. }
  destruct (determine_expected_size_total E fields url timeout w)
    as (expected_size & w1 & heads & Hdet & _).
  rewrite (download_one_unfold E fields url name outdir verify timeout w expected_size w1
             Hurl Htruthy Hname Hmk Hdet).
  set (filename := sanitize_filename name) in *.
  set (dest_path := path_join outdir filename) in *.
  rewrite bind_eval.
  destruct (already_satisfied_returns E fields dest_path expected_size verify w1)
    as [satisfied ->].
  destruct satisfied; [reflexivity|].
  rewrite bind_eval. cbn [print]. rewrite bind_eval.
  destruct (ranged_download_spec E url dest_path expected_size timeout
              (log_output (LogDownloading filename outdir) w1))
    as (ok & Hret & _ & _ & Hres).
  cbv zeta in Hret, Hres.
  destruct (ranged_download E url dest_path expected_size timeout
              (log_output (LogDownloading filename outdir) w1)) as [r w2].
  cbn [fst snd] in Hret, Hres. subst r.
  destruct ok; cbn [negb]; [|reflexivity].
  destruct verify; [|reflexivity].
  destruct Hres as (u & resp & body & _ & _ & _ & Hdest & _).
  destruct Hsafe as [Hv | Hsum]; [discriminate Hv|].
  destruct (verify_download_returns E fields filename dest_path expected_size w2 _
              Hdest Hsum) as (lines & -> & _).
  reflexivity.
Qed.

(** [download_one] returns, whatever the server and the disk do, for a
    descriptor with a string name when the output directory can be created
    and the checks after the download cannot raise: verification is off, or
    no checksum is given, or the checksum is a string and the destination
    can be read. *)
Theorem download_one_returns (E : env) (fields : list (string * json))
    (name outdir : string) (verify : bool) (timeout : Z) (w : world) :
  default (JStr "unknown.vrs") (dict_get "filename" fields) = JStr name ->
  io_fails E (OpMakedirs outdir) = false ->
  verify = false
  \/ checksum_given fields = None
  \/ (exists sha, checksum_given fields = Some (JStr sha)
                  /\ io_fails E (OpOpenRead (path_join outdir (sanitize_filename name)))
                     = false) ->
  fst (download_one E (JDict fields) outdir verify timeout w) = Ret tt.
Proof. exact (download_one_returns_aux E fields name outdir verify timeout w). Qed.

(** A descriptor without a usable URL (no key, [null], an empty string, or
    any other false value) is skipped with one line of output: no request,
    no directory, no file.  A name that is not a string raises [TypeError]
    before anything else happens. *)
Theorem download_one_early_exits (E : env) (fields : list (string * json))
    (outdir : string) (verify : bool) (timeout : Z) (w : world) :
  (forall name,
     default (JStr "unknown.vrs") (dict_get "filename" fields) = JStr name ->
     truthy (default JNull (dict_get "download_url" fields)) = false ->
     download_one E (JDict fields) outdir verify timeout w
     = (Ret tt, log_output (LogSkipNoUrl (sanitize_filename name)) w))
  /\ ((forall name,
         default (JStr "unknown.vrs") (dict_get "filename" fields) <> JStr name) ->
      download_one E (JDict fields) outdir verify timeout w = (Raise TypeError, w)).
Proof.
  split.
  - intros name Hname Hurl. unfold download_one. rewrite Hname. cbn [sanitize_field].
    rewrite bind_eval. cbn [ret]. rewrite Hurl. reflexivity.
  - intros Hname. unfold download_one.
    destruct (default (JStr "unknown.vrs") (dict_get "filename" fields));
      try reflexivity.
    destruct (Hname s eq_refl).
Qed.

Lemma determine_expected_size_requests E fields url timeout w :
  exists expected_size heads,
    determine_expected_size E fields url timeout w
    = (Ret expected_size,
       mkWorld (files w) (snapshots w) (requests w ++ heads) (output w)
               (queue w) (unfinished_tasks w))
    /\ (heads = []
        \/ exists u, url = JStr u /\ heads = [mkRequest HEAD u None timeout]).
Proof.
  assert (Hw : mkWorld (files w) (snapshots w) (requests w ++ []) (output w)
                       (queue w) (unfinished_tasks w) = w)
    by (rewrite app_nil_r; destruct w; reflexivity).
  unfold determine_expected_size.
  destruct (isinstance_int _).
  - eexists _, []. rewrite Hw. split; [reflexivity|]. left. reflexivity.
  - destruct url as [| | | |u| |];
      try (exists None, []; rewrite Hw; split; [reflexivity|left; reflexivity]).
    rewrite head_request_length_str. eexists _, [_].
    split; [reflexivity|]. right. eauto.
Qed.

(** Whatever happens, [download_one] contacts no other URL than the one of
    its descriptor, with the given timeout: it sends at most one HEAD request
    and then at most one GET request, and none at all when the URL is not a
    string. *)
Theorem download_one_contacts_only_its_url (E : env) (fields : list (string * json))
    (outdir : string) (verify : bool) (timeout : Z) (w : world) :
  exists heads gets,
    requests (snd (download_one E (JDict fields) outdir verify timeout w))
    = requests w ++ heads ++ gets
    /\ (heads = []
        \/ exists u, dict_get "download_url" fields = Some (JStr u)
                     /\ heads = [mkRequest HEAD u None timeout])
    /\ (gets = []
        \/ exists u offset, dict_get "download_url" fields = Some (JStr u)
                            /\ gets = [mkRequest GET u offset timeout]).
Proof.
  assert (Hnone : forall w', requests w' = requests w ->
            exists heads gets : list request,
              requests w' = requests w ++ heads ++ gets
              /\ (heads = []
                  \/ exists u, dict_get "download_url" fields = Some (JStr u)
                               /\ heads = [mkRequest HEAD u None timeout])
              /\ (gets = []
                  \/ exists u offset, dict_get "download_url" fields = Some (JStr u)
                                      /\ gets = [mkRequest GET u offset timeout])).
  { intros w' Hw'. exists [], []. rewrite Hw', app_nil_r. auto. }
  unfold download_one.
  destruct (default (JStr "unknown.vrs") (dict_get "filename" fields)) as [| | | |name| |];
    try (apply Hnone; reflexivity).
  cbn [sanitize_field]. rewrite bind_eval. cbn [ret].
  set (url := default JNull (dict_get "download_url" fields)).
  destruct (truthy url) eqn:Htruthy; cbn [negb]; [|apply Hnone; reflexivity].
  assert (Hurl : dict_get "download_url" fields = Some url).
  { unfold url in *. destruct (dict_get "download_url" fields); [reflexivity|].
    discriminate Htruthy. }
  destruct (determine_expected_size_requests E fields url timeout w)
    as (expected_size & heads & Hdet & Hheads).
  rewrite bind_eval, Hdet.
  set (w1 := mkWorld (files w) (snapshots w) (requests w ++ heads) (output w)
                     (queue w) (unfinished_tasks w)).
  assert (Hheads' : heads = []
                    \/ exists u, dict_get "download_url" fields = Some (JStr u)
                                 /\ heads = [mkRequest HEAD u None timeout]).
  { destruct Hheads as [-> | (u & Hu & ->)]; [left; reflexivity|].
    right. exists u. rewrite Hurl, Hu. auto. }
  assert (Hafter : forall w', requests w' = requests w1 ->
            exists heads gets : list request,
              requests w' = requests w ++ heads ++ gets
              /\ (heads = []
                  \/ exists u, dict_get "download_url" fields = Some (JStr u)
                               /\ heads = [mkRequest HEAD u None timeout])
              /\ (gets = []
                  \/ exists u offset, dict_get "download_url" fields = Some (JStr u)
                                      /\ gets = [mkRequest GET u offset timeout])).
  { intros w' Hw'. exists heads, []. rewrite Hw', app_nil_r. auto. }
  rewrite bind_eval. unfold makedirs.
  destruct (io_fails E (OpMakedirs outdir)); [apply Hafter; reflexivity|].
  cbn [ret]. rewrite bind_eval.
  set (filename := sanitize_filename name).
  set (dest_path := path_join outdir filename).
  destruct (already_satisfied_returns E fields dest_path expected_size verify w1)
    as [satisfied ->].
  destruct satisfied; [apply Hafter; reflexivity|].
  rewrite bind_eval. cbn [print]. rewrite bind_eval.
  set (w2 := log_output (LogDownloading filename outdir) w1).
  pose proof (ranged_download_requests E url dest_path expected_size timeout w2) as Hget.
  pose proof (ranged_download_spec E url dest_path expected_size timeout w2)
    as (ok & Hret & _).
  cbv zeta in Hret.
  destruct (ranged_download E url dest_path expected_size timeout w2) as [r w3].
  cbn [fst snd] in Hret, Hget. subst r.
  match goal with
  | |- context [snd (?c w3)] => assert (Hsame : preserves same_requests c)
  end.
  { frame same_requests_refl same_requests_trans. apply req_verify_download. }
  exists heads,
    (match url with
     | JStr u => [mkRequest GET u (resume_offset (files w2 !! staging dest_path)) timeout]
     | _ => []
     end).
  rewrite (Hsame w3), Hget. cbn [w2 log_output requests w1].
  rewrite <- app_assoc. split; [reflexivity|]. split; [exact Hheads'|].
  destruct url; auto. right. eexists _, _. split; [exact Hurl | reflexivity].
Qed.

(** What a fresh, undisturbed download of a descriptor with a declared size
    leaves behind, up to the checks that follow it. *)
Lemma fresh_fetch E fields u name outdir timeout w n resp body :
  no_faults E ->
  default (JStr "unknown.vrs") (dict_get "filename" fields) = JStr name ->
  dict_get "download_url" fields = Some (JStr u) ->
  u <> "" ->
  dict_get "file_size_bytes" fields = Some (JInt n) ->
  Z.abs n < 2 ^ 1023 ->
  let filename := sanitize_filename name in
  let dest_path := path_join outdir filename in
  (forall content, files w !! dest_path = Some content -> len content <> n) ->
  files w !! staging dest_path = None ->
  server E (mkRequest GET u None timeout) = Some resp ->
  body_bytes (resp_body resp) = Some body ->
  exists w2 progress,
    download_one E (JDict fields) outdir true timeout w
    = verify_download E fields filename dest_path (Some n) w2
    /\ files w2 = <[dest_path := body]> (delete (staging dest_path) (files w))
    /\ requests w2 = requests w ++ [mkRequest GET u None timeout]
    /\ output w2 = output w ++ LogDownloading filename outdir :: progress.
Proof.
  intros Hnf Hname Hurl Hu Hsize Hbound filename dest_path Hother Hstage Hsrv Hbody.
  assert (Htruthy : truthy (JStr u) = true).
  { cbn. rewrite (string_eqb_empty u Hu). reflexivity. }
  assert (Hdet : determine_expected_size E fields (JStr u) timeout w = (Ret (Some n), w)).
  { unfold determine_expected_size. rewrite Hsize. reflexivity. }
  rewrite (download_one_unfold E fields (JStr u) name outdir true timeout w (Some n) w
             Hurl Htruthy Hname (Hnf _) Hdet).
  fold filename. fold dest_path. rewrite bind_eval.
  assert (Hpre : already_satisfied E fields dest_path (Some n) true w = (Ret false, w)).
  { destruct (files w !! dest_path) as [content|] eqn:Hdest.
    - rewrite (already_satisfied_eval E fields dest_path (Some n) w content Hdest).
      unfold size_matches. specialize (Hother content eq_refl).
      apply Z.eqb_neq in Hother. rewrite Hother. reflexivity.
    - unfold already_satisfied. rewrite bind_eval, path_exists_eval, Hdest. reflexivity. }
  rewrite Hpre, bind_eval. cbn [print]. rewrite bind_eval.
  set (w1 := log_output (LogDownloading filename outdir) w).
  destruct (ranged_download_fresh_aux E u dest_path (Some n) timeout w1 body resp
              Hnf (or_introl Hstage) Hsrv Hbody Hbound)
    as (Hret & Hreq & Hfiles & _ & _).
  destruct (grow_ranged_download E (JStr u) dest_path (Some n) timeout w1)
    as [_ [progress Hout]].
  destruct (ranged_download E (JStr u) dest_path (Some n) timeout w1) as [r w2].
  cbn [fst snd] in *. subst r. cbn [negb].
  exists w2, progress. split; [reflexivity|].
  split; [exact Hfiles|]. split; [exact Hreq|].
  rewrite Hout. cbn [w1 log_output output]. rewrite <- app_assoc. reflexivity.
Qed.

(** A size that differs from the declared one is a warning, not a failure:
    after a fresh download of a body of another length, [download_one]
    returns normally, the file is at the destination, and the last line
    printed reports the two sizes. *)
Theorem size_mismatch_keeps_file (E : env) (fields : list (string * json))
    (u name outdir : string) (timeout : Z) (w : world) (n : Z)
    (resp : response) (body : bytes) :
  no_faults E ->
  default (JStr "unknown.vrs") (dict_get "filename" fields) = JStr name ->
  dict_get "download_url" fields = Some (JStr u) ->
  u <> "" ->
  dict_get "file_size_bytes" fields = Some (JInt n) ->
  Z.abs n < 2 ^ 1023 ->
  checksum_given fields = None ->
  let filename := sanitize_filename name in
  let dest_path := path_join outdir filename in
  (forall content, files w !! dest_path = Some content -> len content <> n) ->
  files w !! staging dest_path = None ->
  server E (mkRequest GET u None timeout) = Some resp ->
  body_bytes (resp_body resp) = Some body ->
  len body <> n ->
  let r := download_one E (JDict fields) outdir true timeout w in
  fst r = Ret tt
  /\ files (snd r) !! dest_path = Some body
  /\ exists progress,
       output (snd r)
       = output w ++ LogDownloading filename outdir :: progress
         ++ [LogSizeMismatch filename (len body) n].
Proof.
  intros Hnf Hname Hurl Hu Hsize Hbound Hsum filename dest_path Hother Hstage Hsrv Hbody
    Hlen. cbv zeta.
  destruct (fresh_fetch E fields u name outdir timeout w n resp body
              Hnf Hname Hurl Hu Hsize Hbound Hother Hstage Hsrv Hbody)
    as (w2 & progress & -> & Hfiles & _ & Hout).
  fold filename. fold dest_path.
  assert (Hdest : files w2 !! dest_path = Some body)
    by (rewrite Hfiles; apply lookup_insert_eq).
  destruct (verify_download_returns E fields filename dest_path (Some n) w2 body
              Hdest (or_introl Hsum)) as (lines & -> & _ & Hlines).
  rewrite (Hlines Hsum). apply Z.eqb_neq in Hlen. rewrite Hlen.
  cbn [fst snd files output]. repeat split; [exact Hdest|].
  exists progress. rewrite Hout, <- app_assoc. reflexivity.
Qed.

(** The checks after a download when a string checksum is given and the file
    can be read: the last line printed tells whether the digest is the
    checksum, up to case. *)
Lemma verify_download_checksum E fields filename dest_path expected_size w content sha :
  files w !! dest_path = Some content ->
  checksum_given fields = Some (JStr sha) ->
  io_fails E (OpOpenRead dest_path) = false ->
  exists lines,
    verify_download E fields filename dest_path expected_size w
    = (Ret tt,
       mkWorld (files w) (snapshots w) (requests w)
         (output w ++ lines
          ++ [if String.eqb (lower (sha1_hexdigest E content)) (lower sha)
              then LogSha1Verified filename
              else LogSha1Mismatch filename (sha1_hexdigest E content) (JStr sha)])
         (queue w) (unfinished_tasks w)).
Proof.
  intros Hdest Hsha Hread. unfold verify_download. rewrite bind_eval.
  assert (Hsize : exists lines,
    match expected_size with
    | Some n =>
        size <- getsize dest_path ;;
        if negb (size =? n)
        then got <- getsize dest_path ;; print (LogSizeMismatch filename got n)
        else ret tt
    | None => ret tt
    end w = (Ret tt, mkWorld (files w) (snapshots w) (requests w) (output w ++ lines)
                             (queue w) (unfinished_tasks w))).
  { destruct expected_size as [n|].
    - rewrite bind_eval, getsize_eval, Hdest.
      destruct (len content =? n); cbn [negb].
      + exists []. rewrite app_nil_r. destruct w; reflexivity.
      + rewrite bind_eval, getsize_eval, Hdest. eexists [_]. reflexivity.
    - exists []. rewrite app_nil_r. destruct w; reflexivity. }
  destruct Hsize as [lines ->]. exists lines. cbv zeta.
  destruct (checksum_field_truthy fields) as [Htr Hval].
  rewrite Htr, Hsha, (Hval _ Hsha).
  rewrite bind_eval, sha1_of_file_eval, Hread. cbn [files]. rewrite Hdest.
  cbn [method_lower]. rewrite bind_eval. cbn [ret].
  destruct (String.eqb (lower (sha1_hexdigest E content)) (lower sha)); cbn [negb];
    unfold print, log_output; cbn; rewrite <- app_assoc; reflexivity.
Qed.

(** A checksum that differs from the digest of the downloaded file is a
    warning, not a failure: [download_one] returns normally, the file is at
    the destination, and the last line printed reports the two values. *)
Theorem checksum_mismatch_keeps_file (E : env) (fields : list (string * json))
    (u name outdir sha : string) (timeout : Z) (w : world) (n : Z)
    (resp : response) (body : bytes) :
  no_faults E ->
  default (JStr "unknown.vrs") (dict_get "filename" fields) = JStr name ->
  dict_get "download_url" fields = Some (JStr u) ->
  u <> "" ->
  dict_get "file_size_bytes" fields = Some (JInt n) ->
  Z.abs n < 2 ^ 1023 ->
  checksum_given fields = Some (JStr sha) ->
  let filename := sanitize_filename name in
  let dest_path := path_join outdir filename in
  files w !! dest_path = None ->
  files w !! staging dest_path = None ->
  server E (mkRequest GET u None timeout) = Some resp ->
  body_bytes (resp_body resp) = Some body ->
  String.eqb (lower (sha1_hexdigest E body)) (lower sha) = false ->
  let r := download_one E (JDict fields) outdir true timeout w in
  fst r = Ret tt
  /\ files (snd r) !! dest_path = Some body
  /\ exists before,
       output (snd r)
       = output w ++ before
         ++ [LogSha1Mismatch filename (sha1_hexdigest E body) (JStr sha)].
Proof.
  intros Hnf Hname Hurl Hu Hsize Hbound Hsum filename dest_path Hnone Hstage Hsrv Hbody
    Hdiff. cbv zeta.
  assert (Hother : forall content, files w !! dest_path = Some content -> len content <> n)
    by (intros content H; congruence).
  destruct (fresh_fetch E fields u name outdir timeout w n resp body
              Hnf Hname Hurl Hu Hsize Hbound Hother Hstage Hsrv Hbody)
    as (w2 & progress & -> & Hfiles & _ & Hout).
  fold filename. fold dest_path.
  assert (Hdest : files w2 !! dest_path = Some body)
    by (rewrite Hfiles; apply lookup_insert_eq).
  destruct (verify_download_checksum E fields filename dest_path (Some n) w2 body sha
              Hdest Hsum (Hnf _)) as (lines & ->).
  rewrite Hdiff. cbn [fst snd files output]. repeat split; [exact Hdest|].
  exists (LogDownloading filename outdir :: progress ++ lines).
  rewrite Hout. rewrite <- !app_assoc. cbn [app]. rewrite <- app_assoc. reflexivity.
Qed.

(** Running twice: after a fresh download whose result passes the checks
    (size as declared, checksum as given) a second run on the resulting
    state is skipped: it prints that the file is there and does nothing
    else -- no request, no change to any file. *)
Theorem second_run_is_skipped (E : env) (fields : list (string * json))
    (u name outdir : string) (timeout : Z) (w : world) (n : Z)
    (resp : response) (body : bytes) :
  no_faults E ->
  default (JStr "unknown.vrs") (dict_get "filename" fields) = JStr name ->
  dict_get "download_url" fields = Some (JStr u) ->
  u <> "" ->
  dict_get "file_size_bytes" fields = Some (JInt n) ->
  Z.abs n < 2 ^ 1023 ->
  let filename := sanitize_filename name in
  let dest_path := path_join outdir filename in
  files w !! dest_path = None ->
  files w !! staging dest_path = None ->
  server E (mkRequest GET u None timeout) = Some resp ->
  body_bytes (resp_body resp) = Some body ->
  len body = n ->
  checksum_matches E fields dest_path body = true ->
  let r1 := download_one E (JDict fields) outdir true timeout w in
  let r2 := download_one E (JDict fields) outdir true timeout (snd r1) in
  fst r1 = Ret tt
  /\ files (snd r1) !! dest_path = Some body
  /\ r2 = (Ret tt, log_output (LogAlreadyOk filename) (snd r1)).
Proof.
  intros Hnf Hname Hurl Hu Hsize Hbound filename dest_path Hnone Hstage Hsrv Hbody
    Hlen Hsum. cbv zeta.
  assert (Hother : forall content, files w !! dest_path = Some content -> len content <> n)
    by (intros content H; congruence).
  destruct (fresh_fetch E fields u name outdir timeout w n resp body
              Hnf Hname Hurl Hu Hsize Hbound Hother Hstage Hsrv Hbody)
    as (w2 & progress & -> & Hfiles & _ & _).
  fold filename. fold dest_path.
  assert (Hdest : files w2 !! dest_path = Some body)
    by (rewrite Hfiles; apply lookup_insert_eq).
  assert (Hgiven : checksum_given fields = None
                   \/ (exists sha, checksum_given fields = Some (JStr sha)
                                   /\ io_fails E (OpOpenRead dest_path) = false)).
  { unfold checksum_matches in Hsum.
    destruct (checksum_given fields) as [[| | | |sha| |]|]; try discriminate Hsum;
      [right; exists sha; split; [reflexivity|apply Hnf] | left; reflexivity]. }
  destruct (verify_download_returns E fields filename dest_path (Some n) w2 body
              Hdest Hgiven) as (lines & -> & _).
  cbn [fst snd files]. split; [reflexivity|]. split; [exact Hdest|].
  set (w3 := mkWorld (files w2) (snapshots w2) (requests w2) (output w2 ++ lines)
                     (queue w2) (unfinished_tasks w2)).
  assert (Htruthy : truthy (JStr u) = true).
  { cbn. rewrite (string_eqb_empty u Hu). reflexivity. }
  assert (Hdet : determine_expected_size E fields (JStr u) timeout w3 = (Ret (Some n), w3)).
  { unfold determine_expected_size. rewrite Hsize. reflexivity. }
  rewrite (download_one_unfold E fields (JStr u) name outdir true timeout w3 (Some n) w3
             Hurl Htruthy Hname (Hnf _) Hdet).
  fold filename. fold dest_path. rewrite bind_eval.
  rewrite (already_satisfied_eval E fields dest_path (Some n) w3 body Hdest).
  unfold size_matches. rewrite Hsum, Hlen, Z.eqb_refl. reflexivity.
Qed.

End DescriptorFacts.

(** ** The worker *)

Section WorkerFacts.

(** One turn of the loop of [worker] on a descriptor: the queue loses its
    head, [download_one] runs, and the task is marked done whether or not
    [download_one] raised. *)
Lemma worker_turn E entry rest outdir verify timeout w :
  exists o w2,
    try_finally (download_one E entry outdir verify timeout) q_task_done
      (snd (q_set rest w)) = (o, w2)
    /\ fst (download_one E entry outdir verify timeout (snd (q_set rest w))) = o
    /\ queue w2 = rest
    /\ unfinished_tasks w2 = Nat.pred (unfinished_tasks w)
    /\ output w2
       = output (snd (download_one E entry outdir verify timeout (snd (q_set rest w)))).
Proof.
  unfold try_finally.
  pose proof (queue_download_one E entry outdir verify timeout (snd (q_set rest w)))
    as [Hq Hu].
  destruct (download_one E entry outdir verify timeout (snd (q_set rest w))) as [o w1].
  cbn [fst snd] in *. exists o. eexists. split; [reflexivity|].
  cbn. rewrite Hq, Hu. repeat split.
Qed.

(** The worker marks every task it takes: on a queue of descriptors with at
    least as many unfinished tasks, when the loop stops -- waiting on the
    empty queue, or ended by an exception -- the queue holds the descriptors
    not yet taken and the count of unfinished tasks went down by the number
    taken, the one that raised included. *)
Theorem worker_marks_every_taken_task (E : env) (entries : list json)
    (outdir : string) (verify : bool) (timeout : Z) (w : world) :
  queue w = map Some entries ->
  (length entries <= unfinished_tasks w)%nat ->
  let r := worker E outdir verify timeout w in
  exists taken,
    (taken <= length entries)%nat
    /\ queue (snd r) = map Some (skipn taken entries)
    /\ unfinished_tasks (snd r) = (unfinished_tasks w - taken)%nat
    /\ match fst r with
       | Ret state => state = WorkerWaiting /\ taken = length entries
       | Raise _ => (0 < taken)%nat
       end.
Proof.
  intros Hq Hu. cbv zeta. unfold worker. rewrite bind_eval. unfold q_items.
  cbn beta iota. rewrite Hq.
  revert w Hq Hu. induction entries as [|entry rest IH]; intros w Hq Hu.
  - exists 0%nat. cbn. rewrite Hq. repeat split; lia.
  - cbn [map worker_loop]. rewrite bind_eval. change (q_set (map Some rest) w)
      with (Ret tt, snd (q_set (map Some rest) w)). cbn beta iota.
    rewrite bind_eval.
    destruct (worker_turn E entry (map Some rest) outdir verify timeout w)
      as (o & w2 & -> & _ & Hq2 & Hu2 & _).
    cbn [length] in Hu.
    destruct o as [[]|e].
    + destruct (IH w2 Hq2 ltac:(lia)) as (taken & Hle & Hq3 & Hu3 & Hres).
      exists (S taken). cbn [length skipn]. rewrite Hq3, Hu3, Hu2.
      split; [lia|]. split; [reflexivity|]. split; [lia|].
      destruct (fst (worker_loop E (map Some rest) outdir verify timeout w2));
        [destruct Hres as [-> ->]; auto | lia].
    + exists 1%nat. cbn [fst snd length skipn]. rewrite Hq2, Hu2.
      repeat split; lia.
Qed.

(** Stated again below as a theorem; this is the form other proofs use. *)
Lemma worker_drains_queue_aux (E : env) (entries : list json) (behind : list (option json))
    (outdir : string) (verify : bool) (timeout : Z) (w : world) :
  (forall entry w', In entry entries ->
     fst (download_one E entry outdir verify timeout w') = Ret tt) ->
  (length entries <= unfinished_tasks w)%nat ->
  (queue w = map Some entries ->
   let r := worker E outdir verify timeout w in
   fst r = Ret WorkerWaiting
   /\ queue (snd r) = []
   /\ unfinished_tasks (snd r) = (unfinished_tasks w - length entries)%nat)
  /\ (queue w = map Some entries ++ None :: behind ->
      let r := worker E outdir verify timeout w in
      fst r = Ret WorkerReturned
      /\ queue (snd r) = behind
      /\ unfinished_tasks (snd r) = (unfinished_tasks w - length entries)%nat).
Proof.
  intros Hsafe Hu.
  assert (Hloop : forall tail w0,
    (length entries <= unfinished_tasks w0)%nat ->
    exists w1,
      worker_loop E (map Some entries ++ tail) outdir verify timeout w0
      = worker_loop E tail outdir verify timeout w1
      /\ (entries <> [] -> queue w1 = tail)
      /\ (entries = [] -> w1 = w0)
      /\ unfinished_tasks w1 = (unfinished_tasks w0 - length entries)%nat).
  { intros tail. induction entries as [|entry rest IH]; intros w0 Hu0.
    - exists w0. cbn. repeat split; try congruence. lia.
    - cbn [map app worker_loop]. rewrite bind_eval.
      change (q_set (map Some rest ++ tail) w0)
        with (Ret tt, snd (q_set (map Some rest ++ tail) w0)). cbn beta iota.
      rewrite bind_eval.
      destruct (worker_turn E entry (map Some rest ++ tail) outdir verify timeout w0)
        as (o & w2 & -> & Ho & Hq2 & Hu2 & _).
      rewrite (Hsafe entry _ (or_introl eq_refl)) in Ho. subst o.
      cbn [length] in Hu0, Hu.
      destruct IH with (w0 := w2) as (w1 & Heq & Hq1 & Hsame & Hu1).
      { intros e w' He. apply Hsafe. right. exact He. }
      { lia. }
      { lia. }
      exists w1. split; [exact Heq|]. split; [|split; [discriminate|]].
      + intros _. destruct rest as [|e' rest'].
        * rewrite (Hsame eq_refl). exact Hq2.
        * apply Hq1. discriminate.
      + rewrite Hu1, Hu2. cbn [length]. lia. }
  split; intros Hq; cbv zeta; unfold worker; rewrite bind_eval; unfold q_items;
    cbn beta iota; rewrite Hq.
  - rewrite <- (app_nil_r (map Some entries)).
    destruct (Hloop [] w Hu) as (w1 & -> & Hq1 & Hsame & Hu1).
    cbn. repeat split; [|exact Hu1].
    destruct entries as [|e rest]; [|apply Hq1; discriminate].
    rewrite (Hsame eq_refl). exact Hq.
  - destruct (Hloop (None :: behind) w Hu) as (w1 & -> & _ & _ & Hu1).
    cbn. repeat split. exact Hu1.
Qed.

(** When [download_one] returns for each descriptor, the worker goes through
    the whole queue in order: it ends waiting on the empty queue with all
    their tasks marked done, or, when a sentinel follows the descriptors, it
    takes the sentinel and returns, leaving what is behind it. *)
Theorem worker_drains_queue (E : env) (entries : list json) (behind : list (option json))
    (outdir : string) (verify : bool) (timeout : Z) (w : world) :
  (forall entry w', In entry entries ->
     fst (download_one E entry outdir verify timeout w') = Ret tt) ->
  (length entries <= unfinished_tasks w)%nat ->
  (queue w = map Some entries ->
   let r := worker E outdir verify timeout w in
   fst r = Ret WorkerWaiting
   /\ queue (snd r) = []
   /\ unfinished_tasks (snd r) = (unfinished_tasks w - length entries)%nat)
  /\ (queue w = map Some entries ++ None :: behind ->
      let r := worker E outdir verify timeout w in
      fst r = Ret WorkerReturned
      /\ queue (snd r) = behind
      /\ unfinished_tasks (snd r) = (unfinished_tasks w - length entries)%nat).
Proof. exact (worker_drains_queue_aux E entries behind outdir verify timeout w). Qed.

End WorkerFacts.

(** ** The selection and the run of [main] *)

Section MainFacts.

Lemma found_entries_look_like_entries (data : json) :
  Forall (fun e => looks_like_entry e = true) (recursive_find_entries data).
Proof.
  rewrite find_entries_filter. apply List.Forall_forall.
  intros e He. apply List.filter_In in He. apply He.
Qed.

Lemma fname_matches_found (entry : json) :
  looks_like_entry entry = true ->
  fname_matches entry
  = if name_is_string entry then Ret (name_accepted entry) else Raise TypeError.
Proof.
  destruct entry as [| | | | | |fields]; try discriminate. cbn [looks_like_entry].
  intros H. apply andb_prop in H as [Hkey _]. rewrite has_key_dict_get in Hkey.
  unfold fname_matches, name_is_string, name_accepted.
  destruct (dict_get "filename" fields) as [v|]; [|discriminate Hkey].
  destruct v; reflexivity.
Qed.

Lemma filter_entries_spec (found : list json) :
  Forall (fun e => looks_like_entry e = true) found ->
  filter_entries found
  = if forallb name_is_string found
    then Ret (List.filter name_accepted found) else Raise TypeError.
Proof.
  induction 1 as [|entry rest Hentry _ IH]; [reflexivity|].
  cbn [filter_entries forallb List.filter].
  rewrite (fname_matches_found entry Hentry), IH.
  destruct (name_is_string entry); [|reflexivity].
  destruct (forallb name_is_string rest); [|reflexivity].
  destruct (name_accepted entry); reflexivity.
Qed.

(** Stated again below as a theorem; this is the form other proofs use. *)
Lemma candidate_entries_spec_aux (data : json) :
  candidate_entries data
  = if forallb name_is_string (recursive_find_entries data)
    then Ret (List.filter name_accepted (recursive_find_entries data))
    else Raise TypeError.
Proof.
  unfold candidate_entries. apply filter_entries_spec, found_entries_look_like_entries.
Qed.

(** The selection of [main]: when the name of every entry found in the
    document is a string, the selected entries are the found entries whose
    name [VRS_REGEX] accepts, in the order found; a single entry whose name is
    not a string makes the selection raise [TypeError]. *)
Theorem candidate_entries_spec (data : json) :
  candidate_entries data
  = if forallb name_is_string (recursive_find_entries data)
    then Ret (List.filter name_accepted (recursive_find_entries data))
    else Raise TypeError.
Proof. exact (candidate_entries_spec_aux data). Qed.

(** One entry with a name that is not a string (a number, [null], a list)
    anywhere in the document stops [main] with [TypeError] before it prints
    or downloads anything, whatever the other entries are. *)
Theorem bad_name_aborts_run (E : env) (a : args) (data entry : json) (w : world) :
  In entry (recursive_find_entries data) ->
  name_is_string entry = false ->
  main_one_worker E a data w = (Raise TypeError, w).
Proof.
  intros Hin Hname. unfold main_one_worker. rewrite bind_eval. unfold lift.
  rewrite candidate_entries_spec_aux.
  destruct (forallb name_is_string (recursive_find_entries data)) eqn:Hall; [|reflexivity].
  rewrite List.forallb_forall in Hall. rewrite (Hall entry Hin) in Hname.
  discriminate Hname.
Qed.

Lemma filter_nothing {A} (p : A -> bool) (l : list A) :
  (forall x, In x l -> p x = false) -> List.filter p l = [].
Proof.
  induction l as [|x l IH]; intros H; [reflexivity|].
  cbn [List.filter]. rewrite (H x (or_introl eq_refl)).
  apply IH. intros y Hy. apply H. right. exact Hy.
Qed.

(** A document in which no entry has a name that the filter accepts (no
    entries at all, or only other kinds of files) makes [main] print one line
    and return: nothing is requested and no file is touched. *)
Theorem nothing_eligible_nothing_done (E : env) (a : args) (data : json) (w : world) :
  (forall entry, In entry (recursive_find_entries data) ->
     name_is_string entry = true /\ name_accepted entry = false) ->
  main_one_worker E a data w = (Ret MainReturned, log_output LogNoFiles w).
Proof.
  intros Hnone. unfold main_one_worker. rewrite bind_eval. unfold lift.
  rewrite candidate_entries_spec_aux.
  assert (Hall : forallb name_is_string (recursive_find_entries data) = true).
  { apply List.forallb_forall. intros e He. apply Hnone, He. }
  assert (Hempty : List.filter name_accepted (recursive_find_entries data) = []).
  { apply filter_nothing. intros e He. apply Hnone, He. }
  rewrite Hall, Hempty. reflexivity.
Qed.

(** Stated again below as a theorem; this is the form other proofs use. *)
Lemma limit_entries_bounds_aux (n : Z) (entries : list json) :
  (exists rest, entries = limit_entries n entries ++ rest)
  /\ (n <= 0 -> limit_entries n entries = entries)
  /\ (Z.of_nat (length entries) <= n -> limit_entries n entries = entries)
  /\ (0 < n <= Z.of_nat (length entries) ->
      Z.of_nat (length (limit_entries n entries)) = n).
Proof.
  unfold limit_entries. destruct (0 <? n) eqn:Hn.
  - apply Z.ltb_lt in Hn. repeat split.
    + exists (skipn (Z.to_nat n) entries). symmetry. apply firstn_skipn.
    + lia.
    + intros Hle. apply firstn_all2. lia.
    + intros Hle. rewrite List.length_firstn. lia.
  - apply Z.ltb_ge in Hn. repeat split; try reflexivity; try lia.
    exists []. symmetry. apply app_nil_r.
Qed.

(** The cap: the entries kept are always a prefix of the eligible entries;
    [--max-files 0] and every negative value keep all of them, as does a cap
    that is not below their number; otherwise exactly the cap is kept. *)
Theorem limit_entries_bounds (n : Z) (entries : list json) :
  (exists rest, entries = limit_entries n entries ++ rest)
  /\ (n <= 0 -> limit_entries n entries = entries)
  /\ (Z.of_nat (length entries) <= n -> limit_entries n entries = entries)
  /\ (0 < n <= Z.of_nat (length entries) ->
      Z.of_nat (length (limit_entries n entries)) = n).
Proof. exact (limit_entries_bounds_aux n entries). Qed.

Lemma accepted_entry_shape (entry : json) :
  name_accepted entry = true ->
  exists fields fname,
    entry = JDict fields
    /\ default (JStr "unknown.vrs") (dict_get "filename" fields) = JStr fname.
Proof.
  destruct entry as [| | | | | |fields]; try discriminate. cbn [name_accepted].
  destruct (dict_get "filename" fields) as [[| | | |fname| |]|] eqn:Hget;
    try discriminate.
  intros _. exists fields, fname. split; [reflexivity|]. rewrite Hget. reflexivity.
Qed.

(** The run completes: with a fresh queue, an output directory that can be
    created and names that are strings, [main] with one worker returns and
    leaves the queue empty, provided the checks after a download cannot
    raise -- verification is off ([--no-verify] or [--skip-existing]), or no
    entry of the document gives a checksum. *)
Theorem main_completes (E : env) (a : args) (data : json) (w : world) :
  queue w = [] ->
  unfinished_tasks w = 0%nat ->
  io_fails E (OpMakedirs (outdir a)) = false ->
  forallb name_is_string (recursive_find_entries data) = true ->
  verify_flag a = false
  \/ (forall fields, In (JDict fields) (recursive_find_entries data) ->
        checksum_given fields = None) ->
  let r := main_one_worker E a data w in
  fst r = Ret MainReturned /\ queue (snd r) = [].
Proof.
  intros Hq Hu Hmk Hnames Hsafe. cbv zeta.
  cut (exists wf, main_one_worker E a data w = (Ret MainReturned, wf) /\ queue wf = []).
  { intros (wf & -> & Hwf). split; [reflexivity | exact Hwf]. }
  unfold main_one_worker. rewrite bind_eval. unfold lift.
  rewrite candidate_entries_spec_aux, Hnames.
  set (entries := List.filter name_accepted (recursive_find_entries data)).
  assert (Hentries : forall e, In e entries ->
            In e (recursive_find_entries data) /\ name_accepted e = true).
  { intros e He. apply List.filter_In in He. exact He. }
  destruct entries as [|e0 rest] eqn:Heq; [eexists; split; [reflexivity|exact Hq]|].
  rewrite <- Heq in *. clear Heq e0 rest.
  cbn beta iota.
  set (limited := limit_entries (max_files a) entries).
  assert (Hlimited : forall e, In e limited -> In e entries).
  { destruct (limit_entries_bounds_aux (max_files a) entries) as [[rest Hsplit] _].
    intros e He. rewrite Hsplit. apply in_or_app. left. exact He. }
  rewrite bind_eval.
  assert (Hprint : exists w1,
    (if 0 <? max_files a
     then print (LogFoundFirst (length entries) (length limited))
     else print (LogFoundAll (length entries))) w = (Ret tt, w1)
    /\ queue w1 = [] /\ unfinished_tasks w1 = 0%nat).
  { destruct (0 <? max_files a); eexists; (split; [reflexivity|]); cbn; auto. }
  destruct Hprint as (w1 & -> & Hq1 & Hu1).
  cbv zeta. rewrite bind_eval.
  destruct (put_all_queue limited w1) as (Hput & Hq2 & Hu2 & _).
  destruct (put_all limited w1) as [o w2]. cbn [fst snd] in *. subst o.
  rewrite Hq1 in Hq2. cbn [app] in Hq2. rewrite Hu1 in Hu2. cbn in Hu2.
  assert (Hreturns : forall entry w', In entry limited ->
            fst (download_one E entry (outdir a) (verify_flag a) (timeout a) w') = Ret tt).
  { intros entry w' He.
    destruct (Hentries entry (Hlimited entry He)) as [Hfound Hacc].
    destruct (accepted_entry_shape entry Hacc) as (fields & fname & -> & Hname).
    apply (download_one_returns_aux E fields fname (outdir a) (verify_flag a) (timeout a) w'
             Hname Hmk).
    destruct Hsafe as [Hoff | Hnosum]; [left; exact Hoff|].
    right. left. apply Hnosum. exact Hfound. }
  destruct (worker_drains_queue_aux E limited [] (outdir a) (verify_flag a) (timeout a) w2
              Hreturns ltac:(lia)) as [Hdrain _].
  destruct (Hdrain Hq2) as (Hret & Hq3 & Hu3).
  unfold thread_run at 1. rewrite bind_eval, try_except_eval, bind_eval.
  destruct (worker E (outdir a) (verify_flag a) (timeout a) w2) as [o w3].
  cbn [fst snd] in *. subst o. cbn [ret]. rewrite bind_eval. unfold q_unfinished.
  cbn beta iota. rewrite Hu3, Hu2, Nat.sub_diag. rewrite bind_eval.
  change (q_put None w3) with (Ret tt, snd (q_put None w3)). cbn beta iota.
  set (w4 := snd (q_put None w3)).
  assert (Hq4 : queue w4 = map Some [] ++ None :: []) by (cbn; rewrite Hq3; reflexivity).
  destruct (worker_drains_queue_aux E [] [] (outdir a) (verify_flag a) (timeout a) w4)
    as [_ Hsent]; [intros e w' [] | cbn; lia |].
  destruct (Hsent Hq4) as (Hret5 & Hq5 & _).
  rewrite bind_eval, bind_eval. unfold thread_run. rewrite try_except_eval, bind_eval.
  destruct (worker E (outdir a) (verify_flag a) (timeout a) w4) as [o w5].
  cbn [fst snd] in *. subst o. cbn. eexists. split; [reflexivity|]. exact Hq5.
Qed.

End MainFacts.

(** ** What a run processes *)

Section SelectionRun.

Lemma quiet_refl w : quiet w w.
Proof. exists []. split; [symmetry; apply app_nil_r | reflexivity]. Qed.

Lemma processed_app (l1 l2 : list log_line) :
  processed (l1 ++ l2) = processed l1 ++ processed l2.
Proof. unfold processed. apply omap_app. Qed.

Lemma quiet_trans w1 w2 w3 : quiet w1 w2 -> quiet w2 w3 -> quiet w1 w3.
Proof.
  intros (m1 & H1 & P1) (m2 & H2 & P2). exists (m1 ++ m2). split.
  - rewrite H2, H1. symmetry. apply app_assoc.
  - rewrite processed_app, P1, P2. reflexivity.
Qed.

Lemma quiet_same_output {A} (c : M A) :
  (forall w, output (snd (c w)) = output w) -> preserves quiet c.
Proof.
  intros H w. exists []. rewrite H. split; [symmetry; apply app_nil_r | reflexivity].
Qed.

Lemma quiet_print l : started l = None -> preserves quiet (print l).
Proof.
  intros Hl w. exists [l]. split; [reflexivity|].
  unfold processed. cbn. rewrite Hl. reflexivity.
Qed.

Ltac quiet_leaf :=
  match goal with
  | |- preserves quiet (print _) => apply quiet_print; reflexivity
  | |- preserves quiet get_files => apply quiet_same_output; reflexivity
  | |- preserves quiet (set_files _) => apply quiet_same_output; reflexivity
  | |- preserves quiet (urlopen _ _) =>
      apply quiet_same_output; intros ?; unfold urlopen; destruct (server _ _); reflexivity
  end.

Ltac quiet_tac := preserves_structure quiet_refl quiet_trans; try quiet_leaf.

Lemma quiet_read_loop E tmp_path dest_path expected_size body :
  forall total, preserves quiet (read_loop E tmp_path dest_path expected_size body total).
Proof.
  induction body as [|[[|b chunk]|] rest IH]; intros total; cbn [read_loop].
  - quiet_tac.
  - quiet_tac.
  - apply (preserves_bind _ quiet_trans); [unfold write; quiet_tac|intros _].
    apply (preserves_bind _ quiet_trans); [unfold write_progress; quiet_tac|intros _].
    apply IH.
  - quiet_tac.
Qed.

Lemma quiet_ranged_download E url dest_path expected_size timeout :
  preserves quiet (ranged_download E url dest_path expected_size timeout).
Proof.
  unfold ranged_download, path_exists, getsize, Request, open_write, os_replace.
  quiet_tac; apply quiet_read_loop.
Qed.

Lemma quiet_verify_download E fields filename dest_path expected_size :
  preserves quiet (verify_download E fields filename dest_path expected_size).
Proof.
  unfold verify_download, getsize, method_lower, sha1_of_file. quiet_tac.
Qed.

(** [download_one] takes up its descriptor once: of the lines it prints,
    one tells the name of the descriptor, and it is the line of a skip, of a
    file that is there, or of a download that starts. *)
Lemma download_one_processed E fields name outdir verify timeout w :
  default (JStr "unknown.vrs") (dict_get "filename" fields) = JStr name ->
  io_fails E (OpMakedirs outdir) = false ->
  exists more,
    output (snd (download_one E (JDict fields) outdir verify timeout w)) = output w ++ more
    /\ processed more = [sanitize_filename name].
Proof.
  intros Hname Hmk.
  set (filename := sanitize_filename name).
  set (url := default JNull (dict_get "download_url" fields)).
  destruct (truthy url) eqn:Htruthy.
  2:{ unfold download_one. rewrite Hname. cbn [sanitize_field].
      rewrite bind_eval. cbn [ret]. fold url. rewrite Htruthy. cbn [negb].
      exists [LogSkipNoUrl filename]. split; reflexivity. }
  assert (Hurl : dict_get "download_url" fields = Some url).
  { unfold url in *. destruct (dict_get "download_url" fields); [reflexivity|].
    discriminate Htruthy. }
  pose proof (determine_expected_size_eval E fields url timeout w) as Hdet.
  rewrite (download_one_unfold E fields url name outdir verify timeout w _ _
             Hurl Htruthy Hname Hmk Hdet).
  fold filename.
  set (w1 := log_requests (size_probe fields url timeout) w).
  set (expected_size := known_size E fields url timeout).
  set (dest_path := path_join outdir filename).
  rewrite bind_eval.
  destruct (already_satisfied_returns E fields dest_path expected_size verify w1)
    as [satisfied ->].
  destruct satisfied.
  { exists [LogAlreadyOk filename]. split; reflexivity. }
  rewrite bind_eval. cbn [print].
  match goal with
  | |- context [snd (?c (log_output ?l w1))] =>
      assert (Hquiet : preserves quiet c)
  end.
  { quiet_tac; auto using quiet_ranged_download, quiet_verify_download. }
  match goal with
  | |- context [snd (?c (log_output ?l w1))] =>
      destruct (Hquiet (log_output l w1)) as (more & Hmore & Hnone)
  end.
  exists (LogDownloading filename outdir :: more). split.
  - rewrite Hmore. cbn [log_output output w1 log_requests].
    rewrite <- app_assoc. reflexivity.
  - change (processed (LogDownloading filename outdir :: more))
      with (filename :: processed more).
    rewrite Hnone. reflexivity.
Qed.

(** A worker whose [download_one] returns for every queued descriptor takes
    up each of them once, in the order of the queue. *)
Lemma worker_loop_processed E entries outdir verify timeout :
  (forall entry w', In entry entries ->
     fst (download_one E entry outdir verify timeout w') = Ret tt) ->
  (forall entry, In entry entries ->
     exists fields name,
       entry = JDict fields
       /\ default (JStr "unknown.vrs") (dict_get "filename" fields) = JStr name) ->
  io_fails E (OpMakedirs outdir) = false ->
  forall w0,
    exists more,
      output (snd (worker_loop E (map Some entries) outdir verify timeout w0))
      = output w0 ++ more
      /\ processed more = map entry_name entries.
Proof.
  intros Hsafe Hshape Hmk.
  induction entries as [|entry rest IH]; intros w0.
  - exists []. split; [symmetry; apply app_nil_r | reflexivity].
  - cbn [map worker_loop]. rewrite bind_eval.
    change (q_set (map Some rest) w0) with (Ret tt, snd (q_set (map Some rest) w0)).
    cbn beta iota. rewrite bind_eval.
    destruct (worker_turn E entry (map Some rest) outdir verify timeout w0)
      as (o & w2 & -> & Ho & _ & _ & Hout).
    rewrite (Hsafe entry _ (or_introl eq_refl)) in Ho. subst o.
    destruct (Hshape entry (or_introl eq_refl)) as (fields & name & -> & Hname).
    destruct (download_one_processed E fields name outdir verify timeout
                (snd (q_set (map Some rest) w0)) Hname Hmk) as (more1 & Hmore1 & Hp1).
    rewrite Hmore1 in Hout. cbn [q_set snd output] in Hout.
    destruct IH with (w0 := w2) as (more2 & Hmore2 & Hp2).
    { intros e w' He. apply Hsafe. right. exact He. }
    { intros e He. apply Hshape. right. exact He. }
    exists (more1 ++ more2). split.
    + rewrite Hmore2, Hout. symmetry. apply app_assoc.
    + rewrite processed_app, Hp1, Hp2. cbn [map entry_name]. rewrite Hname. reflexivity.
Qed.

Lemma put_all_output (entries : list json) (w : world) :
  output (snd (put_all entries w)) = output w.
Proof.
  revert w. induction entries as [|e entries IH]; intros w; [reflexivity|].
  cbn [put_all]. rewrite bind_eval. unfold q_put. cbn beta iota. rewrite IH. reflexivity.
Qed.

(** The entries that a run processes: with one worker, a fresh queue, an
    output directory that can be created, names that are strings and checks
    after the download that cannot raise, [main] returns, and the
    descriptors taken up during the run are, in this order, the first
    [max_files] eligible entries when [max_files] is positive, and all the
    eligible entries otherwise; each is taken up once, and no other entry
    is. *)
Theorem main_processes_selected_entries (E : env) (a : args) (data : json) (w : world) :
  queue w = [] ->
  unfinished_tasks w = 0%nat ->
  io_fails E (OpMakedirs (outdir a)) = false ->
  forallb name_is_string (recursive_find_entries data) = true ->
  verify_flag a = false
  \/ (forall fields, In (JDict fields) (recursive_find_entries data) ->
        checksum_given fields = None) ->
  let entries := List.filter name_accepted (recursive_find_entries data) in
  let taken := if 0 <? max_files a then firstn (Z.to_nat (max_files a)) entries
               else entries in
  let r := main_one_worker E a data w in
  fst r = Ret MainReturned
  /\ processed (output (snd r)) = processed (output w) ++ map entry_name taken
  /\ exists left_out, entries = taken ++ left_out.
Proof.
  intros Hq Hu Hmk Hnames Hsafe. cbv zeta.
  remember (List.filter name_accepted (recursive_find_entries data)) as entries
    eqn:Hdef.
  remember (if 0 <? max_files a then firstn (Z.to_nat (max_files a)) entries
            else entries) as taken eqn:Htaken_def.
  assert (Hsplit : exists left_out, entries = taken ++ left_out).
  { rewrite Htaken_def. destruct (0 <? max_files a).
    - exists (skipn (Z.to_nat (max_files a)) entries). symmetry. apply firstn_skipn.
    - exists []. symmetry. apply app_nil_r. }
  cut (exists wf, main_one_worker E a data w = (Ret MainReturned, wf)
                  /\ processed (output wf) = processed (output w) ++ map entry_name taken).
  { intros (wf & -> & Hwf). split; [reflexivity|]. split; [exact Hwf | exact Hsplit]. }
  unfold main_one_worker. rewrite bind_eval. unfold lift.
  rewrite candidate_entries_spec_aux, Hnames, <- Hdef.
  assert (Hentries : forall e, In e entries ->
            In e (recursive_find_entries data) /\ name_accepted e = true).
  { intros e He. rewrite Hdef in He. apply List.filter_In in He. exact He. }
  assert (Hlimit : limit_entries (max_files a) entries = taken)
    by (rewrite Htaken_def; reflexivity).
  destruct entries as [|e0 rest] eqn:Heq.
  { eexists. split; [reflexivity|]. cbn [print log_output output snd].
    rewrite processed_app. f_equal. rewrite Htaken_def.
    destruct (0 <? max_files a); [rewrite firstn_nil|]; reflexivity. }
  rewrite <- Heq in *. clear Heq e0 rest.
  cbn beta iota. rewrite Hlimit.
  assert (Htaken : forall e, In e taken -> In e entries).
  { destruct Hsplit as [left_out Hs]. intros e He. rewrite Hs. apply in_or_app. left. exact He. }
  rewrite bind_eval.
  assert (Hprint : exists w1,
    (if 0 <? max_files a
     then print (LogFoundFirst (length entries) (length taken))
     else print (LogFoundAll (length entries))) w = (Ret tt, w1)
    /\ queue w1 = [] /\ unfinished_tasks w1 = 0%nat
    /\ processed (output w1) = processed (output w)).
  { destruct (0 <? max_files a); eexists; (split; [reflexivity|]);
      cbn [print log_output queue unfinished_tasks output]; rewrite processed_app;
      cbn; rewrite app_nil_r; auto. }
  destruct Hprint as (w1 & -> & Hq1 & Hu1 & Hp1).
  cbv zeta. rewrite bind_eval.
  destruct (put_all_queue taken w1) as (Hput & Hq2 & Hu2 & _).
  pose proof (put_all_output taken w1) as Hout2.
  destruct (put_all taken w1) as [o w2]. cbn [fst snd] in *. subst o.
  rewrite Hq1 in Hq2. cbn [app] in Hq2. rewrite Hu1 in Hu2. cbn in Hu2.
  assert (Hshape : forall entry, In entry taken ->
            exists fields name,
              entry = JDict fields
              /\ default (JStr "unknown.vrs") (dict_get "filename" fields) = JStr name).
  { intros entry He. destruct (Hentries entry (Htaken entry He)) as [_ Hacc].
    apply accepted_entry_shape. exact Hacc. }
  assert (Hreturns : forall entry w', In entry taken ->
            fst (download_one E entry (outdir a) (verify_flag a) (timeout a) w') = Ret tt).
  { intros entry w' He.
    destruct (Hentries entry (Htaken entry He)) as [Hfound Hacc].
    destruct (accepted_entry_shape entry Hacc) as (fields & fname & -> & Hname).
    apply (download_one_returns_aux E fields fname (outdir a) (verify_flag a) (timeout a) w'
             Hname Hmk).
    destruct Hsafe as [Hoff | Hnosum]; [left; exact Hoff|].
    right. left. apply Hnosum. exact Hfound. }
  destruct (worker_drains_queue_aux E taken [] (outdir a) (verify_flag a) (timeout a) w2
              Hreturns ltac:(lia)) as [Hdrain _].
  destruct (Hdrain Hq2) as (Hret & Hq3 & Hu3).
  destruct (worker_loop_processed E taken (outdir a) (verify_flag a) (timeout a)
              Hreturns Hshape Hmk w2) as (more & Hmore & Hpmore).
  assert (Hout3 : output (snd (worker E (outdir a) (verify_flag a) (timeout a) w2))
                  = output w2 ++ more).
  { unfold worker. rewrite bind_eval. unfold q_items. cbn beta iota. rewrite Hq2.
    exact Hmore. }
  unfold thread_run at 1. rewrite bind_eval, try_except_eval, bind_eval.
  destruct (worker E (outdir a) (verify_flag a) (timeout a) w2) as [o w3].
  cbn [fst snd] in *. subst o. cbn [ret]. rewrite bind_eval. unfold q_unfinished.
  cbn beta iota. rewrite Hu3, Hu2, Nat.sub_diag. rewrite bind_eval.
  change (q_put None w3) with (Ret tt, snd (q_put None w3)). cbn beta iota.
  set (w4 := snd (q_put None w3)).
  assert (Hq4 : queue w4 = [None]) by (cbn; rewrite Hq3; reflexivity).
  assert (Hout4 : output w4 = output w3) by reflexivity.
  rewrite bind_eval, bind_eval. unfold thread_run. rewrite try_except_eval, bind_eval.
  unfold worker. rewrite bind_eval. unfold q_items. cbn beta iota. rewrite Hq4.
  cbn. eexists. split; [reflexivity|].
  cbn [log_output output]. rewrite Hout3, Hout2, !processed_app, Hp1, Hpmore.
  cbn. rewrite app_nil_r. reflexivity.
Qed.

End SelectionRun.

Section MoreWitnesses.

Lemma download_one_returns_witness :
  default (JStr "unknown.vrs") (dict_get "filename" fields_bad_sha) = JStr "c.vrs"
  /\ fst (download_one plain_env (JDict fields_bad_sha) "out" false 30 empty_world) = Ret tt.
Proof.
  split; [reflexivity|].
  apply (download_one_returns plain_env fields_bad_sha "c.vrs" "out" false 30 empty_world);
    [reflexivity | reflexivity | left; reflexivity].
Defined.

Lemma size_mismatch_keeps_file_witness :
  dict_get "file_size_bytes" fields_five = Some (JInt 5)
  /\ files (snd (download_one plain_env (JDict fields_five) "out" true 30 empty_world))
       !! "out/a.vrs"
     = Some (data_of "ABCD").
Proof.
  split; [reflexivity|].
  refine (proj1 (proj2
    (size_mismatch_keeps_file plain_env fields_five "http://x/a" "a.vrs" "out" 30
       empty_world 5
       (mkResponse 200 (Some "4") [Chunk (data_of "AB"); Chunk (data_of "CD")])
       (data_of "ABCD")
       no_faults_plain_env eq_refl eq_refl _ eq_refl eq_refl eq_refl _ eq_refl eq_refl
       eq_refl _))).
  - discriminate.
  - intros content H. discriminate H.
  - discriminate.
Defined.

Lemma second_run_is_skipped_witness :
  checksum_matches plain_env fields_sum "out/a.vrs" (data_of "ABCD") = true
  /\ fst (download_one plain_env (JDict fields_sum) "out" true 30
            (snd (download_one plain_env (JDict fields_sum) "out" true 30 empty_world)))
     = Ret tt.
Proof.
  split; [reflexivity|].
  destruct (second_run_is_skipped plain_env fields_sum "http://x/a" "a.vrs" "out" 30
              empty_world 4
              (mkResponse 200 (Some "4") [Chunk (data_of "AB"); Chunk (data_of "CD")])
              (data_of "ABCD")
              no_faults_plain_env eq_refl eq_refl ltac:(discriminate) eq_refl eq_refl
              eq_refl eq_refl eq_refl eq_refl eq_refl eq_refl)
    as (_ & _ & ->).
  reflexivity.
Defined.

Lemma worker_marks_every_taken_task_witness :
  queue queued_bad_world = map Some [entry_bad_sha; entry_b]
  /\ exists taken,
       (taken <= 2)%nat
       /\ unfinished_tasks (snd (worker plain_env "out" true 30 queued_bad_world))
          = (2 - taken)%nat.
Proof.
  split; [reflexivity|].
  destruct (worker_marks_every_taken_task plain_env [entry_bad_sha; entry_b] "out" true 30
              queued_bad_world eq_refl (le_n 2))
    as (taken & Hle & _ & Hu & _).
  exists taken. split; [exact Hle | exact Hu].
Defined.

Lemma worker_drains_queue_witness :
  queue queued_good_world = map Some [entry_a; entry_b]
  /\ fst (worker plain_env "out" false 30 queued_good_world) = Ret WorkerWaiting.
Proof.
  split; [reflexivity|].
  refine (proj1 (proj1
    (worker_drains_queue plain_env [entry_a; entry_b] [] "out" false 30 queued_good_world
       _ (le_n 2)) eq_refl)).
  intros entry w' [<- | [<- | []]].
  - apply (download_one_returns_aux plain_env _ "a.vrs" "out" false 30 w');
      [reflexivity | reflexivity | left; reflexivity].
  - apply (download_one_returns_aux plain_env _ "b.VRS" "out" false 30 w');
      [reflexivity | reflexivity | left; reflexivity].
Defined.

Lemma bad_name_aborts_run_witness :
  In bad_name_entry (recursive_find_entries bad_name_doc)
  /\ main_one_worker plain_env default_args bad_name_doc empty_world
     = (Raise TypeError, empty_world).
Proof.
  split; [right; left; reflexivity|].
  apply (bad_name_aborts_run plain_env default_args bad_name_doc bad_name_entry empty_world);
    [right; left; reflexivity | reflexivity].
Defined.

Lemma nothing_eligible_nothing_done_witness :
  recursive_find_entries txt_doc = [entry_n "notes.txt"]
  /\ main_one_worker plain_env default_args txt_doc empty_world
     = (Ret MainReturned, log_output LogNoFiles empty_world).
Proof.
  split; [reflexivity|].
  apply (nothing_eligible_nothing_done plain_env default_args txt_doc empty_world).
  intros entry [<- | []]. split; reflexivity.
Defined.

Lemma main_processes_selected_entries_witness :
  (queue empty_world = [] /\ max_files first_two_args = 2)
  /\ processed (output (snd (main_one_worker plain_env first_two_args five_doc empty_world)))
     = ["1.vrs"; "2.VRS"].
Proof.
  split; [split; reflexivity|].
  refine (proj1 (proj2
    (main_processes_selected_entries plain_env first_two_args five_doc empty_world
       eq_refl eq_refl eq_refl eq_refl (or_intror _)))).
  intros fields Hin. vm_compute in Hin.
  repeat (destruct Hin as [Hin|Hin]; [injection Hin as <-; reflexivity|]).
  destruct Hin.
Defined.

Lemma main_completes_witness :
  verify_flag skip_existing_args = false
  /\ fst (main_one_worker plain_env skip_existing_args five_doc empty_world)
     = Ret MainReturned.
Proof.
  split; [reflexivity|].
  refine (proj1
    (main_completes plain_env skip_existing_args five_doc empty_world
       eq_refl eq_refl eq_refl eq_refl (or_introl eq_refl))).
Defined.

End MoreWitnesses.

Section FilterExact.

Lemma re_search_unicode_spec (pat : list pat_item) (s : list N) :
  re_search_unicode true pat s = true
  <-> exists front rest, s = front ++ rest /\ match_here_unicode true pat rest = true.
Proof.
  induction s as [|c s IH]; cbn [re_search_unicode]; rewrite orb_true_iff.
  - split.
    + intros [H | H]; [|discriminate H]. exists [], []. auto.
    + intros (front & rest & Heq & H). symmetry in Heq.
      apply app_eq_nil in Heq as [-> ->]. auto.
  - rewrite IH. split.
    + intros [H | (front & rest & -> & H)].
      * exists [], (c :: s). auto.
      * exists (c :: front), rest. auto.
    + intros (front & rest & Heq & H). destruct front as [|c' front].
      * left. cbn in Heq. subst rest. exact H.
      * injection Heq as <- ->. right. eauto.
Qed.

Ltac literal_cases :=
  unfold literal_matches_ignorecase;
  match goal with
  | |- context [N.of_nat (code (lower_char ?c))] =>
      let l := fresh "l" in
      set (l := N.of_nat (code (lower_char c))); vm_compute in l; subst l
  end;
  cbv zeta; cbn [N.eqb Pos.eqb andb];
  rewrite ?orb_false_r, ?orb_true_iff, ?N.eqb_eq;
  match goal with
  | |- context [(65 <=? ?p)%N] =>
      destruct (N.leb_spec 65 p), (N.leb_spec p 90); cbn [andb]; lia
  end.

Lemma literal_dot (p : N) : literal_matches_ignorecase "." p = true <-> p = 46%N.
Proof. literal_cases. Qed.

Lemma literal_v (p : N) : literal_matches_ignorecase "v" p = true <-> (p = 118 \/ p = 86)%N.
Proof. literal_cases. Qed.

Lemma literal_r (p : N) : literal_matches_ignorecase "r" p = true <-> (p = 114 \/ p = 82)%N.
Proof. literal_cases. Qed.

Lemma literal_s (p : N) :
  literal_matches_ignorecase "s" p = true <-> (p = 115 \/ p = 83 \/ p = 383)%N.
Proof. literal_cases. Qed.

Lemma match_here_unicode_vrs (rest : list N) :
  match_here_unicode true VRS_PATTERN rest = true <-> vrs_ending rest.
Proof.
  unfold vrs_ending. split.
  - destruct rest as [|a [|b [|c [|d tail]]]]; cbn; rewrite ?andb_false_r;
      try discriminate.
    intros H. repeat (apply andb_prop in H as [? H]).
    match goal with
    | Ha : literal_matches_ignorecase "." a = true,
      Hb : literal_matches_ignorecase "v" b = true,
      Hc : literal_matches_ignorecase "r" c = true,
      Hd : literal_matches_ignorecase "s" d = true |- _ =>
        apply literal_dot in Ha; apply literal_v in Hb; apply literal_r in Hc;
        apply literal_s in Hd; subst a
    end.
    exists b, c, d. repeat split; try assumption.
    destruct tail as [|e [|? ?]]; [left; reflexivity| |discriminate H].
    rewrite andb_true_r in H. apply N.eqb_eq in H. subst e. right. reflexivity.
  - intros (b & c & d & Hl & Hb & Hc & Hd).
    apply literal_v in Hb. apply literal_r in Hc. apply literal_s in Hd.
    destruct Hl as [-> | ->]; cbn -[literal_matches_ignorecase];
      rewrite Hb, Hc, Hd; reflexivity.
Qed.

(** On the characters below U+0100 the two readings of a literal of
    [VRS_REGEX] agree. *)
Lemma literal_agrees (c d : ascii) :
  In (PLit c) VRS_PATTERN ->
  Ascii.eqb (lower_char c) (lower_char d)
  = literal_matches_ignorecase c (N.of_nat (code d)).
Proof.
  intros [H | [H | [H | [H | [H | []]]]]]; try discriminate H; injection H as <-;
    destruct d as [[] [] [] [] [] [] [] []]; vm_compute; reflexivity.
Qed.

Lemma newline_agrees (d : ascii) : Ascii.eqb d newline = (N.of_nat (code d) =? 10)%N.
Proof. destruct d as [[] [] [] [] [] [] [] []]; vm_compute; reflexivity. Qed.

Lemma match_here_code_points (pat : list pat_item) :
  (forall item, In item pat -> In item VRS_PATTERN) ->
  forall s, match_here true pat s = match_here_unicode true pat (code_points s).
Proof.
  induction pat as [|item pat IH]; intros Hpat s; [reflexivity|].
  assert (Htail : forall s', match_here true pat s' = match_here_unicode true pat (code_points s')).
  { apply IH. intros i Hi. apply Hpat. right. exact Hi. }
  destruct item as [c|].
  - destruct s as [|d s']; [reflexivity|].
    cbn [match_here code_points list_ascii_of_string map match_here_unicode].
    fold (code_points s').
    rewrite (literal_agrees c d) by (apply Hpat; left; reflexivity).
    rewrite Htail. reflexivity.
  - destruct s as [|d [|d' s']].
    + cbn [match_here code_points list_ascii_of_string map match_here_unicode].
      apply (Htail "").
    + cbn [match_here code_points list_ascii_of_string map match_here_unicode].
      rewrite newline_agrees. f_equal. apply (Htail (String d "")).
    + reflexivity.
Qed.

Lemma re_search_code_points (s : string) :
  re_search true VRS_PATTERN s = re_search_unicode true VRS_PATTERN (code_points s).
Proof.
  induction s as [|c s IH].
  - reflexivity.
  - cbn [re_search re_search_unicode code_points list_ascii_of_string map].
    fold (code_points s). rewrite <- IH. f_equal.
    apply (match_here_code_points VRS_PATTERN (fun i H => H) (String c s)).
Qed.

(** The filter of [main], [VRS_REGEX.search], accepts exactly the names that
    end with a dot, v or V, r or R, and s, S or U+017F (the long s, which
    [re.IGNORECASE] takes for an s), possibly followed by one final newline.
    On names made of characters below U+0100, which are the names of the
    documents considered here, these are the names that end with ".vrs" in
    any mix of upper and lower case, possibly followed by one final
    newline. *)
Theorem vrs_filter_exact :
  (forall name : list N,
     VRS_REGEX_search_unicode name = true
     <-> exists front ending, name = front ++ ending /\ vrs_ending ending)
  /\ (forall fname : string,
        VRS_REGEX_search fname = VRS_REGEX_search_unicode (code_points fname))
  /\ (forall fname : string,
        VRS_REGEX_search fname = true
        <-> ends_with_ci ".vrs" fname = true
            \/ ends_with_ci (".vrs" +:+ String newline "") fname = true).
Proof.
  split; [|split].
  - intros name. unfold VRS_REGEX_search_unicode. rewrite re_search_unicode_spec.
    split; intros (front & rest & Heq & H); exists front, rest; (split; [exact Heq|]);
      apply match_here_unicode_vrs; exact H.
  - intros fname. apply re_search_code_points.
  - intros fname. rewrite VRS_REGEX_search_spec. apply orb_true_iff.
Qed.

(** The name "a.vr" followed by the long s is accepted. *)
Example long_s_accepted : VRS_REGEX_search_unicode [97; 46; 118; 114; 383]%N = true.
Proof. reflexivity. Qed.

Lemma ranged_download_appends_on_200_witness :
  files partial_world !! staging "out/a.vrs" = Some (data_of "AB")
  /\ files (snd (ranged_download plain_env (JStr "http://x/a") "out/a.vrs" (Some 4) 30
                   partial_world)) !! "out/a.vrs"
     = Some (data_of "ABABCD").
Proof.
  split; [reflexivity|].
  refine (proj1 (proj2
    (ranged_download_appends_on_200 plain_env "http://x/a" "out/a.vrs" (Some 4) 30
       partial_world (data_of "AB") (data_of "ABCD")
       (mkResponse 200 (Some "4") [Chunk (data_of "AB"); Chunk (data_of "CD")])
       no_faults_plain_env eq_refl _ eq_refl eq_refl eq_refl _))).
  - discriminate.
  - reflexivity.
Defined.

Lemma checksum_mismatch_keeps_file_witness :
  checksum_given fields_wrong_sum = Some (JStr "0000")
  /\ files (snd (download_one plain_env (JDict fields_wrong_sum) "out" true 30 empty_world))
       !! "out/a.vrs"
     = Some (data_of "ABCD").
Proof.
  split; [reflexivity|].
  refine (proj1 (proj2
    (checksum_mismatch_keeps_file plain_env fields_wrong_sum "http://x/a" "a.vrs" "out"
       "0000" 30 empty_world 4
       (mkResponse 200 (Some "4") [Chunk (data_of "AB"); Chunk (data_of "CD")])
       (data_of "ABCD")
       no_faults_plain_env eq_refl eq_refl _ eq_refl eq_refl eq_refl eq_refl eq_refl
       eq_refl eq_refl eq_refl))).
  discriminate.
Defined.

End FilterExact.
